(** * MCP File Manager: the containment boundary and the tool dispatcher

    A shallow embedding of [src/index.ts] (class [FileManagerServer]) and a
    verification of its path validation, its dispatcher and its six tool
    handlers.

    The model, in the order of the file:
    - [Str]      : the string methods the server uses ([startsWith],
                   [includes], [charCodeAt] at both ends);
    - [Path]     : the part of Node's [path] module the server calls
                   ([resolve], [normalize], [join], [dirname], [sep]), in its
                   POSIX flavour, with the character loop of
                   [normalizeString];
    - [Segments] : paths as lists of segments, the view in which the
                   properties are stated ([PathFacts.normalizeString_segments]
                   relates the loop to it);
    - [Js]       : argument values, thrown errors, the state-and-exception
                   monad in which the [async] methods are sequenced, JSON
                   values and [JSON.stringify];
    - [Fs]       : the calls of [fs/promises] the handlers make, as an
                   interface over an abstract world;
    - [Server]   : [ALLOWED_BASE_PATH], [validatePath], the six handlers and
                   the handler of [CallToolRequestSchema] ([callTool]);
    - [listTools]: the answer of the handler of [ListToolsRequestSchema];
    - [Global]   : [parseInt];
    - [Utf8]     : the UTF-8 coding [fs] does when it writes and reads text;
    - [MemFs]    : an in-memory file system that implements [Fs] and records
                   every call, to run the server in;
    - [DeniedFs] : a second implementation of [Fs], in which every look is
                   refused.

    Then come the vocabulary in which the properties are stated, examples of
    the model at work, and the lemmas and theorems.

    A string is held as the bytes of its code points in the UTF-8 scheme (an
    unpaired surrogate as the three bytes the scheme gives its code point),
    so that a string without unpaired surrogate is its own UTF-8 encoding; a
    file holds bytes.  Logging ([console.error], [console.warn]) and the
    process-level handlers of [setupErrorHandling] are outside the model. *)

From Stdlib Require Import Ascii ZArith.
From stdpp Require Import base option list strings gmap pretty.

Local Open Scope string_scope.
Local Open Scope list_scope.
Local Open Scope stdpp_scope.

(** ** Strings as JavaScript uses them *)

Module Str.

(** [s.startsWith(p)] *)
Definition startsWith (s p : string) : bool := String.prefix p s.

(** [s.includes(sub)], by scanning every suffix of [s]. *)
Fixpoint includes (s sub : string) : bool :=
  String.prefix sub s ||
  match s with
  | EmptyString => false
  | String _ s' => includes s' sub
  end.

(** [s.charCodeAt(0) === c] *)
Definition firstIs (c : ascii) (s : string) : bool :=
  match s with
  | String a _ => Ascii.eqb a c
  | EmptyString => false
  end.

(** [s.charCodeAt(s.length - 1) === c] *)
Fixpoint lastIs (c : ascii) (s : string) : bool :=
  match s with
  | EmptyString => false
  | String a EmptyString => Ascii.eqb a c
  | String _ s' => lastIs c s'
  end.

Definition isEmpty (s : string) : bool :=
  match s with EmptyString => true | _ => false end.

(** The character [c] occurs in [s]. *)
Fixpoint mem (c : ascii) (s : string) : bool :=
  match s with
  | EmptyString => false
  | String a s' => Ascii.eqb a c || mem c s'
  end.

End Str.

(** ** Node's [path] module, POSIX flavour

    [index.ts] imports [path] from the Node runtime.  The functions below
    follow [path.posix] (lib/path.js): the only separator is the forward
    slash and a path is absolute when it starts with one.  Indices and
    lengths are integers, as [lastSlash] and [dots] start from or fall to
    [-1]. *)

Module Path.

Definition CHAR_FORWARD_SLASH : ascii := "/"%char.
Definition CHAR_DOT : ascii := "."%char.

(** [path.sep] *)
Definition sep : string := "/".

Definition isPosixPathSeparator (c : ascii) : bool :=
  Ascii.eqb c CHAR_FORWARD_SLASH.

(** [path.isAbsolute] *)
Definition isAbsolute (p : string) : bool :=
  Str.firstIs CHAR_FORWARD_SLASH p.

Definition strlen (s : string) : Z := Z.of_nat (String.length s).

(** [s.charCodeAt(i)] *)
Definition charCodeAt (s : string) (i : Z) : option ascii :=
  if (i <? 0)%Z then None else String.get (Z.to_nat i) s.

(** [s.slice(from, to)] for [0 <= from <= to <= s.length] *)
Definition slice (s : string) (from to : Z) : string :=
  String.substring (Z.to_nat from) (Z.to_nat (to - from)) s.

(** [s.lastIndexOf("/")]: the index of the last separator seen from index
    [i] on, or [found] when there is none. *)
Fixpoint lastIndexFrom (i : Z) (s : string) (found : Z) : Z :=
  match s with
  | EmptyString => found
  | String c s' =>
      lastIndexFrom (i + 1) s' (if isPosixPathSeparator c then i else found)
  end.

Definition lastIndexOfSeparator (s : string) : Z := lastIndexFrom 0 s (-1).

(** The variables of the loop of [normalizeString]. *)
Record normState := {
  res : string;
  lastSegmentLength : Z;
  lastSlash : Z;
  dots : Z
}.

(** The end of every turn taken at a separator:
    [lastSlash = i; dots = 0]. *)
Definition turned (i : Z) (res_ : string) (lastSegmentLength_ : Z) : normState :=
  {| res := res_; lastSegmentLength := lastSegmentLength_; lastSlash := i; dots := 0 |}.

(** The turn of the loop of [normalizeString] when the character at [i] is
    a separator, or stands for one at the end of the path. *)
Definition atSeparator (allowAboveRoot : bool) (path : string) (i : Z)
    (st : normState) : normState :=
  let above :=
    if allowAboveRoot then
      turned i (res st +:+ (if (strlen (res st) >? 0)%Z then "/.." else "..")) 2
    else turned i (res st) (lastSegmentLength st) in
  if (lastSlash st =? i - 1)%Z || (dots st =? 1)%Z then
    turned i (res st) (lastSegmentLength st)
  else if (dots st =? 2)%Z then
    if (strlen (res st) <? 2)%Z
       || negb (lastSegmentLength st =? 2)%Z
       || negb (bool_decide (charCodeAt (res st) (strlen (res st) - 1) = Some CHAR_DOT))
       || negb (bool_decide (charCodeAt (res st) (strlen (res st) - 2) = Some CHAR_DOT))
    then
      if (strlen (res st) >? 2)%Z then
        let lastSlashIndex := lastIndexOfSeparator (res st) in
        if (lastSlashIndex =? -1)%Z then turned i EmptyString 0
        else
          let res' := slice (res st) 0 lastSlashIndex in
          turned i res' (strlen res' - 1 - lastIndexOfSeparator res')
      else if negb (strlen (res st) =? 0)%Z then turned i EmptyString 0
      else above
    else above
  else
    let segment := slice path (lastSlash st + 1) i in
    turned i
      (if (strlen (res st) >? 0)%Z then res st +:+ "/" +:+ segment else segment)
      (i - lastSlash st - 1).

(** The turn at a character that is no separator. *)
Definition atCharacter (code : ascii) (st : normState) : normState :=
  {| res := res st; lastSegmentLength := lastSegmentLength st; lastSlash := lastSlash st;
     dots := if Ascii.eqb code CHAR_DOT && negb (dots st =? -1)%Z
             then (dots st + 1)%Z else (-1)%Z |}.

(** The loop, over the characters from index [i] on; [code] is the
    character of the turn before.  After the last character the loop takes
    one more turn, as at a separator, unless the path ended with one. *)
Fixpoint normalizeLoop (allowAboveRoot : bool) (path rest : string) (i : Z)
    (code : ascii) (st : normState) : string :=
  match rest with
  | String c rest' =>
      normalizeLoop allowAboveRoot path rest' (i + 1) c
        (if isPosixPathSeparator c then atSeparator allowAboveRoot path i st
         else atCharacter c st)
  | EmptyString =>
      if isPosixPathSeparator code then res st
      else res (atSeparator allowAboveRoot path i st)
  end.

(** [normalizeString(path, allowAboveRoot, "/", isPosixPathSeparator)] *)
Definition normalizeString (path : string) (allowAboveRoot : bool) : string :=
  normalizeLoop allowAboveRoot path path 0 Ascii.zero
    {| res := EmptyString; lastSegmentLength := 0; lastSlash := -1; dots := 0 |}.

(** [path.normalize] *)
Definition normalize (path : string) : string :=
  if Str.isEmpty path then "."
  else
    let isAbs := Str.firstIs CHAR_FORWARD_SLASH path in
    let trailingSeparator := Str.lastIs CHAR_FORWARD_SLASH path in
    let path' := normalizeString path (negb isAbs) in
    if Str.isEmpty path' then
      if isAbs then "/" else if trailingSeparator then "./" else "."
    else
      let path'' := if trailingSeparator then path' +:+ "/" else path' in
      if isAbs then "/" +:+ path'' else path''.

(** The loop of [path.resolve], from the last argument towards the first
    and then the working directory, until an absolute one is met.
    [paths] is the arguments reversed, followed by [process.cwd()]. *)
Fixpoint resolveLoop (paths : list string) (resolvedPath : string)
    : string * bool :=
  match paths with
  | [] => (resolvedPath, false)
  | p :: rest =>
      if Str.isEmpty p then resolveLoop rest resolvedPath
      else
        let resolvedPath' := p +:+ "/" +:+ resolvedPath in
        if Str.firstIs CHAR_FORWARD_SLASH p then (resolvedPath', true)
        else resolveLoop rest resolvedPath'
  end.

(** [path.resolve(...args)] in a process whose working directory is [cwd]. *)
Definition resolve (cwd : string) (args : list string) : string :=
  let '(resolvedPath, resolvedAbsolute) :=
    resolveLoop (rev args ++ [cwd]) EmptyString in
  let resolvedPath' := normalizeString resolvedPath (negb resolvedAbsolute) in
  if resolvedAbsolute then "/" +:+ resolvedPath'
  else if Str.isEmpty resolvedPath' then "." else resolvedPath'.

(** The loop of [path.join]: the arguments that are not empty, glued with
    separators; [None] stands for [joined === undefined]. *)
Fixpoint joinLoop (args : list string) (joined : option string) : option string :=
  match args with
  | [] => joined
  | arg :: rest =>
      joinLoop rest
        (if Str.isEmpty arg then joined
         else match joined with
              | None => Some arg
              | Some j => Some (j +:+ "/" +:+ arg)
              end)
  end.

(** [path.join(...args)] *)
Definition join (args : list string) : string :=
  match joinLoop args None with
  | None => "."
  | Some joined => normalize joined
  end.

(** [path.dirname]: [dirnameScan] walks the path from its end down to
    index 1 with the [matchedSlash] flag of the source and yields the
    characters before the separator that ends the directory part, last one
    first. *)
Fixpoint dirnameScan (rpath : list ascii) (matchedSlash : bool)
    : option (list ascii) :=
  match rpath with
  | [] => None
  | [_] => None
  | c :: before =>
      if isPosixPathSeparator c then
        if matchedSlash then dirnameScan before true else Some before
      else dirnameScan before false
  end.

Definition dirname (path : string) : string :=
  if Str.isEmpty path then "."
  else
    let hasRoot := Str.firstIs CHAR_FORWARD_SLASH path in
    match dirnameScan (rev (String.list_ascii_of_string path)) true with
    | None => if hasRoot then "/" else "."
    | Some before =>
        if hasRoot && bool_decide (length before = 1) then "//"
        else String.string_of_list_ascii (rev before)
    end.

End Path.

(** ** Paths as lists of segments

    The view of a path in which the properties are stated and in which the
    in-memory file system finds the name and the ancestors of a node. *)

Module Segments.

(** The segments between separators: [split "a//b/" = ["a"; ""; "b"; ""]]. *)
Fixpoint split (s : string) : list string :=
  match s with
  | EmptyString => [EmptyString]
  | String c s' =>
      if Path.isPosixPathSeparator c then EmptyString :: split s'
      else match split s' with
           | x :: r => String c x :: r
           | [] => [String c EmptyString]
           end
  end.

(** Segments glued back with single separators. *)
Fixpoint joinSegments (l : list string) : string :=
  match l with
  | [] => EmptyString
  | [x] => x
  | x :: r => x +:+ Path.sep +:+ joinSegments r
  end.

(** What a turn of [normalizeString] at a separator does to the segments
    of [res], held in [stack] with the last one first, given the segment
    [seg] that ends there: an empty segment or [.] changes nothing; [..]
    removes the last segment unless there is none or it is itself a kept
    [..], and is then kept only when [allowAboveRoot]; any other segment is
    added. *)
Definition normalizeStep (allowAboveRoot : bool)
    (stack : list string) (seg : string) : list string :=
  if decide (seg = EmptyString) then stack
  else if decide (seg = ".") then stack
  else if decide (seg = "..") then
    match stack with
    | top :: below =>
        if decide (top = "..") then
          if allowAboveRoot then seg :: stack else stack
        else below
    | [] => if allowAboveRoot then [seg] else []
    end
  else seg :: stack.

(** [normalizeString], on segments. *)
Definition normalizeSegments (allowAboveRoot : bool)
    (segs : list string) : list string :=
  rev (fold_left (normalizeStep allowAboveRoot) segs []).

(** The directory names a path goes through: its non-empty segments. *)
Definition components (p : string) : list string :=
  filter (fun s => s ≠ EmptyString) (split p).

End Segments.

(** ** JavaScript values, exceptions and promises *)

Module Js.

(** An argument of a tool call, as far as [typeof] tells values apart. *)
Inductive value :=
| VUndefined
| VNull
| VBool (b : bool)
| VNum (n : Z)
| VStr (s : string)
| VObject.

(** [typeof v === 'string'], with the string when it is one. *)
Definition asString (v : option value) : option string :=
  match v with
  | Some (VStr s) => Some s
  | _ => None
  end.

(** What a [throw] carries: an [Error] made by the server itself, or the
    error of a rejected [fs] call, which has a [code]. *)
Inductive error :=
| Error (message : string)
| ErrnoException (code : string) (message : string).

Definition message (e : error) : string :=
  match e with
  | Error m => m
  | ErrnoException _ m => m
  end.

Definition code (e : error) : option string :=
  match e with
  | Error _ => None
  | ErrnoException c _ => Some c
  end.

Inductive outcome (A : Type) :=
| Return (a : A)
| Throw (e : error).
Global Arguments Return {A} a.
Global Arguments Throw {A} e.

(** An [async] function over a world [W] (the storage, as the handlers see
    it): awaited calls are sequenced, a rejection skips the rest. *)
Definition M (W A : Type) : Type := W → W * outcome A.

Definition ret {W A} (a : A) : M W A := λ w, (w, Return a).
Definition throw {W A} (e : error) : M W A := λ w, (w, Throw e).
Definition lift {W A} (o : outcome A) : M W A := λ w, (w, o).

Definition bind {W A B} (c : M W A) (k : A → M W B) : M W B :=
  λ w, match c w with
       | (w', Return a) => k a w'
       | (w', Throw e) => (w', Throw e)
       end.

(** [try { body } catch (e) { handler }] *)
Definition tryCatch {W A} (body : M W A) (handler : error → M W A) : M W A :=
  λ w, match body w with
       | (w', Return a) => (w', Return a)
       | (w', Throw e) => handler e w'
       end.

(** [await Promise.all(items.map(f))] when no callback rejects early: the
    callbacks take effect in the order of the items. *)
Fixpoint mapM {W A B} (f : A → M W B) (l : list A) : M W (list B) :=
  match l with
  | [] => ret []
  | x :: r =>
      bind (f x) (λ y, bind (mapM f r) (λ ys, ret (y :: ys)))
  end.

(** JSON values; an object keeps its keys in insertion order. *)
#[warnings="-register-all"]
Inductive json :=
| JNum (n : Z)
| JStr (s : string)
| JArr (items : list json)
| JObj (fields : list (string * json)).

Definition newline : string := String "010"%char EmptyString.
Definition dquote : string := String "034"%char EmptyString.

Definition hexDigit (n : N) : ascii :=
  Ascii.ascii_of_N (if (n <? 10)%N then 48 + n else 87 + n).

(** One character of [QuoteJSONString]. *)
Definition quoteChar (c : ascii) : string :=
  let n := Ascii.N_of_ascii c in
  if (n =? 8)%N then "\b"
  else if (n =? 9)%N then "\t"
  else if (n =? 10)%N then "\n"
  else if (n =? 12)%N then "\f"
  else if (n =? 13)%N then "\r"
  else if (n =? 34)%N then "\" +:+ dquote
  else if (n =? 92)%N then "\\"
  else if (n <? 32)%N then
    "\u00" +:+ String (hexDigit (n / 16)) (String (hexDigit (n mod 16)) EmptyString)
  else String c EmptyString.

Fixpoint quoteBody (s : string) : string :=
  match s with
  | EmptyString => EmptyString
  | String c s' => quoteChar c +:+ quoteBody s'
  end.

Definition quote (s : string) : string := dquote +:+ quoteBody s +:+ dquote.

Fixpoint joinWith (sepr : string) (l : list string) : string :=
  match l with
  | [] => EmptyString
  | [x] => x
  | x :: r => x +:+ sepr +:+ joinWith sepr r
  end.

(** [JSON.stringify(v, null, 2)] below the indentation [indent]. *)
Fixpoint stringifyAt (indent : string) (v : json) : string :=
  let stepback := newline +:+ indent in
  let inner := indent +:+ "  " in
  let separator := "," +:+ newline +:+ inner in
  match v with
  | JNum n => pretty n
  | JStr s => quote s
  | JArr [] => "[]"
  | JArr items =>
      "[" +:+ newline +:+ inner
      +:+ joinWith separator (List.map (stringifyAt inner) items)
      +:+ stepback +:+ "]"
  | JObj [] => "{}"
  | JObj fields =>
      "{" +:+ newline +:+ inner
      +:+ joinWith separator
            (List.map (λ kv : string * json,
                 let (k, x) := kv in quote k +:+ ": " +:+ stringifyAt inner x)
               fields)
      +:+ stepback +:+ "}"
  end.

Definition JSON_stringify (v : json) : string := stringifyAt EmptyString v.

(** [obj.key] of a JSON object; [None] when the key is absent. *)
Definition field (key : string) (v : json) : option json :=
  match v with
  | JObj fields => snd <$> List.find (λ kv, bool_decide (kv.1 = key)) fields
  | _ => None
  end.

(** [n.toString(8)] for a non-negative integer. *)
Fixpoint octalDigits (fuel : nat) (n : N) (acc : string) : string :=
  match fuel with
  | O => acc
  | S fuel' =>
      let acc' := String (hexDigit (n mod 8)) acc in
      if (n / 8 =? 0)%N then acc' else octalDigits fuel' (n / 8) acc'
  end.

Definition toOctalString (n : Z) : string :=
  octalDigits (S (N.to_nat (N.log2 (Z.to_N n)))) (Z.to_N n) EmptyString.

End Js.

Declare Scope js_scope.
Delimit Scope js_scope with js.
Notation "'let!' x ':=' c 'in' k" := (Js.bind c (λ x, k))
  (at level 10, x name, c at level 100, k at level 200) : js_scope.
Notation "'do!' c 'in' k" := (Js.bind c (λ _, k))
  (at level 10, c at level 100, k at level 200) : js_scope.

(** ** The [fs/promises] interface *)

Module Date.
(** A [Date], known by what [toISOString()] prints for it. *)
Record t := { toISOString : string }.
End Date.

Module Stats.
(** The part of [fs.Stats] the server reads. *)
Record t := {
  isDirectory : bool;
  size : Z;
  mode : Z;
  birthtime : Date.t;
  mtime : Date.t;
  atime : Date.t
}.
End Stats.

Module Dirent.
(** An entry of [fs.readdir(p, { withFileTypes: true })]. *)
Record t := { name : string; isDirectory : bool }.
End Dirent.

Module Fs.

(** A rejected [fs] call: [error.code] and [error.message]. *)
Record failure := { code : string; message : string }.

Definition result (A : Type) : Type := failure + A.

(** The calls of [fs/promises] that [index.ts] makes, over a world [W].
    Every call may change the world (another process may as well, between
    two calls, which an instance is free to model). *)
Class Api (W : Type) := {
  (* fs.readdir(p, { withFileTypes: true }) *)
  readdir : string → W → W * result (list Dirent.t);
  (* fs.stat(p) *)
  stat : string → W → W * result Stats.t;
  (* fs.access(p) *)
  access : string → W → W * result unit;
  (* fs.readFile(p, "utf-8") *)
  readFile : string → W → W * result string;
  (* fs.writeFile(p, content, "utf-8") *)
  writeFile : string → string → W → W * result unit;
  (* fs.mkdir(p, { recursive: true }) *)
  mkdir : string → W → W * result unit;
  (* fs.rm(p, { recursive: true, force: false }) *)
  rm : string → W → W * result unit;
  (* fs.unlink(p) *)
  unlink : string → W → W * result unit
}.

(** [await fs.f(...)]: a failure is thrown as an error with a [code]. *)
Definition await {W A} (call : W → W * result A) : Js.M W A :=
  λ w, match call w with
       | (w', inr a) => (w', Js.Return a)
       | (w', inl f) => (w', Js.Throw (Js.ErrnoException (code f) (message f)))
       end.

End Fs.

(** ** The server *)

Module Process.
(** What the server reads of its process: the variable
    [MCP_FILE_BASE_PATH] of the environment and [process.cwd()]. *)
Record t := { env_MCP_FILE_BASE_PATH : option string; cwd : string }.
End Process.

Module Response.
Record item := { type : string; text : string }.
(** The value a tool call resolves to: [{ content: [...] }]. *)
Record t := { content : list item }.

Definition ofText (s : string) : t :=
  {| content := [ {| type := "text"; text := s |} ] |}.
End Response.

(** The six private methods the dispatcher calls on [this]. *)
Module Handlers.
Record t (W : Type) := {
  listDirectory : string → Js.M W Response.t;
  readFile : string → Js.M W Response.t;
  writeFile : string → string → Js.M W Response.t;
  createDirectory : string → Js.M W Response.t;
  deleteItem : string → Js.M W Response.t;
  getFileInfo : string → Js.M W Response.t
}.
Global Arguments listDirectory {W} _ _ _.
Global Arguments readFile {W} _ _ _.
Global Arguments writeFile {W} _ _ _ _.
Global Arguments createDirectory {W} _ _ _.
Global Arguments deleteItem {W} _ _ _.
Global Arguments getFileInfo {W} _ _ _.
End Handlers.

Module Server.

Local Open Scope js_scope.

(** [process.env.MCP_FILE_BASE_PATH || process.cwd()]: an unset or empty
    variable gives the working directory. *)
Definition ALLOWED_BASE_PATH (proc : Process.t) : string :=
  match Process.env_MCP_FILE_BASE_PATH proc with
  | Some s => if Str.isEmpty s then Process.cwd proc else s
  | None => Process.cwd proc
  end.

Definition accessDenied (inputPath : string) : Js.error :=
  Js.Error ("Access denied: Path '" +:+ inputPath
            +:+ "' resolves outside the allowed directory.").

(** [validatePath].  The first [if] has an empty body in the source: both
    of its branches go on with the same code. *)
Definition validatePath (proc : Process.t) (inputPath : string)
    : Js.outcome string :=
  let rest (_ : unit) :=
    let resolvedPath :=
      Path.resolve (Process.cwd proc) [ALLOWED_BASE_PATH proc; inputPath] in
    let normalizedAllowedBasePath :=
      Path.normalize (ALLOWED_BASE_PATH proc +:+ Path.sep) in
    let normalizedResolvedPath := Path.normalize resolvedPath in
    if negb (Str.startsWith normalizedResolvedPath normalizedAllowedBasePath)
       && negb (bool_decide
                  (normalizedResolvedPath = Path.normalize (ALLOWED_BASE_PATH proc)))
    then Js.Throw (accessDenied inputPath)
    else Js.Return resolvedPath in
  if Str.includes inputPath ".." then rest tt else rest tt.

Section handlers.
Context {W : Type} `{!Fs.Api W} (proc : Process.t).

Definition direntType (isDir : bool) : string :=
  if isDir then "directory" else "file".

(** The callback of [items.map] in [listDirectory]: a failing [stat]
    is caught there and gives an entry with an [error] field. *)
Definition listEntry (safePath : string) (item : Dirent.t) : Js.M W Js.json :=
  let itemFullPath := Path.join [safePath; Dirent.name item] in
  Js.tryCatch
    (let! stats := Fs.await (Fs.stat itemFullPath) in
     Js.ret (Js.JObj
       [("name", Js.JStr (Dirent.name item));
        ("type", Js.JStr (direntType (Dirent.isDirectory item)));
        ("size", Js.JNum (Stats.size stats));
        ("modified", Js.JStr (Date.toISOString (Stats.mtime stats)))]))
    (λ statError,
     Js.ret (Js.JObj
       [("name", Js.JStr (Dirent.name item));
        ("type", Js.JStr (direntType (Dirent.isDirectory item)));
        ("error", Js.JStr "Could not retrieve stats for this item.")])).

Definition listDirectory (dirPath : string) : Js.M W Response.t :=
  let! safePath := Js.lift (validatePath proc dirPath) in
  let! items := Fs.await (Fs.readdir safePath) in
  let! contents := Js.mapM (listEntry safePath) items in
  Js.ret (Response.ofText
    (Js.JSON_stringify
       (Js.JObj [("path", Js.JStr dirPath); ("contents", Js.JArr contents)]))).

Definition readFile (filePath : string) : Js.M W Response.t :=
  let! safePath := Js.lift (validatePath proc filePath) in
  let! stats := Fs.await (Fs.stat safePath) in
  if Stats.isDirectory stats then
    Js.throw (Js.Error ("Path '" +:+ filePath +:+ "' is a directory, not a file."))
  else
    let! content := Fs.await (Fs.readFile safePath) in
    Js.ret (Response.ofText content).

Definition writeFile (filePath content : string) : Js.M W Response.t :=
  let! safePath := Js.lift (validatePath proc filePath) in
  let parentDir := Path.dirname safePath in
  do! Js.tryCatch (Fs.await (Fs.access parentDir))
        (λ error, Js.throw (Js.Error
           ("Parent directory for '" +:+ filePath
            +:+ "' does not exist or is not accessible."))) in
  do! Js.tryCatch
        (let! stats := Fs.await (Fs.stat safePath) in
         if Stats.isDirectory stats then
           Js.throw (Js.Error
             ("Path '" +:+ filePath
              +:+ "' is an existing directory. Cannot overwrite a directory with a file."))
         else Js.ret tt)
        (λ error,
         if bool_decide (Js.code error ≠ Some "ENOENT")
         then Js.throw error else Js.ret tt) in
  do! Fs.await (Fs.writeFile safePath content) in
  Js.ret (Response.ofText ("File written successfully: " +:+ filePath)).

Definition createDirectory (dirPath : string) : Js.M W Response.t :=
  let! safePath := Js.lift (validatePath proc dirPath) in
  do! Fs.await (Fs.mkdir safePath) in
  Js.ret (Response.ofText ("Directory created: " +:+ dirPath)).

Definition deleteItem (itemPath : string) : Js.M W Response.t :=
  let! safePath := Js.lift (validatePath proc itemPath) in
  let! stats := Fs.await (Fs.stat safePath) in
  do! (if Stats.isDirectory stats then Fs.await (Fs.rm safePath)
       else Fs.await (Fs.unlink safePath)) in
  Js.ret (Response.ofText ("Deleted: " +:+ itemPath)).

Definition getFileInfo (itemPath : string) : Js.M W Response.t :=
  let! safePath := Js.lift (validatePath proc itemPath) in
  let! stats := Fs.await (Fs.stat safePath) in
  let info := Js.JObj
    [("path", Js.JStr itemPath);
     ("type", Js.JStr (direntType (Stats.isDirectory stats)));
     ("size", Js.JNum (Stats.size stats));
     ("created", Js.JStr (Date.toISOString (Stats.birthtime stats)));
     ("modified", Js.JStr (Date.toISOString (Stats.mtime stats)));
     ("accessed", Js.JStr (Date.toISOString (Stats.atime stats)));
     ("permissions", Js.JStr (Js.toOctalString (Z.land (Stats.mode stats) 511)))] in
  Js.ret (Response.ofText (Js.JSON_stringify info)).

(** The methods of the class, as the dispatcher finds them on [this]. *)
Definition methods : Handlers.t W :=
  {| Handlers.listDirectory := listDirectory;
     Handlers.readFile := readFile;
     Handlers.writeFile := writeFile;
     Handlers.createDirectory := createDirectory;
     Handlers.deleteItem := deleteItem;
     Handlers.getFileInfo := getFileInfo |}.

End handlers.

Section dispatcher.
Context {W : Type} (this : Handlers.t W).

(** [args && typeof args.path === 'string'] *)
Definition stringArg (args : option (gmap string Js.value)) (key : string)
    : option string :=
  match args with
  | Some bag => Js.asString (bag !! key)
  | None => None
  end.

(** [String(name || 'unknown tool')] *)
Definition shownName (name : string) : string :=
  if Str.isEmpty name then "unknown tool" else name.

Definition missingPath (tool : string) : Js.error :=
  Js.Error ("Missing or invalid 'path' argument for " +:+ tool).

(** The [switch] inside the [try] block. *)
Definition callToolBody (name : string)
    (args : option (gmap string Js.value)) : Js.M W Response.t :=
  if Str.isEmpty name then
    Js.throw (Js.Error "Tool name is missing or invalid.")
  else if decide (name = "list_directory") then
    match stringArg args "path" with
    | Some path => Handlers.listDirectory this path
    | None => Js.throw (missingPath "list_directory")
    end
  else if decide (name = "read_file") then
    match stringArg args "path" with
    | Some path => Handlers.readFile this path
    | None => Js.throw (missingPath "read_file")
    end
  else if decide (name = "write_file") then
    match stringArg args "path", stringArg args "content" with
    | Some path, Some content => Handlers.writeFile this path content
    | _, _ =>
        Js.throw (Js.Error
          "Missing or invalid 'path' or 'content' argument for write_file")
    end
  else if decide (name = "create_directory") then
    match stringArg args "path" with
    | Some path => Handlers.createDirectory this path
    | None => Js.throw (missingPath "create_directory")
    end
  else if decide (name = "delete_item") then
    match stringArg args "path" with
    | Some path => Handlers.deleteItem this path
    | None => Js.throw (missingPath "delete_item")
    end
  else if decide (name = "get_file_info") then
    match stringArg args "path" with
    | Some path => Handlers.getFileInfo this path
    | None => Js.throw (missingPath "get_file_info")
    end
  else Js.throw (Js.Error ("Unknown tool: " +:+ name)).

(** The text of the response built in the [catch] block. *)
Definition errorText (name : string) (error : Js.error) : string :=
  "Error processing tool '" +:+ shownName name +:+ "': " +:+ Js.message error.

(** The handler registered for [CallToolRequestSchema].  The request
    schema makes [name] a string before the handler runs. *)
Definition callTool (name : string)
    (args : option (gmap string Js.value)) : Js.M W Response.t :=
  Js.tryCatch (callToolBody name args)
    (λ error, Js.ret (Response.ofText (errorText name error))).

End dispatcher.

End Server.

(** ** The tools the server advertises *)

Module SchemaProperty.
Record t := { type : string; description : string }.
End SchemaProperty.

Module InputSchema.
Record t := {
  type : string;
  properties : list (string * SchemaProperty.t);
  required : list string
}.
End InputSchema.

Module Tool.
Record t := { name : string; description : string; inputSchema : InputSchema.t }.
End Tool.

(** The answer of the handler registered for [ListToolsRequestSchema]: it
    takes no argument and its [tools] are always these. *)
Definition listTools : list Tool.t :=
  [ {| Tool.name := "list_directory";
       Tool.description := "List contents of a directory";
       Tool.inputSchema :=
         {| InputSchema.type := "object";
            InputSchema.properties :=
              [("path",
                {| SchemaProperty.type := "string";
                   SchemaProperty.description :=
                     "Directory path to list (relative to allowed base path)" |})];
            InputSchema.required := ["path"] |} |};
    {| Tool.name := "read_file";
       Tool.description := "Read contents of a file";
       Tool.inputSchema :=
         {| InputSchema.type := "object";
            InputSchema.properties :=
              [("path",
                {| SchemaProperty.type := "string";
                   SchemaProperty.description :=
                     "File path to read (relative to allowed base path)" |})];
            InputSchema.required := ["path"] |} |};
    {| Tool.name := "write_file";
       Tool.description := "Write content to a file";
       Tool.inputSchema :=
         {| InputSchema.type := "object";
            InputSchema.properties :=
              [("path",
                {| SchemaProperty.type := "string";
                   SchemaProperty.description :=
                     "File path to write to (relative to allowed base path)" |});
               ("content",
                {| SchemaProperty.type := "string";
                   SchemaProperty.description := "Content to write" |})];
            InputSchema.required := ["path"; "content"] |} |};
    {| Tool.name := "create_directory";
       Tool.description := "Create a new directory";
       Tool.inputSchema :=
         {| InputSchema.type := "object";
            InputSchema.properties :=
              [("path",
                {| SchemaProperty.type := "string";
                   SchemaProperty.description :=
                     "Directory path to create (relative to allowed base path)" |})];
            InputSchema.required := ["path"] |} |};
    {| Tool.name := "delete_item";
       Tool.description := "Delete a file or directory";
       Tool.inputSchema :=
         {| InputSchema.type := "object";
            InputSchema.properties :=
              [("path",
                {| SchemaProperty.type := "string";
                   SchemaProperty.description :=
                     "Path to delete (file or directory, relative to allowed base path)" |})];
            InputSchema.required := ["path"] |} |};
    {| Tool.name := "get_file_info";
       Tool.description := "Get information about a file or directory";
       Tool.inputSchema :=
         {| InputSchema.type := "object";
            InputSchema.properties :=
              [("path",
                {| SchemaProperty.type := "string";
                   SchemaProperty.description :=
                     "Path to get info for (relative to allowed base path)" |})];
            InputSchema.required := ["path"] |} |} ].

(** ** [parseInt]

    The global function [getFileInfo] builds its permission mask with, for a
    radix from 2 to 36; [None] stands for [NaN]. *)

Module Global.







End Global.

(** ** The UTF-8 coding of [fs]

    [fs.writeFile(p, content, "utf-8")] stores the UTF-8 bytes of the string
    and [fs.readFile(p, "utf-8")] decodes the bytes of the file.  A string of
    the server is held here as the bytes of its code points in the UTF-8
    scheme, an unpaired surrogate as the three bytes the scheme gives its
    code point ([ED A0..BF 80..BF]); a string without unpaired surrogate is
    its UTF-8 encoding itself. *)

Module Utf8.

Definition byte (c : ascii) : N := Ascii.N_of_ascii c.

Definition between (lo hi : N) (c : ascii) : bool :=
  (lo <=? byte c)%N && (byte c <=? hi)%N.

(** U+FFFD, the replacement character: [EF BF BD]. *)
Definition replacement : string :=
  String (Ascii.ascii_of_N 239) (String (Ascii.ascii_of_N 191)
    (String (Ascii.ascii_of_N 189) EmptyString)).

(** The three bytes of a surrogate code point. *)
Definition surrogate (a b c : ascii) : bool :=
  (byte a =? 237)%N && between 160 191 b && between 128 191 c.

(** Encoding a string: an unpaired surrogate becomes U+FFFD, every other
    code point is written with its bytes. *)
Fixpoint encode (s : string) : string :=
  match s with
  | EmptyString => EmptyString
  | String a t =>
      match t with
      | String b (String c r) =>
          if surrogate a b c then replacement +:+ encode r else String a (encode t)
      | _ => String a (encode t)
      end
  end.

(** The decoder, byte by byte: how many bytes the sequence under way still
    needs, the range allowed for the next one, and the bytes read so far. *)
Record state := {
  needed : nat;
  lower : N;
  upper : N;
  pending : string
}.

Definition initial : state :=
  {| needed := 0; lower := 128; upper := 191; pending := EmptyString |}.

(** A byte read when no sequence is under way. *)
Definition lead (c : ascii) : string * state :=
  let one := String c EmptyString in
  if (byte c <=? 127)%N then (one, initial)
  else if between 194 223 c then
    (EmptyString, {| needed := 1; lower := 128; upper := 191; pending := one |})
  else if between 224 239 c then
    (EmptyString,
     {| needed := 2;
        lower := if (byte c =? 224)%N then 160%N else 128%N;
        upper := if (byte c =? 237)%N then 159%N else 191%N;
        pending := one |})
  else if between 240 244 c then
    (EmptyString,
     {| needed := 3;
        lower := if (byte c =? 240)%N then 144%N else 128%N;
        upper := if (byte c =? 244)%N then 143%N else 191%N;
        pending := one |})
  else (replacement, initial).

(** A byte read: it continues the sequence under way, or the sequence is
    given up for U+FFFD and the byte is read again as a first byte. *)
Definition step (st : state) (c : ascii) : string * state :=
  match needed st with
  | O => lead c
  | S n =>
      if between (lower st) (upper st) c then
        match n with
        | O => (pending st +:+ String c EmptyString, initial)
        | S _ =>
            (EmptyString,
             {| needed := n; lower := 128; upper := 191;
                pending := pending st +:+ String c EmptyString |})
        end
      else let (out, st') := lead c in (replacement +:+ out, st')
  end.

Fixpoint run (st : state) (s : string) : string :=
  match s with
  | EmptyString => match needed st with O => EmptyString | S _ => replacement end
  | String c r => let (out, st') := step st c in out +:+ run st' r
  end.

(** Decoding the bytes of a file: what is not well-formed comes out as
    U+FFFD. *)
Definition decode (s : string) : string := run initial s.


End Utf8.

(** ** An in-memory file system

    An instance of [Fs.Api] in which the handlers can be run: a finite map
    from absolute, normalized paths to nodes, with the errors of a POSIX file
    system, and a record of every call made to it.  A file holds bytes.  The
    nodes are directories, regular files and dead links; symbolic links that
    can be followed are not part of it. *)

Module MemFs.

Record meta := { mode : Z; birthtime : Date.t; mtime : Date.t; atime : Date.t }.

Inductive node :=
| File (content : string) (m : meta)   (* the bytes of the file *)
| Directory (m : meta)
| DanglingLink.   (* a symbolic link into a directory that is not there:
                     nothing is found through it and nothing can be
                     created through it *)

Inductive access :=
| Readdir (p : string)
| Stat (p : string)
| Access (p : string)
| ReadFile (p : string)
| WriteFile (p content : string)
| Mkdir (p : string)
| Rm (p : string)
| Unlink (p : string).

Record t := {
  nodes : gmap string node;
  trace : list access;     (* the calls made so far, oldest first *)
  fresh : meta             (* the metadata a node created now receives *)
}.

Definition logged (a : access) (w : t) : t :=
  {| nodes := nodes w; trace := trace w ++ [a]; fresh := fresh w |}.

Definition withNodes (f : gmap string node → gmap string node) (w : t) : t :=
  {| nodes := f (nodes w); trace := trace w; fresh := fresh w |}.

Definition fail {A} (code description syscall p : string) : Fs.result A :=
  inl {| Fs.code := code;
         Fs.message := code +:+ ": " +:+ description +:+ ", " +:+ syscall
                       +:+ " '" +:+ p +:+ "'" |}.

Definition enoent {A} := @fail A "ENOENT" "no such file or directory".
Definition eisdir {A} := @fail A "EISDIR" "illegal operation on a directory".
Definition enotdir {A} := @fail A "ENOTDIR" "not a directory".
Definition eexist {A} := @fail A "EEXIST" "file already exists".

Definition statsOf (n : node) : option Stats.t :=
  match n with
  | File c m =>
      Some {| Stats.isDirectory := false; Stats.size := Z.of_nat (String.length c);
              Stats.mode := Z.lor 32768 (mode m); Stats.birthtime := birthtime m;
              Stats.mtime := mtime m; Stats.atime := atime m |}
  | Directory m =>
      Some {| Stats.isDirectory := true; Stats.size := 4096;
              Stats.mode := Z.lor 16384 (mode m); Stats.birthtime := birthtime m;
              Stats.mtime := mtime m; Stats.atime := atime m |}
  | DanglingLink => None
  end.

Definition isDirectoryNode (n : option node) : bool :=
  match n with Some (Directory _) => true | _ => false end.

Definition basename (p : string) : string :=
  default EmptyString (last (Segments.components p)).

(** The node nearest above [p]: that of the first of its ancestors, from
    its parent up, at which there is one. *)
Fixpoint nearestAbove (fuel : nat) (m : gmap string node) (p : string) : option node :=
  match fuel with
  | O => None
  | S fuel' =>
      let parent := Path.dirname p in
      match m !! parent with
      | Some n => Some n
      | None =>
          if bool_decide (parent = p) then None else nearestAbove fuel' m parent
      end
  end.

(** The failure for a path at which there is no node: [ENOTDIR] when the
    way to it goes through a regular file, [ENOENT] otherwise. *)
Definition notFound {A} (m : gmap string node) (syscall p : string) : Fs.result A :=
  match nearestAbove (String.length p) m p with
  | Some (File _ _) => enotdir syscall p
  | _ => enoent syscall p
  end.

(** The entries of the directory [p]: the nodes whose parent path it is. *)
Definition children (p : string) (m : gmap string node) : list Dirent.t :=
  omap (λ kv : string * node,
          if bool_decide (Path.dirname kv.1 = p ∧ kv.1 ≠ p)
          then Some {| Dirent.name := basename kv.1;
                       Dirent.isDirectory := isDirectoryNode (Some kv.2) |}
          else None)
       (map_to_list m).

Definition readdir (p : string) (w : t) : t * Fs.result (list Dirent.t) :=
  (logged (Readdir p) w,
   match nodes w !! p with
   | Some (Directory _) => inr (children p (nodes w))
   | Some (File _ _) => enotdir "scandir" p
   | Some DanglingLink => enoent "scandir" p
   | None => notFound (nodes w) "scandir" p
   end).

Definition stat (p : string) (w : t) : t * Fs.result Stats.t :=
  (logged (Stat p) w,
   match nodes w !! p with
   | Some n =>
       match statsOf n with
       | Some st => inr st
       | None => enoent "stat" p
       end
   | None => notFound (nodes w) "stat" p
   end).

Definition access_ (p : string) (w : t) : t * Fs.result unit :=
  (logged (Access p) w,
   match nodes w !! p with
   | Some n =>
       match statsOf n with
       | Some _ => inr tt
       | None => enoent "access" p
       end
   | None => notFound (nodes w) "access" p
   end).

(** [fs.readFile(p, "utf-8")]: the bytes of the file, decoded. *)
Definition readFile (p : string) (w : t) : t * Fs.result string :=
  (logged (ReadFile p) w,
   match nodes w !! p with
   | Some (File bytes _) => inr (Utf8.decode bytes)
   | Some (Directory _) => eisdir "read" p
   | Some DanglingLink => enoent "open" p
   | None => notFound (nodes w) "open" p
   end).

(** [fs.writeFile(p, content, "utf-8")]: the file is created or cut to
    nothing and receives the UTF-8 bytes of the content. *)
Definition writeFile (p content : string) (w : t) : t * Fs.result unit :=
  let w' := logged (WriteFile p content) w in
  match nodes w !! p with
  | Some (Directory _) => (w', eisdir "open" p)
  | Some (File _ m) => (withNodes <[p := File (Utf8.encode content) m]> w', inr tt)
  | Some DanglingLink => (w', enoent "open" p)
  | None =>
      match nodes w !! Path.dirname p with
      | Some (Directory _) =>
          (withNodes <[p := File (Utf8.encode content) (fresh w)]> w', inr tt)
      | _ => (w', notFound (nodes w) "open" p)
      end
  end.

(** The paths from the root down to [p]: ["/a"; "/a/b"; ...]. *)
Fixpoint ancestry (above : string) (segs : list string) : list string :=
  match segs with
  | [] => []
  | s :: r => let here := above +:+ "/" +:+ s in here :: ancestry here r
  end.

(** [mkdir -p]: create what is missing on the way.  A regular file on the
    way stops it with [ENOTDIR], at the end of the way with [EEXIST]; a dead
    link stops it with [ENOENT]. *)
Fixpoint mkdirAll (fresh_ : meta) (dirs : list string) (m : gmap string node)
    : string + gmap string node :=
  match dirs with
  | [] => inr m
  | d :: r =>
      match m !! d with
      | Some (Directory _) => mkdirAll fresh_ r m
      | Some (File _ _) => inl (if r is [] then "EEXIST" else "ENOTDIR")
      | Some DanglingLink => inl "ENOENT"
      | None => mkdirAll fresh_ r (<[d := Directory fresh_]> m)
      end
  end.

(** [fs.mkdir(p, { recursive: true })] *)
Definition mkdir (p : string) (w : t) : t * Fs.result unit :=
  let w' := logged (Mkdir p) w in
  match mkdirAll (fresh w) (ancestry EmptyString (Segments.components p)) (nodes w) with
  | inr m => (withNodes (λ _, m) w', inr tt)
  | inl errno =>
      (w',
       if decide (errno = "ENOTDIR") then enotdir "mkdir" p
       else if decide (errno = "ENOENT") then enoent "mkdir" p
       else eexist "mkdir" p)
  end.

(** The paths below the directory [p]: those that go on after [p] and a
    separator ([/] ends with its own). *)
Definition under (p k : string) : bool :=
  Str.startsWith k (if Str.lastIs Path.CHAR_FORWARD_SLASH p then p else p +:+ "/").

(** [fs.rm(p, { recursive: true, force: false })] *)
Definition rm (p : string) (w : t) : t * Fs.result unit :=
  let w' := logged (Rm p) w in
  match nodes w !! p with
  | Some _ =>
      (withNodes (filter (λ kv : string * node,
          kv.1 ≠ p ∧ under p kv.1 = false)) w', inr tt)
  | None => (w', notFound (nodes w) "rm" p)
  end.

Definition unlink (p : string) (w : t) : t * Fs.result unit :=
  let w' := logged (Unlink p) w in
  match nodes w !! p with
  | Some (Directory _) => (w', eisdir "unlink" p)
  | Some _ => (withNodes (delete p) w', inr tt)
  | None => (w', notFound (nodes w) "unlink" p)
  end.

#[global] Instance api : Fs.Api t := {|
  Fs.readdir := readdir;
  Fs.stat := stat;
  Fs.access := access_;
  Fs.readFile := readFile;
  Fs.writeFile := writeFile;
  Fs.mkdir := mkdir;
  Fs.rm := rm;
  Fs.unlink := unlink
|}.

Definition epoch : Date.t := {| Date.toISOString := "1970-01-01T00:00:00.000Z" |}.
Definition plain (mode_ : Z) : meta :=
  {| mode := mode_; birthtime := epoch; mtime := epoch; atime := epoch |}.

Definition ofNodes (l : list (string * node)) : t :=
  {| nodes := list_to_map l; trace := []; fresh := plain 420 |}.

(** The root of the scenarios of the specification, empty. *)
Definition emptySandbox : t := ofNodes [("/", Directory (plain 493)); ("/sandbox", Directory (plain 493))].

End MemFs.

(** ** A file system that refuses every look

    An instance of [Fs.Api] in which [access] succeeds and every other call
    fails with [EACCES], as for a directory that can be traversed but not
    searched; its world is the record of the calls. *)

Module DeniedFs.

Definition t : Type := list MemFs.access.

Definition eacces {A} (syscall p : string) : Fs.result A :=
  MemFs.fail "EACCES" "permission denied" syscall p.

#[global] Instance api : Fs.Api t := {|
  Fs.readdir := λ p w, (w ++ [MemFs.Readdir p], eacces "scandir" p);
  Fs.stat := λ p w, (w ++ [MemFs.Stat p], eacces "stat" p);
  Fs.access := λ p w, (w ++ [MemFs.Access p], inr tt);
  Fs.readFile := λ p w, (w ++ [MemFs.ReadFile p], eacces "open" p);
  Fs.writeFile := λ p content w, (w ++ [MemFs.WriteFile p content], eacces "open" p);
  Fs.mkdir := λ p w, (w ++ [MemFs.Mkdir p], eacces "mkdir" p);
  Fs.rm := λ p w, (w ++ [MemFs.Rm p], eacces "rm" p);
  Fs.unlink := λ p w, (w ++ [MemFs.Unlink p], eacces "unlink" p)
|}.

End DeniedFs.

(** ** Processes and worlds to run the server in *)

(** The root of the scenarios of the specification, [/sandbox]. *)
Definition sandbox : Process.t :=
  {| Process.env_MCP_FILE_BASE_PATH := Some "/sandbox"; Process.cwd := "/home/user" |}.

(** The same root, configured with a trailing separator. *)
Definition sandboxSlash : Process.t :=
  {| Process.env_MCP_FILE_BASE_PATH := Some "/sandbox/"; Process.cwd := "/home/user" |}.

(** A sandbox with a file, a directory and a link whose target is gone. *)
Definition listingWorld : MemFs.t :=
  MemFs.ofNodes
    [("/", MemFs.Directory (MemFs.plain 493));
     ("/sandbox", MemFs.Directory (MemFs.plain 493));
     ("/sandbox/a.txt", MemFs.File "hello" (MemFs.plain 420));
     ("/sandbox/docs", MemFs.Directory (MemFs.plain 493));
     ("/sandbox/gone", MemFs.DanglingLink)].



(** A server confined to the whole file system. *)
Definition wholeFileSystem : Process.t :=
  {| Process.env_MCP_FILE_BASE_PATH := Some "/"; Process.cwd := "/home/user" |}.

(** A process started without [MCP_FILE_BASE_PATH]. *)
Definition unconfigured : Process.t :=
  {| Process.env_MCP_FILE_BASE_PATH := None; Process.cwd := "/home/user" |}.

(** A sandbox with a directory that holds a file and a directory, and a
    file beside it whose name begins like the directory's. *)
Definition docsWorld : MemFs.t :=
  MemFs.ofNodes
    [("/", MemFs.Directory (MemFs.plain 493));
     ("/sandbox", MemFs.Directory (MemFs.plain 493));
     ("/sandbox/docs", MemFs.Directory (MemFs.plain 493));
     ("/sandbox/docs/a.txt", MemFs.File "a" (MemFs.plain 420));
     ("/sandbox/docs/old", MemFs.Directory (MemFs.plain 493));
     ("/sandbox/docs.txt", MemFs.File "kept" (MemFs.plain 420))].

(** A tool call on the in-memory file system. *)
Definition call (proc : Process.t) (name : string) (args : list (string * Js.value))
    (w : MemFs.t) : MemFs.t * Js.outcome Response.t :=
  Server.callTool (Server.methods proc) name (Some (list_to_map args)) w.

(** * The vocabulary of the properties *)

(** ** Containment *)

(** A segment without separator, and a segment that names a directory entry:
    not empty, not [.] or [..], without separator. *)
Definition slashFree (s : string) : Prop := Str.mem Path.CHAR_FORWARD_SLASH s = false.

Definition properSegment (s : string) : Prop :=
  s ≠ EmptyString ∧ s ≠ "." ∧ s ≠ ".." ∧ slashFree s.

(** What [normalizeString] keeps when [..] may stay: segments that are
    not empty and hold no separator. *)
Definition plainSegment (s : string) : Prop := s ≠ EmptyString ∧ slashFree s.

(** The normalized segments of an absolute root. *)
Definition rootSegments (root : string) : list string :=
  Segments.normalizeSegments false (Segments.split root).

(** The directory the server is confined to: where [ALLOWED_BASE_PATH]
    points once resolved, as an absolute normalized path. *)
Definition rootDirectory (proc : Process.t) : string :=
  Path.resolve (Process.cwd proc) [Server.ALLOWED_BASE_PATH proc].

(** [p] is the directory [dir] or lies strictly below it: [p] is a
    normalized absolute path (it is rebuilt from its components, none of
    which is empty, [.] or [..]) and it is [dir] or its components continue
    those of [dir]. *)
Definition within (dir p : string) : Prop :=
  Forall properSegment (Segments.components p)
  ∧ p = "/" +:+ Segments.joinSegments (Segments.components p)
  ∧ (p = dir
     ∨ ∃ below, below ≠ [] ∧ Segments.components p = Segments.components dir ++ below).

(** What [validatePath] returns or throws. *)
Definition accepts (o : Js.outcome string) : bool :=
  match o with Js.Return _ => true | Js.Throw _ => false end.

(** Modelled on the specification (section 4.1), to be compared with
    [Server.validatePath]: normalize the resolution of the request path and
    normalize the root; accept when the normalized result equals the
    normalized root, or begins with the normalized root followed by a
    separator.  Whether the raw input holds [..] plays no part. *)
Definition referenceAccepts (proc : Process.t) (requestPath : string) : bool :=
  let root := Server.ALLOWED_BASE_PATH proc in
  let normalizedResult :=
    Path.normalize (Path.resolve (Process.cwd proc) [root; requestPath]) in
  let normalizedRoot := Path.normalize root in
  bool_decide (normalizedResult = normalizedRoot)
  || Str.startsWith normalizedResult (normalizedRoot +:+ Path.sep).

(** ** The loop of [normalizeString], seen from outside *)

(** The value of [dots] after the characters of [s], from the value [d]. *)
Fixpoint dotsFrom (d : Z) (s : string) : Z :=
  match s with
  | EmptyString => d
  | String c s' =>
      dotsFrom (if Ascii.eqb c Path.CHAR_DOT && negb (d =? -1)%Z then (d + 1)%Z else (-1)%Z) s'
  end.

(** [res], for the segments kept so far, the last one first. *)
Definition resOf (stack : list string) : string := Segments.joinSegments (rev stack).

(** What the variables of the loop hold at index [i], when the segments
    kept so far are [stack] and the segment under way is [cur]. *)
Definition loopInvariant (i : Z) (st : Path.normState) (stack : list string) (cur : string)
    : Prop :=
  Path.res st = resOf stack
  ∧ Forall plainSegment stack
  ∧ Path.lastSegmentLength st = Path.strlen (hd EmptyString stack)
  ∧ Path.lastSlash st = (i - Path.strlen cur - 1)%Z
  ∧ Path.dots st = dotsFrom 0 cur
  ∧ slashFree cur.

(** ** Dispatch *)

(** A call of one of the six methods, with its arguments. *)
Inductive invocation :=
| ListDirectory (path : string)
| ReadFile (path : string)
| WriteFile (path content : string)
| CreateDirectory (path : string)
| DeleteItem (path : string)
| GetFileInfo (path : string).

Definition pathOf (i : invocation) : string :=
  match i with
  | ListDirectory p | ReadFile p | WriteFile p _
  | CreateDirectory p | DeleteItem p | GetFileInfo p => p
  end.

(** The method an invocation stands for, run. *)
Definition invoke {W : Type} (this : Handlers.t W) (i : invocation) : Js.M W Response.t :=
  match i with
  | ListDirectory p => Handlers.listDirectory this p
  | ReadFile p => Handlers.readFile this p
  | WriteFile p c => Handlers.writeFile this p c
  | CreateDirectory p => Handlers.createDirectory this p
  | DeleteItem p => Handlers.deleteItem this p
  | GetFileInfo p => Handlers.getFileInfo this p
  end.

(** Any six methods, observed: every call is added to a log kept beside the
    world before the method runs. *)
Definition observed {W : Type} (this : Handlers.t W) : Handlers.t (W * list invocation) :=
  let record {A} (i : invocation) (method : Js.M W A) : Js.M (W * list invocation) A :=
    λ '(w, log), let (w', o) := method w in ((w', log ++ [i]), o) in
  {| Handlers.listDirectory := λ p, record (ListDirectory p) (Handlers.listDirectory this p);
     Handlers.readFile := λ p, record (ReadFile p) (Handlers.readFile this p);
     Handlers.writeFile := λ p c, record (WriteFile p c) (Handlers.writeFile this p c);
     Handlers.createDirectory := λ p, record (CreateDirectory p) (Handlers.createDirectory this p);
     Handlers.deleteItem := λ p, record (DeleteItem p) (Handlers.deleteItem this p);
     Handlers.getFileInfo := λ p, record (GetFileInfo p) (Handlers.getFileInfo this p) |}.

(** The six operations of the server. *)
Definition toolNames : list string :=
  ["list_directory"; "read_file"; "write_file"; "create_directory"; "delete_item";
   "get_file_info"].

(** The operation catalogue of the specification (section 6), for the
    operations that take a path only: each name with the method it stands
    for. *)
Definition catalogue : list (string * (string → invocation)) :=
  [("list_directory", ListDirectory);
   ("read_file", ReadFile);
   ("create_directory", CreateDirectory);
   ("delete_item", DeleteItem);
   ("get_file_info", GetFileInfo)].

(** The call a request is entitled to: [path] is a string and the name is
    in the catalogue, or it is [write_file] and [content] is a string too. *)
Definition entitled (name : string) (args : option (gmap string Js.value))
    : option invocation :=
  match Server.stringArg args "path" with
  | None => None
  | Some path =>
      if decide (name = "write_file")
      then WriteFile path <$> Server.stringArg args "content"
      else (λ method, method path)
             <$> (snd <$> List.find (λ entry, bool_decide (entry.1 = name)) catalogue)
  end.

(** The message with which the dispatcher refuses a request that is
    entitled to no call; it is made from the tool name alone. *)
Definition refusal (name : string) : string :=
  if Str.isEmpty name then "Tool name is missing or invalid."
  else if decide (name = "write_file")
  then "Missing or invalid 'path' or 'content' argument for write_file"
  else if bool_decide (name ∈ toolNames)
  then "Missing or invalid 'path' argument for " +:+ name
  else "Unknown tool: " +:+ name.

(** ** Listings *)

(** An entry of a listing that carries the error marker and neither size
    nor modification time. *)
Definition degraded (entry : Js.json) : Prop :=
  Js.field "error" entry = Some (Js.JStr "Could not retrieve stats for this item.")
  ∧ Js.field "size" entry = None
  ∧ Js.field "modified" entry = None.

(** An entry listed normally, from the answer [stats] of [stat]. *)
Definition listedNormally (stats : Stats.t) (entry : Js.json) : Prop :=
  Js.field "size" entry = Some (Js.JNum (Stats.size stats))
  ∧ Js.field "modified" entry = Some (Js.JStr (Date.toISOString (Stats.mtime stats)))
  ∧ Js.field "error" entry = None.

(** How an entry of the listing relates to its child and to the answer of
    [stat] for that child. *)
Definition entryFor (item : Dirent.t) (answer : Fs.result Stats.t) (entry : Js.json) : Prop :=
  Js.field "name" entry = Some (Js.JStr (Dirent.name item))
  ∧ match answer with
    | inl _ => degraded entry
    | inr stats => listedNormally stats entry
    end.

Section listingTerms.
Context {W : Type} `{!Fs.Api W}.

(** The [stat] calls [listDirectory] makes for the children, one after the
    other, with what each of them answered. *)
Fixpoint statEach (safePath : string) (items : list Dirent.t) (w : W)
    : W * list (Fs.result Stats.t) :=
  match items with
  | [] => (w, [])
  | item :: rest =>
      let (w1, answer) := Fs.stat (Path.join [safePath; Dirent.name item]) w in
      let (w2, answers) := statEach safePath rest w1 in
      (w2, answer :: answers)
  end.

End listingTerms.

(** ** The advertised schemas *)

(** The type keywords of JSON Schema, on the values of an argument bag. *)
Definition hasType (ty : string) (v : Js.value) : bool :=
  match v with
  | Js.VStr _ => bool_decide (ty = "string")
  | Js.VNum _ => bool_decide (ty = "number")
  | Js.VBool _ => bool_decide (ty = "boolean")
  | Js.VNull => bool_decide (ty = "null")
  | Js.VObject => bool_decide (ty = "object")
  | Js.VUndefined => false
  end.

(** An argument bag conforms to an input schema when it is an object, holds
    every required key, and every property it holds has the declared type. *)
Definition conforms (schema : InputSchema.t) (args : option (gmap string Js.value)) : bool :=
  match args with
  | None => false
  | Some bag =>
      forallb (λ key, bool_decide (is_Some (bag !! key))) (InputSchema.required schema)
      && forallb (λ kp : string * SchemaProperty.t,
                    match bag !! kp.1 with
                    | Some v => hasType (SchemaProperty.type kp.2) v
                    | None => true
                    end)
                 (InputSchema.properties schema)
  end.

(** The tool an invocation belongs to. *)
Definition toolName (i : invocation) : string :=
  match i with
  | ListDirectory _ => "list_directory"
  | ReadFile _ => "read_file"
  | WriteFile _ _ => "write_file"
  | CreateDirectory _ => "create_directory"
  | DeleteItem _ => "delete_item"
  | GetFileInfo _ => "get_file_info"
  end.

(** ** Storage calls *)

(** The path a recorded call was made on. *)
Definition accessPath (a : MemFs.access) : string :=
  match a with
  | MemFs.Readdir p | MemFs.Stat p | MemFs.Access p | MemFs.ReadFile p
  | MemFs.WriteFile p _ | MemFs.Mkdir p | MemFs.Rm p | MemFs.Unlink p => p
  end.

(** A recorded call that can change the nodes. *)
Definition mutating (a : MemFs.access) : bool :=
  match a with
  | MemFs.WriteFile _ _ | MemFs.Mkdir _ | MemFs.Rm _ | MemFs.Unlink _ => true
  | _ => false
  end.

(** The calls made from the world [w] to the world [w1] all are [allowed]. *)
Definition callsBetween (allowed : MemFs.access → Prop) (w w1 : MemFs.t) : Prop :=
  ∃ made, MemFs.trace w1 = MemFs.trace w ++ made ∧ Forall allowed made.

(** The paths a handler may make storage calls on, for the validated path
    [safePath]: the path itself; for [writeFile], its parent directory; for
    [listDirectory], the entries that [readdir] gave, joined to it. *)
Definition reachable (i : invocation) (safePath : string) (w : MemFs.t) (p : string) : Prop :=
  p = safePath
  ∨ (toolName i = "write_file" ∧ p = Path.dirname safePath)
  ∨ (toolName i = "list_directory"
     ∧ ∃ item, item ∈ MemFs.children safePath (MemFs.nodes w)
               ∧ p = Path.join [safePath; Dirent.name item]).


(** Nothing is at [p] and the way to it goes through a regular file. *)
Definition throughFile (m : gmap string MemFs.node) (p : string) : bool :=
  match m !! p, MemFs.nearestAbove (String.length p) m p with
  | None, Some (MemFs.File _ _) => true
  | _, _ => false
  end.

(** [s] repeated [n] times. *)
Fixpoint repeated (n : nat) (s : string) : string :=
  match n with
  | O => EmptyString
  | S n' => s +:+ repeated n' s
  end.

(** ** Proof helpers *)

Ltac methods_unfold :=
  unfold Server.methods;
  cbn [Handlers.listDirectory Handlers.readFile Handlers.writeFile
       Handlers.createDirectory Handlers.deleteItem Handlers.getFileInfo].

(** * The model at work *)

Example resolve_docs_1 : Path.resolve "/home" ["/foo/bar"; "./baz"] = "/foo/bar/baz".
Proof. reflexivity. Qed.
Example resolve_docs_2 : Path.resolve "/home" ["/foo/bar"; "/tmp/file/"] = "/tmp/file".
Proof. reflexivity. Qed.
Example resolve_docs_3 :
  Path.resolve "/home/myself/node" ["wwwroot"; "static_files/png/"; "../gif/image.gif"]
  = "/home/myself/node/wwwroot/static_files/gif/image.gif".
Proof. reflexivity. Qed.
Example normalize_docs_1 : Path.normalize "/foo/bar//baz/asdf/quux/.." = "/foo/bar/baz/asdf".
Proof. reflexivity. Qed.
Example normalize_trailing : Path.normalize "/sandbox//" = "/sandbox/".
Proof. reflexivity. Qed.
Example normalize_above : Path.normalize "../../a/../../b/" = "../../../b/".
Proof. reflexivity. Qed.
Example join_docs_1 : Path.join ["/foo"; "bar"; "baz/asdf"; "quux"; ".."] = "/foo/bar/baz/asdf".
Proof. reflexivity. Qed.
Example dirname_docs_1 : Path.dirname "/foo/bar/baz/asdf/quux" = "/foo/bar/baz/asdf".
Proof. reflexivity. Qed.
Example dirname_top : Path.dirname "/sandbox" = "/" ∧ Path.dirname "/" = "/" ∧ Path.dirname "a" = "."
  ∧ Path.dirname "/a/b/" = "/a" ∧ Path.dirname "//a" = "//".
Proof. repeat split; reflexivity. Qed.

Example normalize_edges :
  Path.normalize EmptyString = "." ∧ Path.normalize "./" = "./" ∧ Path.normalize "a/.." = "."
  ∧ Path.normalize "/.." = "/" ∧ Path.normalize "//a//" = "/a/" ∧ Path.normalize "a/./b" = "a/b"
  ∧ Path.normalize "/a/b/../../../c" = "/c" ∧ Path.normalize "..a/.b/c.." = "..a/.b/c..".
Proof. repeat split; reflexivity. Qed.

Example resolve_edges :
  Path.resolve "/home/user" [] = "/home/user"
  ∧ Path.resolve "/home/user" [EmptyString] = "/home/user"
  ∧ Path.resolve "/home/user" ["sandbox"; "x"] = "/home/user/sandbox/x"
  ∧ Path.resolve "/home/user" ["/sandbox/"; "."] = "/sandbox"
  ∧ Path.resolve "/home/user" ["/sandbox"; "../../.."] = "/"
  ∧ Path.resolve "/" ["/"; "a//b/"] = "/a/b".
Proof. repeat split; reflexivity. Qed.

Example stringify_listing :
  Js.JSON_stringify
    (Js.JObj [("path", Js.JStr "."); ("contents", Js.JArr [Js.JObj [("size", Js.JNum 5)]]); ("none", Js.JArr [])])
  = "{" +:+ Js.newline +:+ "  " +:+ Js.dquote +:+ "path" +:+ Js.dquote +:+ ": " +:+ Js.dquote +:+ "." +:+ Js.dquote +:+ "," +:+ Js.newline
    +:+ "  " +:+ Js.dquote +:+ "contents" +:+ Js.dquote +:+ ": [" +:+ Js.newline
    +:+ "    {" +:+ Js.newline
    +:+ "      " +:+ Js.dquote +:+ "size" +:+ Js.dquote +:+ ": 5" +:+ Js.newline
    +:+ "    }" +:+ Js.newline
    +:+ "  ]," +:+ Js.newline
    +:+ "  " +:+ Js.dquote +:+ "none" +:+ Js.dquote +:+ ": []" +:+ Js.newline
    +:+ "}".
Proof. vm_compute. reflexivity. Qed.

Example octal_mode :
  Js.toOctalString (Z.land 33188 511) = "644" ∧ Js.toOctalString 0 = "0"
  ∧ Js.toOctalString 8 = "10" ∧ Js.toOctalString 511 = "777".
Proof. repeat split; vm_compute; reflexivity. Qed.

Example scenario_write_then_read :
  let (w1, r1) := call sandbox "write_file"
      [("path", Js.VStr "notes.txt"); ("content", Js.VStr "hello")] MemFs.emptySandbox in
  let (w2, r2) := call sandbox "read_file" [("path", Js.VStr "notes.txt")] w1 in
  r1 = Js.Return (Response.ofText "File written successfully: notes.txt")
  ∧ r2 = Js.Return (Response.ofText "hello")
  ∧ MemFs.trace w2 = [MemFs.Access "/sandbox"; MemFs.Stat "/sandbox/notes.txt";
                      MemFs.WriteFile "/sandbox/notes.txt" "hello";
                      MemFs.Stat "/sandbox/notes.txt"; MemFs.ReadFile "/sandbox/notes.txt"].
Proof. vm_compute. auto. Qed.

Example scenario_traversal :
  call sandbox "list_directory" [("path", Js.VStr "../../etc")] MemFs.emptySandbox
  = (MemFs.emptySandbox,
     Js.Return (Response.ofText
       "Error processing tool 'list_directory': Access denied: Path '../../etc' resolves outside the allowed directory.")).
Proof. vm_compute. reflexivity. Qed.

(** * Properties of strings and paths *)

Module StrFacts.

Local Arguments String.append !_ _ / : simpl nomatch.

Lemma sapp_nil_r (s : string) : s +:+ EmptyString = s.
Proof. induction s as [|c s IH]; simpl; [done | by rewrite IH]. Qed.

Lemma sapp_assoc (a b c : string) : (a +:+ b) +:+ c = a +:+ b +:+ c.
Proof. induction a as [|x a IH]; simpl; [done | by rewrite IH]. Qed.

Lemma sapp_eq_nil (a b : string) : a +:+ b = EmptyString → a = EmptyString ∧ b = EmptyString.
Proof. destruct a; simpl; [done | discriminate]. Qed.

Lemma prefix_nil (s : string) : String.prefix EmptyString s = true.
Proof. by destruct s. Qed.

Lemma prefix_cons (a b : ascii) (s t : string) :
  String.prefix (String a s) (String b t) = bool_decide (a = b) && String.prefix s t.
Proof.
  simpl. destruct (ascii_dec a b) as [->|Hne].
  - by rewrite bool_decide_eq_true_2.
  - by rewrite bool_decide_eq_false_2.
Qed.

(** [startsWith] is the existence of a remainder. *)
Lemma prefix_spec (p s : string) :
  String.prefix p s = true ↔ ∃ r, s = p +:+ r.
Proof.
  revert s. induction p as [|a p IH]; intros s.
  - rewrite prefix_nil. split; [by exists s | done].
  - destruct s as [|b s].
    + simpl. split; [done | intros [r Hr]; discriminate].
    + rewrite prefix_cons, andb_true_iff, bool_decide_eq_true, IH. split.
      * intros [-> [r ->]]. by exists r.
      * intros [r Hr]. simpl in Hr. injection Hr as -> ->. eauto.
Qed.

Lemma prefix_app (p r : string) : String.prefix p (p +:+ r) = true.
Proof. apply prefix_spec. by exists r. Qed.

Lemma includes_prefix (s sub : string) :
  String.prefix sub s = true → Str.includes s sub = true.
Proof. intros H. destruct s; simpl in *; rewrite H; done. Qed.

(** A string includes whatever it was assembled from. *)
Lemma includes_app (a sub b : string) : Str.includes (a +:+ sub +:+ b) sub = true.
Proof.
  induction a as [|c a IH]; simpl.
  - apply includes_prefix, prefix_app.
  - rewrite IH. apply orb_true_r.
Qed.

Lemma includes_app_r (a sub : string) : Str.includes (a +:+ sub) sub = true.
Proof. rewrite <- (sapp_nil_r sub) at 1. apply includes_app. Qed.

(** [includes] finds the substring somewhere inside. *)
Lemma includes_spec (s sub : string) :
  Str.includes s sub = true ↔ ∃ a b, s = a +:+ sub +:+ b.
Proof.
  split.
  - induction s as [|c s IH].
    + change (Str.includes EmptyString sub) with (String.prefix sub EmptyString || false).
      rewrite orb_false_r. intros [r Hr]%prefix_spec. by exists EmptyString, r.
    + change (Str.includes (String c s) sub)
        with (String.prefix sub (String c s) || Str.includes s sub).
      intros [[r Hr]%prefix_spec | (a & b & ->)%IH]%orb_true_iff.
      * by exists EmptyString, r.
      * by exists (String c a), b.
  - intros (a & b & ->). apply includes_app.
Qed.

Lemma isEmpty_spec (s : string) : Str.isEmpty s = true ↔ s = EmptyString.
Proof. destruct s; simpl; split; done. Qed.

Lemma isEmpty_false (s : string) : Str.isEmpty s = false ↔ s ≠ EmptyString.
Proof. destruct s; simpl; split; done. Qed.

Lemma lastIs_app (c : ascii) (a b : string) :
  b ≠ EmptyString → Str.lastIs c (a +:+ b) = Str.lastIs c b.
Proof.
  intros Hb. induction a as [|x a IH]; [done|].
  simpl. rewrite IH. destruct (a +:+ b) eqn:E; [|done].
  apply sapp_eq_nil in E as [_ ?]. done.
Qed.

Lemma lastIs_mem (c : ascii) (s : string) : Str.lastIs c s = true → Str.mem c s = true.
Proof.
  induction s as [|x s IH]; simpl; [done|].
  destruct s; [by rewrite orb_false_r | intros H; rewrite (IH H); apply orb_true_r].
Qed.

Lemma mem_app (c : ascii) (a b : string) :
  Str.mem c (a +:+ b) = Str.mem c a || Str.mem c b.
Proof. induction a as [|x a IH]; simpl; [done | by rewrite IH, orb_assoc]. Qed.

End StrFacts.

Module PathFacts.
Import StrFacts.

Local Arguments String.append !_ _ / : simpl nomatch.

Lemma split_ne_nil (s : string) : Segments.split s ≠ [].
Proof.
  induction s as [|c s IH]; simpl; [done|].
  destruct (Path.isPosixPathSeparator c); [done|]. by destruct (Segments.split s).
Qed.

Lemma split_slashFree (s : string) : Forall slashFree (Segments.split s).
Proof.
  induction s as [|c s IH]; simpl.
  - by repeat constructor.
  - destruct (Path.isPosixPathSeparator c) eqn:Hc.
    + by constructor.
    + destruct (Segments.split s) as [|x r]; [by repeat constructor; unfold slashFree; simpl;
        rewrite orb_false_r|].
      inversion IH as [|? ? Hx Hr]; subst. constructor; [|done].
      unfold slashFree in *. simpl. by rewrite Hx, orb_false_r.
Qed.

(** Splitting sees a separator wherever it stands. *)
Lemma split_app_sep (a b : string) :
  Segments.split (a +:+ "/" +:+ b) = Segments.split a ++ Segments.split b.
Proof.
  induction a as [|c a IH]; simpl in *; [done|].
  destruct (Path.isPosixPathSeparator c).
  - by rewrite IH.
  - rewrite IH. pose proof (split_ne_nil a). by destruct (Segments.split a).
Qed.

Lemma split_app_sep_cons (a b : string) :
  Segments.split (a +:+ String Path.CHAR_FORWARD_SLASH b) = Segments.split a ++ Segments.split b.
Proof. exact (split_app_sep a b). Qed.

Lemma split_slashFree_id (a : string) : slashFree a → Segments.split a = [a].
Proof.
  unfold slashFree. induction a as [|c a IH]; simpl; [done|].
  intros [Hc Ha]%orb_false_iff. unfold Path.isPosixPathSeparator. rewrite Hc.
  by rewrite (IH Ha).
Qed.

Lemma split_join (l : list string) :
  Forall slashFree l → l ≠ [] → Segments.split (Segments.joinSegments l) = l.
Proof.
  induction 1 as [|x r Hx Hr IH]; [done|]. intros _.
  destruct r as [|y r]; [by apply split_slashFree_id|].
  change (Segments.joinSegments (x :: y :: r))
    with (x +:+ "/" +:+ Segments.joinSegments (y :: r)).
  rewrite split_app_sep, split_slashFree_id, IH; done.
Qed.

Lemma proper_slashFree (l : list string) : Forall properSegment l → Forall slashFree l.
Proof. intros H. eapply Forall_impl; [done|]. by intros s (_ & _ & _ & ?). Qed.

Lemma join_proper_nonempty (l : list string) :
  Forall properSegment l → l ≠ [] → Segments.joinSegments l ≠ EmptyString.
Proof.
  intros Hl Hne. destruct Hl as [|x r (Hx & _) Hr]; [done|].
  destruct r; simpl; [done|]. by destruct x.
Qed.

Lemma slashFree_last (s : string) : slashFree s → Str.lastIs Path.CHAR_FORWARD_SLASH s = false.
Proof.
  intros Hs. destruct (Str.lastIs _ s) eqn:E; [|done].
  apply lastIs_mem in E. unfold slashFree in Hs. congruence.
Qed.

Lemma join_proper_last (l : list string) :
  Forall properSegment l → Str.lastIs Path.CHAR_FORWARD_SLASH (Segments.joinSegments l) = false.
Proof.
  induction 1 as [|x r Hx Hr IH]; [done|].
  destruct r as [|y r]; [apply slashFree_last, Hx|].
  change (Segments.joinSegments (x :: y :: r))
    with (x +:+ "/" +:+ Segments.joinSegments (y :: r)).
  rewrite <- sapp_assoc, lastIs_app; [done|].
  by apply join_proper_nonempty.
Qed.

Lemma filter_nonempty_proper (l : list string) :
  Forall properSegment l → filter (λ s, s ≠ EmptyString) l = l.
Proof.
  induction 1 as [|x r (Hx & _) Hr IH]; [done|].
  rewrite filter_cons_True by done. by rewrite IH.
Qed.

(** A normalized absolute path is rebuilt from its components. *)
Lemma components_abs_join (l : list string) :
  Forall properSegment l → Segments.components ("/" +:+ Segments.joinSegments l) = l.
Proof.
  intros Hl. unfold Segments.components. simpl.
  destruct l as [|x r].
  - simpl. rewrite filter_cons_False by (intros ?; done).
    by rewrite filter_cons_False by (intros ?; done).
  - rewrite filter_cons_False by (intros ?; done).
    rewrite split_join by (by apply proper_slashFree || done).
    by apply filter_nonempty_proper.
Qed.

(** *** Normalizing segments *)

Lemma normalizeStep_proper (stack : list string) (seg : string) :
  Forall properSegment stack → slashFree seg →
  Forall properSegment (Segments.normalizeStep false stack seg).
Proof.
  intros Hst Hseg. unfold Segments.normalizeStep.
  repeat case_decide; try done.
  - destruct Hst as [|top below Htop Hbelow]; [done|].
    case_decide; [by constructor | done].
  - by constructor.
Qed.

Lemma fold_normalize_proper (segs stack : list string) :
  Forall slashFree segs → Forall properSegment stack →
  Forall properSegment (fold_left (Segments.normalizeStep false) segs stack).
Proof.
  intros Hsegs. revert stack. induction Hsegs as [|s r Hs Hr IH]; intros stack Hst; [done|].
  simpl. by apply IH, normalizeStep_proper.
Qed.

Lemma normalizeSegments_proper (segs : list string) :
  Forall slashFree segs → Forall properSegment (Segments.normalizeSegments false segs).
Proof.
  intros H. unfold Segments.normalizeSegments. apply Forall_rev.
  by apply fold_normalize_proper.
Qed.

Lemma fold_normalize_id (l stack : list string) :
  Forall properSegment l →
  fold_left (Segments.normalizeStep false) l stack = rev l ++ stack.
Proof.
  intros Hl. revert stack. induction Hl as [|s r (H1 & H2 & H3 & _) Hr IH]; intros stack; [done|].
  simpl. rewrite IH. unfold Segments.normalizeStep.
  rewrite !decide_False by done. by rewrite <- List.app_assoc.
Qed.

(** Normalizing is idempotent. *)
Lemma normalizeSegments_id (l : list string) :
  Forall properSegment l → Segments.normalizeSegments false l = l.
Proof.
  intros Hl. unfold Segments.normalizeSegments.
  by rewrite fold_normalize_id, List.app_nil_r, rev_involutive.
Qed.

Lemma normalizeSegments_empty_l (allow : bool) (l : list string) :
  Segments.normalizeSegments allow (EmptyString :: l) = Segments.normalizeSegments allow l.
Proof. done. Qed.

Lemma normalizeSegments_empty_r (allow : bool) (l : list string) :
  Segments.normalizeSegments allow (l ++ [EmptyString]) = Segments.normalizeSegments allow l.
Proof. unfold Segments.normalizeSegments. by rewrite fold_left_app. Qed.

Lemma normalizeStep_plain (allow : bool) (stack : list string) (seg : string) :
  Forall plainSegment stack → slashFree seg →
  Forall plainSegment (Segments.normalizeStep allow stack seg).
Proof.
  intros Hst Hseg. unfold Segments.normalizeStep.
  repeat case_decide; try done.
  - destruct Hst as [|top below Htop Hbelow].
    + destruct allow; [|done]. constructor; [by split | done].
    + case_decide; [|done].
      destruct allow; [|by constructor]. constructor; [by split|]. by constructor.
  - constructor; [by split | done].
Qed.

Lemma normalizeSegments_plain (allow : bool) (segs : list string) :
  Forall slashFree segs → Forall plainSegment (Segments.normalizeSegments allow segs).
Proof.
  intros H. unfold Segments.normalizeSegments. apply Forall_rev.
  assert (Hnil : Forall plainSegment []) by constructor.
  revert Hnil. generalize (@nil string).
  induction H as [|x r Hx Hr IH]; intros stack Hst; [done|].
  simpl. by apply IH, normalizeStep_plain.
Qed.

Lemma join_plain_first (l : list string) (tail : string) :
  Forall plainSegment l → l ≠ [] →
  Str.firstIs Path.CHAR_FORWARD_SLASH (Segments.joinSegments l +:+ tail) = false
  ∧ Segments.joinSegments l ≠ EmptyString.
Proof.
  intros Hl Hne. destruct Hl as [|x r (Hx & Hfree) Hr]; [done|].
  destruct x as [|c x]; [done|].
  unfold slashFree in Hfree. simpl in Hfree. apply orb_false_iff in Hfree as [Hc _].
  destruct r; simpl; by rewrite ?Hc.
Qed.

(** *** The loop of [normalizeString] *)

Lemma strlen_app (a b : string) : Path.strlen (a +:+ b) = (Path.strlen a + Path.strlen b)%Z.
Proof.
  unfold Path.strlen. induction a as [|c a IH]; simpl; [done|].
  rewrite !Nat2Z.inj_succ, IH. lia.
Qed.

Lemma strlen_nonneg (s : string) : (0 ≤ Path.strlen s)%Z.
Proof. unfold Path.strlen. lia. Qed.

Lemma strlen_zero (s : string) : Path.strlen s = 0%Z ↔ s = EmptyString.
Proof. unfold Path.strlen. destruct s; simpl; split; (done || lia). Qed.

Lemma strlen_cons (c : ascii) (s : string) : Path.strlen (String c s) = (1 + Path.strlen s)%Z.
Proof. unfold Path.strlen. simpl. lia. Qed.

Lemma substring_prefix (b c : string) :
  String.substring 0 (String.length b) (b +:+ c) = b.
Proof.
  induction b as [|x b IH]; simpl; [by destruct c | by rewrite IH].
Qed.

Lemma substring_middle (a b c : string) :
  String.substring (String.length a) (String.length b) (a +:+ b +:+ c) = b.
Proof. induction a as [|x a IH]; simpl; [apply substring_prefix | done]. Qed.

(** [path.slice(lastSlash + 1, i)] is the segment under way. *)
Lemma slice_middle (a b c : string) :
  Path.slice (a +:+ b +:+ c) (Path.strlen a) (Path.strlen a + Path.strlen b) = b.
Proof.
  unfold Path.slice, Path.strlen.
  replace (Z.to_nat (Z.of_nat (String.length a))) with (String.length a) by lia.
  replace (Z.to_nat _) with (String.length b) by lia.
  apply substring_middle.
Qed.

Lemma slice_prefix (b c : string) : Path.slice (b +:+ c) 0 (Path.strlen b) = b.
Proof. exact (slice_middle EmptyString b c). Qed.

Lemma get_app_r (a t : string) (k : nat) :
  String.get (String.length a + k) (a +:+ t) = String.get k t.
Proof. induction a as [|x a IH]; simpl; done. Qed.

Lemma charCodeAt_app_r (a t : string) (k : Z) :
  (0 ≤ k)%Z → Path.charCodeAt (a +:+ t) (Path.strlen a + k) = Path.charCodeAt t k.
Proof.
  intros Hk. unfold Path.charCodeAt, Path.strlen.
  rewrite !(proj2 (Z.ltb_ge _ _)) by lia.
  replace (Z.to_nat (Z.of_nat (String.length a) + k))
    with (String.length a + Z.to_nat k)%nat by lia.
  apply get_app_r.
Qed.

Lemma lastIndexFrom_slashFree (i : Z) (t : string) (found : Z) :
  slashFree t → Path.lastIndexFrom i t found = found.
Proof.
  unfold slashFree. revert i. induction t as [|c t IH]; intros i; simpl; [done|].
  intros [Hc Ht]%orb_false_iff. unfold Path.isPosixPathSeparator. rewrite Hc. by apply IH.
Qed.

Lemma lastIndexFrom_app (i : Z) (a b : string) (found : Z) :
  Path.lastIndexFrom i (a +:+ b) found
  = Path.lastIndexFrom (i + Path.strlen a) b (Path.lastIndexFrom i a found).
Proof.
  revert i found. induction a as [|c a IH]; intros i found; simpl.
  - unfold Path.strlen. simpl. by rewrite Z.add_0_r.
  - rewrite IH, strlen_cons. f_equal. lia.
Qed.

(** The last separator of [a/t] stands after [a] when [t] holds none. *)
Lemma lastIndexOfSeparator_join (a t : string) :
  slashFree t → Path.lastIndexOfSeparator (a +:+ "/" +:+ t) = Path.strlen a.
Proof.
  intros Ht. unfold Path.lastIndexOfSeparator. rewrite lastIndexFrom_app. simpl.
  by rewrite lastIndexFrom_slashFree.
Qed.

Lemma lastIndexOfSeparator_slashFree (t : string) :
  slashFree t → Path.lastIndexOfSeparator t = (-1)%Z.
Proof. apply lastIndexFrom_slashFree. Qed.

Lemma join_snoc (l : list string) (x : string) :
  l ≠ [] → Segments.joinSegments (l ++ [x]) = Segments.joinSegments l +:+ "/" +:+ x.
Proof.
  induction l as [|y l IH]; [done|]. intros _.
  destruct l as [|z l]; [done|].
  change (Segments.joinSegments ((y :: z :: l) ++ [x]))
    with (y +:+ "/" +:+ Segments.joinSegments ((z :: l) ++ [x])).
  rewrite IH by done.
  change (Segments.joinSegments (y :: z :: l))
    with (y +:+ "/" +:+ Segments.joinSegments (z :: l)).
  by rewrite !sapp_assoc.
Qed.

Lemma resOf_single (top : string) : resOf [top] = top.
Proof. done. Qed.

Lemma resOf_cons (top next : string) (below : list string) :
  resOf (top :: next :: below) = resOf (next :: below) +:+ "/" +:+ top.
Proof.
  unfold resOf. change (rev (top :: next :: below)) with (rev (next :: below) ++ [top]).
  apply join_snoc. simpl. by destruct (rev below).
Qed.

Lemma resOf_nonempty (stack : list string) :
  Forall plainSegment stack → stack ≠ [] → (0 < Path.strlen (resOf stack))%Z.
Proof.
  intros Hst Hne. destruct Hst as [|top below [Htop _] Hbelow]; [done|].
  assert (0 < Path.strlen top)%Z.
  { pose proof (strlen_nonneg top).
    destruct (decide (Path.strlen top = 0%Z)) as [Hz|]; [|lia].
    by apply strlen_zero in Hz. }
  destruct below as [|next below]; [by rewrite resOf_single|].
  rewrite resOf_cons, !strlen_app. pose proof (strlen_nonneg (resOf (next :: below))).
  change (Path.strlen "/") with 1%Z. lia.
Qed.

(** *** The counter of dots *)

Lemma dotsFrom_neg (s : string) : dotsFrom (-1) s = (-1)%Z.
Proof. induction s as [|c s IH]; simpl; [done|]. by rewrite andb_false_r. Qed.

Lemma dotsFrom_cases (d : Z) (s : string) :
  (0 ≤ d)%Z → dotsFrom d s = (-1)%Z ∨ dotsFrom d s = (d + Path.strlen s)%Z.
Proof.
  revert d. induction s as [|c s IH]; intros d Hd; simpl.
  - right. unfold Path.strlen. simpl. lia.
  - destruct (Ascii.eqb c Path.CHAR_DOT && negb (d =? -1)%Z).
    + destruct (IH (d + 1)%Z ltac:(lia)) as [->| ->]; [by left | right].
      rewrite strlen_cons. lia.
    + left. apply dotsFrom_neg.
Qed.

Lemma dotsFrom_snoc (d : Z) (s : string) (c : ascii) :
  dotsFrom d (s +:+ String c EmptyString)
  = if Ascii.eqb c Path.CHAR_DOT && negb (dotsFrom d s =? -1)%Z
    then (dotsFrom d s + 1)%Z else (-1)%Z.
Proof. revert d. induction s as [|x s IH]; intros d; simpl; [done | apply IH]. Qed.

Lemma dots_one (s : string) : dotsFrom 0 s = 1%Z ↔ s = ".".
Proof.
  split; [|by intros ->].
  destruct s as [|c s]; simpl; [done|].
  destruct (Ascii.eqb_spec c Path.CHAR_DOT) as [->|_];
    simpl; [|by rewrite dotsFrom_neg].
  change (0 + 1)%Z with 1%Z.
  destruct (dotsFrom_cases 1 s ltac:(lia)) as [->| ->]; [done|].
  intros Hs. assert (Path.strlen s = 0%Z) as ->%strlen_zero by lia. done.
Qed.

Lemma dots_two (s : string) : dotsFrom 0 s = 2%Z ↔ s = "..".
Proof.
  split; [|by intros ->].
  destruct s as [|c s]; simpl; [done|].
  destruct (Ascii.eqb_spec c Path.CHAR_DOT) as [->|_];
    simpl; [|by rewrite dotsFrom_neg].
  change (0 + 1)%Z with 1%Z.
  destruct s as [|c s]; simpl; [done|].
  destruct (Ascii.eqb_spec c Path.CHAR_DOT) as [->|_];
    simpl; [|by rewrite dotsFrom_neg].
  change (1 + 1)%Z with 2%Z.
  destruct (dotsFrom_cases 2 s ltac:(lia)) as [->| ->]; [done|].
  intros Hs. assert (Path.strlen s = 0%Z) as ->%strlen_zero by lia. done.
Qed.

(** *** The turn at a separator *)

Lemma turned_invariant (i : Z) (res' : string) (lsl' : Z) (stack' : list string) :
  res' = resOf stack' → Forall plainSegment stack' →
  lsl' = Path.strlen (hd EmptyString stack') →
  loopInvariant (i + 1) (Path.turned i res' lsl') stack' EmptyString.
Proof.
  intros -> Hplain ->. unfold loopInvariant, Path.turned. cbn.
  repeat split; try done. unfold Path.strlen. simpl. lia.
Qed.

(** [res] ends with [..] as its last segment exactly when the last
    segment kept is [..]. *)
Lemma ends_with_dots (top : string) (below : list string) :
  Forall plainSegment (top :: below) →
  let res := resOf (top :: below) in
  (Path.strlen res <? 2)%Z
  || negb (Path.strlen top =? 2)%Z
  || negb (bool_decide (Path.charCodeAt res (Path.strlen res - 1) = Some Path.CHAR_DOT))
  || negb (bool_decide (Path.charCodeAt res (Path.strlen res - 2) = Some Path.CHAR_DOT))
  = negb (bool_decide (top = "..")).
Proof.
  intros Hplain res.
  assert (Hres : ∃ front, res = front +:+ top).
  { destruct below as [|next below].
    - by exists EmptyString.
    - exists (resOf (next :: below) +:+ "/"). unfold res.
      by rewrite resOf_cons, sapp_assoc. }
  destruct Hres as [front Hres]. clearbody res. subst res.
  destruct (Z.eqb_spec (Path.strlen top) 2) as [Hlen|Hlen]; simpl.
  - assert (∃ a b, top = String a (String b EmptyString)) as (a & b & ->).
    { destruct top as [|a [|b [|c top]]]; try done; [by eexists _, _|].
      rewrite !strlen_cons in Hlen. pose proof (strlen_nonneg top). lia. }
    rewrite strlen_app, Hlen.
    pose proof (strlen_nonneg front).
    rewrite (proj2 (Z.ltb_ge _ _)) by lia. simpl.
    replace (Path.strlen front + 2 - 1)%Z with (Path.strlen front + 1)%Z by lia.
    replace (Path.strlen front + 2 - 2)%Z with (Path.strlen front + 0)%Z by lia.
    rewrite !charCodeAt_app_r by lia.
    change (Path.charCodeAt (String a (String b EmptyString)) 1) with (Some b).
    change (Path.charCodeAt (String a (String b EmptyString)) 0) with (Some a).
    repeat case_bool_decide; simplify_eq; done.
  - rewrite orb_true_r. simpl. rewrite bool_decide_eq_false_2; [done|].
    by intros ->.
Qed.

(** A turn at a separator does to [res] what [normalizeStep] does to the
    segments. *)
Lemma atSeparator_segments (allow : bool) (path : string) (i : Z) (st : Path.normState)
    (stack : list string) (cur : string) :
  loopInvariant i st stack cur →
  Path.slice path (Path.lastSlash st + 1) i = cur →
  loopInvariant (i + 1) (Path.atSeparator allow path i st)
    (Segments.normalizeStep allow stack cur) EmptyString.
Proof.
  intros (Hres & Hplain & Hlsl & Hslash & Hdots & Hfree) Hslice.
  pose proof (normalizeStep_plain allow stack cur Hplain Hfree) as Hstep.
  pose proof (strlen_nonneg cur) as Hcur.
  unfold Path.atSeparator. rewrite Hslice.
  destruct (decide (cur = EmptyString)) as [->|Hne].
  { assert ((Path.lastSlash st =? i - 1)%Z = true) as ->
      by (apply Z.eqb_eq; rewrite Hslash; unfold Path.strlen; simpl; lia).
    simpl. by apply turned_invariant. }
  assert ((Path.lastSlash st =? i - 1)%Z = false) as ->.
  { apply Z.eqb_neq. rewrite Hslash. intros Heq.
    assert (Path.strlen cur = 0%Z) as ->%strlen_zero by lia. done. }
  simpl orb.
  destruct (decide (cur = ".")) as [->|Hdot].
  { rewrite Hdots. simpl. by apply turned_invariant. }
  assert ((Path.dots st =? 1)%Z = false) as ->.
  { apply Z.eqb_neq. rewrite Hdots. by intros ?%dots_one. }
  destruct (decide (cur = "..")) as [->|Hdots2].
  - rewrite Hdots. simpl Z.eqb. cbv iota.
    unfold Segments.normalizeStep in *. simpl in Hstep |- *.
    destruct stack as [|top below].
    + rewrite Hres. simpl. destruct allow; by apply turned_invariant.
    + rewrite Hres, Hlsl. cbn [hd].
      rewrite (ends_with_dots top below Hplain).
      pose proof (resOf_nonempty (top :: below) Hplain ltac:(done)) as Hpos.
      destruct (decide (top = "..")) as [->|Htop].
      * rewrite bool_decide_eq_true_2 by done. simpl negb. cbv iota.
        destruct allow; [|by apply turned_invariant; rewrite ?Hres].
        rewrite (proj2 (Z.gtb_lt _ _) Hpos).
        apply turned_invariant; [|done..].
        by rewrite resOf_cons.
      * rewrite bool_decide_eq_false_2 by done. simpl negb. cbv iota.
        inversion Hplain as [|? ? [Htne Htfree] Hbelow]; subst.
        destruct below as [|next below].
        { rewrite resOf_single in *.
          rewrite lastIndexOfSeparator_slashFree by done.
          destruct (Path.strlen top >? 2)%Z; simpl.
          - by apply turned_invariant.
          - rewrite (proj2 (Z.eqb_neq _ _)) by lia. simpl. by apply turned_invariant. }
        rewrite resOf_cons in *.
        inversion Hbelow as [|? ? [Hnne Hnfree] Hbelow']; subst.
        pose proof (resOf_nonempty (next :: below) Hbelow ltac:(done)) as Hpos'.
        assert (0 < Path.strlen top)%Z.
        { pose proof (strlen_nonneg top).
          destruct (decide (Path.strlen top = 0%Z)) as [Hz|]; [|lia].
          by apply strlen_zero in Hz. }
        assert ((Path.strlen (resOf (next :: below) +:+ "/" +:+ top) >? 2)%Z = true) as ->.
        { apply Z.gtb_lt. rewrite !strlen_app. change (Path.strlen "/") with 1%Z. lia. }
        rewrite lastIndexOfSeparator_join by done.
        rewrite (proj2 (Z.eqb_neq _ _)) by lia.
        rewrite slice_prefix.
        apply turned_invariant; [done..|]. cbn [hd].
        destruct below as [|next' below].
        { rewrite resOf_single, lastIndexOfSeparator_slashFree by done. lia. }
        rewrite resOf_cons, lastIndexOfSeparator_join by done.
        rewrite !strlen_app. change (Path.strlen "/") with 1%Z. lia.
  - assert ((Path.dots st =? 2)%Z = false) as ->.
    { apply Z.eqb_neq. rewrite Hdots. by intros ?%dots_two. }
    unfold Segments.normalizeStep in *.
    rewrite !decide_False in * by done.
    apply turned_invariant; [|done|cbn [hd]; lia].
    rewrite Hres. destruct stack as [|top below].
    + done.
    + rewrite (proj2 (Z.gtb_lt _ _)) by (by apply resOf_nonempty).
      by rewrite resOf_cons.
Qed.

(** *** The whole loop *)

Lemma atCharacter_invariant (i : Z) (c : ascii) (st : Path.normState)
    (stack : list string) (cur : string) :
  Path.isPosixPathSeparator c = false →
  loopInvariant i st stack cur →
  loopInvariant (i + 1) (Path.atCharacter c st) stack (cur +:+ String c EmptyString).
Proof.
  intros Hc (Hres & Hplain & Hlsl & Hslash & Hdots & Hfree).
  unfold loopInvariant, Path.atCharacter. cbn [Path.res Path.lastSegmentLength
    Path.lastSlash Path.dots].
  repeat split; try done.
  - rewrite strlen_app, Hslash. change (Path.strlen (String c EmptyString)) with 1%Z. lia.
  - by rewrite dotsFrom_snoc, Hdots.
  - unfold slashFree in *. rewrite mem_app, Hfree. simpl.
    unfold Path.isPosixPathSeparator in Hc. by rewrite Hc.
Qed.

Lemma normalizeLoop_segments (allow : bool) (path rest : string) :
  ∀ (pre cur : string) (i : Z) (code : ascii) (st : Path.normState) (stack : list string),
    path = pre +:+ cur +:+ rest →
    Path.strlen pre = (Path.lastSlash st + 1)%Z →
    loopInvariant i st stack cur →
    (Path.isPosixPathSeparator code = true → cur = EmptyString) →
    Path.normalizeLoop allow path rest i code st
    = Segments.joinSegments
        (rev (fold_left (Segments.normalizeStep allow) (Segments.split (cur +:+ rest)) stack)).
Proof.
  induction rest as [|c rest IH]; intros pre cur i code st stack Hpath Hpre Hinv Hcode.
  - assert (Hfree : slashFree cur) by (by destruct Hinv as (_ & _ & _ & _ & _ & ?)).
    rewrite sapp_nil_r, split_slashFree_id by done. cbn [fold_left Path.normalizeLoop].
    destruct (Path.isPosixPathSeparator code) eqn:Hsep.
    + rewrite (Hcode eq_refl) in *. by destruct Hinv as (-> & _).
    + assert (Hslice : Path.slice path (Path.lastSlash st + 1) i = cur).
      { destruct Hinv as (_ & _ & _ & Hslash & _).
        rewrite <- Hpre, Hpath.
        replace i with (Path.strlen pre + Path.strlen cur)%Z by lia.
        apply slice_middle. }
      by destruct (atSeparator_segments allow path i st stack cur Hinv Hslice) as (-> & _).
  - cbn [Path.normalizeLoop].
    destruct (Path.isPosixPathSeparator c) eqn:Hsep.
    + assert (Hfree : slashFree cur) by (by destruct Hinv as (_ & _ & _ & _ & _ & ?)).
      assert (c = Path.CHAR_FORWARD_SLASH) as -> by (by apply Ascii.eqb_eq).
      assert (Hslice : Path.slice path (Path.lastSlash st + 1) i = cur).
      { destruct Hinv as (_ & _ & _ & Hslash & _).
        rewrite <- Hpre, Hpath.
        replace i with (Path.strlen pre + Path.strlen cur)%Z by lia.
        apply slice_middle. }
      pose proof (atSeparator_segments allow path i st stack cur Hinv Hslice) as Hinv'.
      rewrite (IH (pre +:+ cur +:+ "/") EmptyString (i + 1)%Z Path.CHAR_FORWARD_SLASH
                 (Path.atSeparator allow path i st)
                 (Segments.normalizeStep allow stack cur)); [| |  |done|done].
      * by rewrite split_app_sep_cons, (split_slashFree_id cur).
      * rewrite Hpath. by rewrite !sapp_assoc.
      * destruct Hinv as (_ & _ & _ & Hslash & _).
        destruct Hinv' as (_ & _ & _ & Hslash' & _).
        rewrite !strlen_app, Hslash'. change (Path.strlen "/") with 1%Z.
        change (Path.strlen EmptyString) with 0%Z. lia.
    + rewrite (IH pre (cur +:+ String c EmptyString) (i + 1)%Z c
                 (Path.atCharacter c st) stack).
      * by rewrite sapp_assoc.
      * rewrite Hpath. by rewrite sapp_assoc.
      * done.
      * by apply atCharacter_invariant.
      * intros Hsep'. congruence.
Qed.

(** [normalizeString] splits the path at its separators, lets
    [normalizeStep] take the segments in turn and glues what is kept. *)
Lemma normalizeString_segments (path : string) (allow : bool) :
  Path.normalizeString path allow
  = Segments.joinSegments (Segments.normalizeSegments allow (Segments.split path)).
Proof.
  unfold Path.normalizeString, Segments.normalizeSegments.
  by apply (normalizeLoop_segments allow path path EmptyString EmptyString).
Qed.

(** [path.normalize] never yields the empty string and keeps a path
    absolute or relative as it was. *)
Lemma normalize_nonempty (p : string) : Path.normalize p ≠ EmptyString.
Proof.
  unfold Path.normalize. destruct (Str.isEmpty p) eqn:Hp; [done|].
  destruct (Str.isEmpty (Path.normalizeString p _)) eqn:Hn.
  - by repeat case_match.
  - apply isEmpty_false in Hn.
    destruct (Str.firstIs _ p); [done|].
    destruct (Str.lastIs _ p); [|done].
    intros [? _]%sapp_eq_nil. done.
Qed.

Lemma isAbsolute_normalize (p : string) :
  Path.isAbsolute (Path.normalize p) = Path.isAbsolute p.
Proof.
  unfold Path.normalize, Path.isAbsolute.
  destruct (Str.isEmpty p) eqn:Hp; [by apply isEmpty_spec in Hp as ->|].
  destruct (Str.firstIs Path.CHAR_FORWARD_SLASH p) eqn:Hf.
  - destruct (Str.isEmpty (Path.normalizeString p (negb true))); reflexivity.
  - simpl. destruct (Str.isEmpty (Path.normalizeString p true)) eqn:Hn.
    + by destruct (Str.lastIs _ p).
    + apply isEmpty_false in Hn. rewrite normalizeString_segments in *.
      assert (Hpl := normalizeSegments_plain true _ (split_slashFree p)).
      destruct (Segments.normalizeSegments true (Segments.split p)) as [|x r] eqn:E; [done|].
      destruct (Str.lastIs _ p).
      * by apply join_plain_first.
      * rewrite <- (sapp_nil_r (Segments.joinSegments _)). by apply join_plain_first.
Qed.

Lemma split_abs (s : string) : Segments.split ("/" +:+ s) = EmptyString :: Segments.split s.
Proof. done. Qed.

(** A normalized absolute path is a fixed point of [path.normalize]. *)
Lemma normalize_abs_id (l : list string) :
  Forall properSegment l →
  Path.normalize ("/" +:+ Segments.joinSegments l) = "/" +:+ Segments.joinSegments l.
Proof.
  intros Hl. destruct l as [|x r]; [done|].
  assert (Hne : Segments.joinSegments (x :: r) ≠ EmptyString)
    by (by apply join_proper_nonempty).
  assert (Hsplit := split_join (x :: r) (proper_slashFree _ Hl)).
  assert (Hlast := join_proper_last _ Hl).
  remember (Segments.joinSegments (x :: r)) as q eqn:Hq.
  unfold Path.normalize. rewrite !normalizeString_segments.
  rewrite split_abs, normalizeSegments_empty_l, Hsplit by done.
  rewrite normalizeSegments_id by done.
  change (Str.isEmpty ("/" +:+ q)) with false.
  change (Str.firstIs Path.CHAR_FORWARD_SLASH ("/" +:+ q)) with true.
  cbv iota. rewrite lastIs_app, Hlast by done.
  rewrite <- Hq. apply isEmpty_false in Hne. by rewrite Hne.
Qed.

(** *** [path.resolve] *)

Lemma resolveLoop_absolute (l : list string) (cwd acc : string) :
  Path.isAbsolute cwd = true → ∃ r, Path.resolveLoop (l ++ [cwd]) acc = (r, true).
Proof.
  intros Hcwd. revert acc. induction l as [|p l IH]; intros acc; simpl.
  - destruct cwd as [|c cwd]; [done|]. simpl.
    unfold Path.isAbsolute in Hcwd. simpl in Hcwd. rewrite Hcwd. eauto.
  - destruct (Str.isEmpty p); [apply IH|].
    destruct (Str.firstIs _ p); [eauto | apply IH].
Qed.

(** In a process with an absolute working directory, [path.resolve]
    yields an absolute path built from proper segments. *)
Lemma resolve_form (cwd : string) (args : list string) :
  Path.isAbsolute cwd = true →
  ∃ l, Forall properSegment l ∧ Path.resolve cwd args = "/" +:+ Segments.joinSegments l.
Proof.
  intros Hcwd. unfold Path.resolve.
  destruct (resolveLoop_absolute (rev args) cwd EmptyString Hcwd) as [r ->].
  exists (Segments.normalizeSegments false (Segments.split r)).
  split; [|by rewrite normalizeString_segments].
  apply normalizeSegments_proper, split_slashFree.
Qed.

(** *** The root directory

    For an absolute [root], the three forms under which [validatePath]
    looks at it, in terms of its normalized segments. *)

Lemma split_trailing (a : string) :
  Segments.split (a +:+ "/") = Segments.split a ++ [EmptyString].
Proof. exact (split_app_sep a EmptyString). Qed.

Lemma rootSegments_proper (root : string) : Forall properSegment (rootSegments root).
Proof. apply normalizeSegments_proper, split_slashFree. Qed.

Lemma resolve_root (cwd root : string) :
  Path.isAbsolute root = true →
  Path.resolve cwd [root] = "/" +:+ Segments.joinSegments (rootSegments root).
Proof.
  intros Habs. destruct root as [|c root]; [done|].
  unfold Path.isAbsolute in Habs. unfold Path.resolve. simpl rev. simpl app.
  unfold Path.resolveLoop. change (Str.isEmpty (String c root)) with false.
  cbv iota. rewrite Habs. cbv iota. cbv zeta. cbv beta iota.
  rewrite normalizeString_segments. unfold rootSegments. simpl negb.
  by rewrite split_trailing, normalizeSegments_empty_r.
Qed.

Lemma normalize_root_sep (root : string) :
  Path.isAbsolute root = true →
  Path.normalize (root +:+ Path.sep)
  = "/" +:+ Segments.joinSegments (rootSegments root)
        +:+ (if rootSegments root is [] then EmptyString else "/").
Proof.
  intros Habs. destruct root as [|c root]; [done|].
  unfold Path.isAbsolute in Habs. unfold Path.normalize, Path.sep.
  change (Str.isEmpty (String c root +:+ "/")) with false.
  change (Str.firstIs Path.CHAR_FORWARD_SLASH (String c root +:+ "/"))
    with (Str.firstIs Path.CHAR_FORWARD_SLASH (String c root)).
  rewrite Habs, lastIs_app by done.
  change (Str.lastIs Path.CHAR_FORWARD_SLASH "/") with true.
  cbv iota zeta. rewrite !normalizeString_segments. simpl negb.
  rewrite split_trailing, normalizeSegments_empty_r. fold (rootSegments (String c root)).
  pose proof (rootSegments_proper (String c root)) as Hp.
  destruct (rootSegments (String c root)) as [|x r] eqn:E; [done|].
  assert (Hne : Segments.joinSegments (x :: r) ≠ EmptyString)
    by (by apply join_proper_nonempty).
  apply isEmpty_false in Hne. by rewrite Hne.
Qed.

Lemma normalize_root (root : string) :
  Path.isAbsolute root = true →
  Path.normalize root
  = "/" +:+ Segments.joinSegments (rootSegments root)
        +:+ (if rootSegments root is [] then EmptyString
             else if Str.lastIs Path.CHAR_FORWARD_SLASH root then "/" else EmptyString).
Proof.
  intros Habs. destruct root as [|c root]; [done|].
  unfold Path.isAbsolute in Habs. unfold Path.normalize.
  change (Str.isEmpty (String c root)) with false.
  rewrite Habs. cbv iota zeta. rewrite !normalizeString_segments. simpl negb.
  fold (rootSegments (String c root)).
  pose proof (rootSegments_proper (String c root)) as Hp.
  destruct (rootSegments (String c root)) as [|x r] eqn:E; [done|].
  assert (Hne : Segments.joinSegments (x :: r) ≠ EmptyString)
    by (by apply join_proper_nonempty).
  apply isEmpty_false in Hne. rewrite Hne.
  destruct (Str.lastIs _ _); [done|]. by rewrite sapp_nil_r.
Qed.

End PathFacts.

(** * The containment boundary *)

Module Containment.
Import StrFacts PathFacts.

Local Arguments String.append !_ _ / : simpl nomatch.
Local Arguments Segments.joinSegments : simpl never.

(** The test of [validatePath], the empty [if] set aside. *)
Lemma validatePath_unfold (proc : Process.t) (inputPath : string) :
  Server.validatePath proc inputPath
  = let root := Server.ALLOWED_BASE_PATH proc in
    let resolved := Path.resolve (Process.cwd proc) [root; inputPath] in
    if negb (Str.startsWith (Path.normalize resolved) (Path.normalize (root +:+ Path.sep)))
       && negb (bool_decide (Path.normalize resolved = Path.normalize root))
    then Js.Throw (Server.accessDenied inputPath)
    else Js.Return resolved.
Proof. unfold Server.validatePath. by destruct (Str.includes inputPath ".."). Qed.

(** A path that starts with the root and a separator continues the
    segments of the root. *)
Lemma startsWith_segments (rootSegs segs : list string) :
  Forall properSegment rootSegs → Forall properSegment segs → rootSegs ≠ [] →
  Str.startsWith ("/" +:+ Segments.joinSegments segs)
                 ("/" +:+ Segments.joinSegments rootSegs +:+ "/") = true →
  ∃ below, below ≠ [] ∧ segs = rootSegs ++ below.
Proof.
  intros Hroot Hsegs Hne [r Hr]%prefix_spec.
  rewrite sapp_assoc, sapp_assoc in Hr. injection Hr as Hr. simpl in Hr.
  assert (segs ≠ []) as Hs.
  { intros ->. symmetry in Hr. apply sapp_eq_nil in Hr as [Hr _].
    by apply (join_proper_nonempty rootSegs Hroot Hne). }
  apply (f_equal Segments.split) in Hr.
  rewrite split_app_sep_cons, !split_join in Hr by (by apply proper_slashFree || done).
  exists (Segments.split r). split; [apply split_ne_nil | done].
Qed.

(** With a relative root nothing is accepted: every resolved path is
    absolute and the two normalized forms of the root are not. *)
Lemma relative_root_rejects (root resolved : string) :
  root ≠ EmptyString → Path.isAbsolute root = false → Path.isAbsolute resolved = true →
  Str.startsWith resolved (Path.normalize (root +:+ Path.sep)) = false
  ∧ resolved ≠ Path.normalize root.
Proof.
  intros Hne Hrel Habs. split.
  - destruct (Str.startsWith _ _) eqn:E; [|done].
    apply prefix_spec in E as [r ->].
    assert (Hn : Path.isAbsolute (Path.normalize (root +:+ Path.sep)) = false).
    { rewrite isAbsolute_normalize. by destruct root. }
    pose proof (normalize_nonempty (root +:+ Path.sep)) as Hnn.
    destruct (Path.normalize (root +:+ Path.sep)); [done|].
    unfold Path.isAbsolute in *. simpl in *. congruence.
  - intros ->. rewrite isAbsolute_normalize in Habs. congruence.
Qed.

Lemma ALLOWED_BASE_PATH_nonempty (proc : Process.t) :
  Process.cwd proc ≠ EmptyString → Server.ALLOWED_BASE_PATH proc ≠ EmptyString.
Proof.
  intros Hcwd. unfold Server.ALLOWED_BASE_PATH.
  destruct (Process.env_MCP_FILE_BASE_PATH proc) as [s|]; [|done].
  destruct s; done.
Qed.

(** What an accepted path looks like, in segments. *)
Lemma accepted_segments (proc : Process.t) (inputPath safePath : string) :
  Path.isAbsolute (Process.cwd proc) = true →
  Server.validatePath proc inputPath = Js.Return safePath →
  ∃ segs below,
    Forall properSegment segs
    ∧ safePath = "/" +:+ Segments.joinSegments segs
    ∧ safePath = Path.resolve (Process.cwd proc) [Server.ALLOWED_BASE_PATH proc; inputPath]
    ∧ Path.isAbsolute (Server.ALLOWED_BASE_PATH proc) = true
    ∧ segs = rootSegments (Server.ALLOWED_BASE_PATH proc) ++ below.
Proof.
  intros Hcwd. rewrite validatePath_unfold. cbv zeta.
  set (root := Server.ALLOWED_BASE_PATH proc).
  destruct (resolve_form (Process.cwd proc) [root; inputPath] Hcwd) as (segs & Hsegs & Hres).
  rewrite Hres, normalize_abs_id by done.
  assert (Hne : root ≠ EmptyString).
  { apply ALLOWED_BASE_PATH_nonempty. by destruct (Process.cwd proc). }
  destruct (Path.isAbsolute root) eqn:Habs.
  - rewrite normalize_root_sep, normalize_root by done.
    pose proof (rootSegments_proper root) as Hroot.
    destruct (rootSegments root) as [|x r] eqn:E.
    + assert (Str.startsWith ("/" +:+ Segments.joinSegments segs)
                ("/" +:+ Segments.joinSegments [] +:+ EmptyString) = true) as ->
        by apply prefix_app.
      simpl. intros [= <-]. by exists segs, segs.
    + destruct (Str.startsWith _ _) eqn:Hstart.
      * simpl. intros [= <-].
        apply startsWith_segments in Hstart as (below & _ & ->); [|done..].
        by exists ((x :: r) ++ below), below.
      * simpl. case_bool_decide as Heq; simpl; [|done]. intros [= <-].
        destruct (Str.lastIs _ root).
        { injection Heq as Heq. apply (f_equal (Str.lastIs Path.CHAR_FORWARD_SLASH)) in Heq.
          rewrite lastIs_app in Heq by done.
          destruct segs as [|y segs'].
          - done.
          - rewrite join_proper_last in Heq; done. }
        rewrite sapp_nil_r in Heq. injection Heq as Heq.
        destruct segs as [|y segs'].
        { symmetry in Heq. by destruct (join_proper_nonempty (x :: r) Hroot). }
        apply (f_equal Segments.split) in Heq.
        rewrite !split_join in Heq by (by apply proper_slashFree || done).
        exists (y :: segs'), []. by rewrite List.app_nil_r.
  - destruct (relative_root_rejects root ("/" +:+ Segments.joinSegments segs) Hne Habs eq_refl)
      as [-> Hneq].
    rewrite bool_decide_eq_false_2 by done. done.
Qed.

(** The only error [validatePath] throws. *)
Lemma validatePath_throws (proc : Process.t) (inputPath : string) (e : Js.error) :
  Server.validatePath proc inputPath = Js.Throw e → e = Server.accessDenied inputPath.
Proof.
  rewrite validatePath_unfold. cbv zeta.
  destruct (_ && _); congruence.
Qed.

(** An accepted path is the root directory or lies below it. *)
Lemma accepted_within (proc : Process.t) (inputPath safePath : string) :
  Path.isAbsolute (Process.cwd proc) = true →
  Server.validatePath proc inputPath = Js.Return safePath →
  within (rootDirectory proc) safePath.
Proof.
  intros Hcwd Hv.
  destruct (accepted_segments _ _ _ Hcwd Hv)
    as (segs & below & Hsegs & -> & _ & Habs & ->).
  unfold within, rootDirectory.
  rewrite resolve_root by done.
  rewrite !components_abs_join by (done || apply rootSegments_proper).
  repeat split; [done..|].
  destruct below as [|b below]; [left; by rewrite List.app_nil_r | right].
  by exists (b :: below).
Qed.

End Containment.

(** C1 (containment invariant).  In a process whose working directory is
    absolute, [validatePath] either throws the access-denied error or returns
    a normalized absolute path (no empty, [.] or [..] component survives)
    that is the root directory itself or lies strictly below it, whatever
    [..] segments, leading separators or repeated separators the input
    holds. *)
Theorem validatePath_contained (proc : Process.t) (inputPath : string) :
  Path.isAbsolute (Process.cwd proc) = true →
  Server.validatePath proc inputPath = Js.Throw (Server.accessDenied inputPath)
  ∨ ∃ safePath,
      Server.validatePath proc inputPath = Js.Return safePath
      ∧ within (rootDirectory proc) safePath.
Proof.
  intros Hcwd.
  destruct (Server.validatePath proc inputPath) as [safePath|e] eqn:Hv.
  - right. exists safePath. split; [done|]. by apply (Containment.accepted_within _ inputPath).
  - left. by rewrite (Containment.validatePath_throws _ _ _ Hv).
Qed.

Lemma validatePath_contained_witness :
  Server.validatePath sandbox "docs/../../sandbox//notes.txt"
  = Js.Throw (Server.accessDenied "docs/../../sandbox//notes.txt")
  ∨ ∃ safePath,
      Server.validatePath sandbox "docs/../../sandbox//notes.txt" = Js.Return safePath
      ∧ within (rootDirectory sandbox) safePath.
Proof. exact (validatePath_contained sandbox "docs/../../sandbox//notes.txt" eq_refl). Defined.

Example validatePath_examples :
  Server.validatePath sandbox "docs/../../sandbox//notes.txt" = Js.Return "/sandbox/notes.txt"
  ∧ Server.validatePath sandbox "../../etc" = Js.Throw (Server.accessDenied "../../etc")
  ∧ Server.validatePath sandbox "/etc/passwd" = Js.Throw (Server.accessDenied "/etc/passwd")
  ∧ Server.validatePath sandbox "../sandboxed" = Js.Throw (Server.accessDenied "../sandboxed")
  ∧ Server.validatePath sandbox "." = Js.Return "/sandbox"
  ∧ Server.validatePath sandbox "" = Js.Return "/sandbox".
Proof. repeat split; vm_compute; reflexivity. Qed.

(** ** Inputs that look absolute *)

Lemma resolve_absolute_input (cwd root inputPath : string) :
  Path.isAbsolute inputPath = true →
  Path.resolve cwd [root; inputPath] = Path.resolve cwd [inputPath].
Proof.
  intros Habs. destruct inputPath as [|c s]; [done|].
  unfold Path.isAbsolute in Habs. unfold Path.resolve.
  change (rev [root; String c s] ++ [cwd]) with [String c s; root; cwd].
  change (rev [String c s] ++ [cwd]) with [String c s; cwd].
  unfold Path.resolveLoop. change (Str.isEmpty (String c s)) with false.
  cbv iota. by rewrite Habs.
Qed.

(** C2, as stated, fails: an input that starts with the separator is not
    joined with the root.  Under the root [/sandbox], [/etc/passwd] resolves
    to [/etc/passwd], not to what joining gives, [/sandbox/etc/passwd]; and
    [validatePath] denies it, while the joined path would be accepted. *)
Lemma absolute_input_not_joined :
  Path.resolve (Process.cwd sandbox) [Server.ALLOWED_BASE_PATH sandbox; "/etc/passwd"]
    = "/etc/passwd"
  ∧ Path.join [Server.ALLOWED_BASE_PATH sandbox; "/etc/passwd"] = "/sandbox/etc/passwd"
  ∧ Server.validatePath sandbox "/etc/passwd" = Js.Throw (Server.accessDenied "/etc/passwd")
  ∧ ¬ (∀ proc inputPath,
         Path.isAbsolute inputPath = true →
         Path.resolve (Process.cwd proc) [Server.ALLOWED_BASE_PATH proc; inputPath]
         = Path.join [Server.ALLOWED_BASE_PATH proc; inputPath]).
Proof.
  repeat split; try (vm_compute; reflexivity).
  intros H. specialize (H sandbox "/etc/passwd" eq_refl). vm_compute in H. discriminate.
Qed.

(** C2, amended.  An input that starts with the separator is resolved as
    an absolute path of its own: whatever the root is, the resolution is that
    of the input alone.  [validatePath] returns this path when it is the root
    directory or lies below it, and throws the access-denied error
    otherwise. *)
Theorem absolute_input_independent (proc : Process.t) (inputPath : string) :
  Path.isAbsolute (Process.cwd proc) = true →
  Path.isAbsolute inputPath = true →
  (∀ root, Path.resolve (Process.cwd proc) [root; inputPath]
           = Path.resolve (Process.cwd proc) [inputPath])
  ∧ (Server.validatePath proc inputPath = Js.Throw (Server.accessDenied inputPath)
     ∨ Server.validatePath proc inputPath
         = Js.Return (Path.resolve (Process.cwd proc) [inputPath])
       ∧ within (rootDirectory proc) (Path.resolve (Process.cwd proc) [inputPath])).
Proof.
  intros Hcwd Habs. split; [intros root; by apply resolve_absolute_input|].
  destruct (Server.validatePath proc inputPath) as [safePath|e] eqn:Hv.
  - right.
    pose proof (Containment.accepted_within _ _ _ Hcwd Hv) as Hin.
    destruct (Containment.accepted_segments _ _ _ Hcwd Hv) as (_ & _ & _ & _ & Hres & _).
    rewrite resolve_absolute_input in Hres by done. by subst safePath.
  - left. by rewrite (Containment.validatePath_throws _ _ _ Hv).
Qed.

Lemma absolute_input_independent_witness :
  (∀ root, Path.resolve "/home/user" [root; "/sandbox/docs/"]
           = Path.resolve "/home/user" ["/sandbox/docs/"])
  ∧ (Server.validatePath sandbox "/sandbox/docs/"
       = Js.Throw (Server.accessDenied "/sandbox/docs/")
     ∨ Server.validatePath sandbox "/sandbox/docs/"
         = Js.Return (Path.resolve "/home/user" ["/sandbox/docs/"])
       ∧ within (rootDirectory sandbox) (Path.resolve "/home/user" ["/sandbox/docs/"])).
Proof. exact (absolute_input_independent sandbox "/sandbox/docs/" eq_refl eq_refl). Defined.

(** On POSIX a drive prefix is an ordinary name: such an input is relative
    and lands below the root. *)
Example drive_prefix_is_relative :
  Path.isAbsolute "C:/Windows" = false
  ∧ Server.validatePath sandbox "C:/Windows" = Js.Return "/sandbox/C:/Windows".
Proof. split; vm_compute; reflexivity. Qed.

(** ** The reference algorithm of the specification *)

Module ReferenceFacts.
Import StrFacts PathFacts.

Local Arguments String.append !_ _ / : simpl nomatch.
Local Arguments Segments.joinSegments : simpl never.

(** No absolute path begins with a relative one. *)
Lemma relative_prefix (rest relative tail : string) :
  relative ≠ EmptyString → Path.isAbsolute relative = false →
  Str.startsWith ("/" +:+ rest) (relative +:+ tail) = false.
Proof.
  intros Hne Hrel. destruct relative as [|c r]; [done|].
  unfold Str.startsWith. cbn [String.append].
  change ("/" +:+ rest) with (String "/" rest).
  rewrite prefix_cons. unfold Path.isAbsolute, Str.firstIs in Hrel.
  rewrite bool_decide_eq_false_2; [done|]. intros ->. by rewrite Ascii.eqb_refl in Hrel.
Qed.

(** With a relative root the reference rejects every absolute path. *)
Lemma reference_relative_root (root : string) (segs : list string) :
  root ≠ EmptyString → Path.isAbsolute root = false →
  bool_decide ("/" +:+ Segments.joinSegments segs = Path.normalize root)
  || Str.startsWith ("/" +:+ Segments.joinSegments segs) (Path.normalize root +:+ Path.sep)
  = false.
Proof.
  intros Hne Hrel. apply orb_false_iff. split.
  - apply bool_decide_eq_false. intros Heq.
    apply (f_equal Path.isAbsolute) in Heq. rewrite isAbsolute_normalize, Hrel in Heq. done.
  - apply relative_prefix; [apply normalize_nonempty|].
    by rewrite isAbsolute_normalize.
Qed.

(** The prefix the code compares with and the one of the reference, for an
    absolute root. *)
Lemma prefixes_of_root (root : string) :
  Path.isAbsolute root = true →
  Path.normalize root +:+ Path.sep
  = Path.normalize (root +:+ Path.sep)
    +:+ (if rootSegments root is [] then "/"
         else if Str.lastIs Path.CHAR_FORWARD_SLASH root then "/" else EmptyString).
Proof.
  intros Habs. rewrite normalize_root_sep, normalize_root by done.
  destruct (rootSegments root) as [|x r].
  - by rewrite !sapp_nil_r.
  - destruct (Str.lastIs _ root); unfold Path.sep; by rewrite ?sapp_nil_r, !sapp_assoc.
Qed.

(** [validatePath] accepts what the reference accepts. *)
Lemma reference_accepted_is_accepted (proc : Process.t) (inputPath : string) :
  Path.isAbsolute (Process.cwd proc) = true →
  referenceAccepts proc inputPath = true →
  accepts (Server.validatePath proc inputPath) = true.
Proof.
  intros Hcwd. rewrite Containment.validatePath_unfold. unfold referenceAccepts. cbv zeta.
  set (root := Server.ALLOWED_BASE_PATH proc).
  destruct (resolve_form (Process.cwd proc) [root; inputPath] Hcwd) as (segs & Hsegs & ->).
  rewrite normalize_abs_id by done.
  assert (Hne : root ≠ EmptyString).
  { apply Containment.ALLOWED_BASE_PATH_nonempty. by destruct (Process.cwd proc). }
  destruct (Path.isAbsolute root) eqn:Habs.
  - intros [Heq|Hpre]%orb_true_iff.
    + rewrite Heq. by rewrite andb_false_r.
    + rewrite prefixes_of_root in Hpre by done.
      apply prefix_spec in Hpre as [r Hr]. rewrite sapp_assoc in Hr.
      assert (Str.startsWith ("/" +:+ Segments.joinSegments segs)
                (Path.normalize (root +:+ Path.sep)) = true) as ->
        by (rewrite Hr; apply prefix_app).
      done.
  - by rewrite reference_relative_root.
Qed.

End ReferenceFacts.

(** C3, as stated, fails for a root written with a trailing separator and
    for the root [/]: there the code accepts what lies below the root, while
    the normalized root followed by a separator holds two separators and is
    the beginning of no normalized path, so that the reference accepts no
    more than the root itself. *)
Lemma reference_differs_at_slashed_root :
  Path.normalize (Server.ALLOWED_BASE_PATH sandboxSlash) +:+ Path.sep = "/sandbox//"
  ∧ accepts (Server.validatePath sandboxSlash "notes.txt") = true
  ∧ referenceAccepts sandboxSlash "notes.txt" = false
  ∧ Path.normalize (Server.ALLOWED_BASE_PATH wholeFileSystem) +:+ Path.sep = "//"
  ∧ accepts (Server.validatePath wholeFileSystem "etc/passwd") = true
  ∧ referenceAccepts wholeFileSystem "etc/passwd" = false
  ∧ ¬ (∀ proc inputPath,
         accepts (Server.validatePath proc inputPath) = referenceAccepts proc inputPath).
Proof.
  repeat split; try (vm_compute; reflexivity).
  intros H. specialize (H sandboxSlash "notes.txt"). vm_compute in H. discriminate.
Qed.

(** C3, amended.  For a root that is a relative path, or that is written
    without a trailing separator and does not stand for [/], [validatePath]
    accepts exactly the inputs the reference algorithm accepts, returning the
    resolved path for them and throwing the access-denied error for the
    others; the reference does not look at the raw input, so the test on the
    substring [..] changes nothing. *)
Theorem validatePath_refines_reference (proc : Process.t) (inputPath : string) :
  Path.isAbsolute (Process.cwd proc) = true →
  Path.isAbsolute (Server.ALLOWED_BASE_PATH proc) = false
  ∨ (Str.lastIs Path.CHAR_FORWARD_SLASH (Server.ALLOWED_BASE_PATH proc) = false
     ∧ rootDirectory proc ≠ "/") →
  accepts (Server.validatePath proc inputPath) = referenceAccepts proc inputPath
  ∧ Server.validatePath proc inputPath
    = if referenceAccepts proc inputPath
      then Js.Return (Path.resolve (Process.cwd proc)
                        [Server.ALLOWED_BASE_PATH proc; inputPath])
      else Js.Throw (Server.accessDenied inputPath).
Proof.
  intros Hcwd Hroot.
  assert (Hsame : referenceAccepts proc inputPath
    = negb (negb (Str.startsWith
                    (Path.normalize (Path.resolve (Process.cwd proc)
                       [Server.ALLOWED_BASE_PATH proc; inputPath]))
                    (Path.normalize (Server.ALLOWED_BASE_PATH proc +:+ Path.sep)))
            && negb (bool_decide
                 (Path.normalize (Path.resolve (Process.cwd proc)
                    [Server.ALLOWED_BASE_PATH proc; inputPath])
                  = Path.normalize (Server.ALLOWED_BASE_PATH proc))))).
  { unfold referenceAccepts. cbv zeta.
    set (root := Server.ALLOWED_BASE_PATH proc) in *.
    destruct (Path.isAbsolute root) eqn:Habs.
    2:{ pose proof Habs as Hrel. clear Hroot.
        destruct (PathFacts.resolve_form (Process.cwd proc) [root; inputPath] Hcwd)
          as (segs & Hsegs & ->).
        rewrite PathFacts.normalize_abs_id by done.
        assert (Hne : root ≠ EmptyString).
        { apply Containment.ALLOWED_BASE_PATH_nonempty. by destruct (Process.cwd proc). }
        rewrite ReferenceFacts.reference_relative_root by done.
        destruct (Containment.relative_root_rejects root ("/" +:+ Segments.joinSegments segs)
                    Hne Hrel eq_refl) as [-> Hneq].
        by rewrite bool_decide_eq_false_2. }
    destruct Hroot as [Hrel | [Hlast Hnotslash]]; [done|].
    rewrite ReferenceFacts.prefixes_of_root by done.
    unfold rootDirectory in Hnotslash. fold root in Hnotslash.
    rewrite PathFacts.resolve_root in Hnotslash by done.
    destruct (rootSegments root) as [|x r]; [done|].
    rewrite Hlast, StrFacts.sapp_nil_r.
    by destruct (Str.startsWith _ _); destruct (bool_decide _). }
  rewrite Containment.validatePath_unfold. cbv zeta. rewrite Hsame.
  by destruct (_ && _).
Qed.

Lemma validatePath_refines_reference_witness :
  accepts (Server.validatePath sandbox "docs/../../sandboxed")
  = referenceAccepts sandbox "docs/../../sandboxed"
  ∧ Server.validatePath sandbox "docs/../../sandboxed"
    = if referenceAccepts sandbox "docs/../../sandboxed"
      then Js.Return (Path.resolve (Process.cwd sandbox)
                        [Server.ALLOWED_BASE_PATH sandbox; "docs/../../sandboxed"])
      else Js.Throw (Server.accessDenied "docs/../../sandboxed").
Proof.
  apply (validatePath_refines_reference sandbox "docs/../../sandboxed" eq_refl).
  right. split; [reflexivity|]. vm_compute. discriminate.
Defined.

(** For a root written as a normalized absolute path other than [/], the
    prefix the reference compares with is literally the normalized root
    followed by one separator. *)
Lemma root_with_separator (segs : list string) :
  Forall properSegment segs → segs ≠ [] →
  Path.normalize (("/" +:+ Segments.joinSegments segs) +:+ Path.sep)
  = Path.normalize ("/" +:+ Segments.joinSegments segs) +:+ Path.sep.
Proof.
  intros Hsegs Hne.
  assert (Hroot : rootSegments ("/" +:+ Segments.joinSegments segs) = segs).
  { unfold rootSegments.
    rewrite PathFacts.split_abs, PathFacts.normalizeSegments_empty_l.
    rewrite PathFacts.split_join by (by apply PathFacts.proper_slashFree || done).
    by apply PathFacts.normalizeSegments_id. }
  rewrite PathFacts.normalize_root_sep by done.
  rewrite PathFacts.normalize_abs_id by done.
  rewrite Hroot. destruct segs; [done|]. by rewrite !StrFacts.sapp_assoc.
Qed.

(** * The handlers and the dispatcher *)

(** The [switch] of the dispatcher either runs the method the request is
    entitled to or throws an error of its own, which has no [code]. *)
Lemma callToolBody_entitled {W : Type} (this : Handlers.t W)
    (name : string) (args : option (gmap string Js.value)) :
  match entitled name args with
  | Some i =>
      Server.callToolBody this name args = invoke this i
      ∧ Server.stringArg args "path" = Some (pathOf i)
  | None => ∃ m, Server.callToolBody this name args = Js.throw (Js.Error m)
  end.
Proof.
  unfold entitled, Server.callToolBody, catalogue.
  destruct (decide (name = "list_directory")) as [->|H1].
  { simpl. by destruct (Server.stringArg args "path"); [|eexists]. }
  destruct (decide (name = "read_file")) as [->|H2].
  { simpl. by destruct (Server.stringArg args "path"); [|eexists]. }
  destruct (decide (name = "write_file")) as [->|H3].
  { simpl. destruct (Server.stringArg args "path"); [|by eexists].
    by destruct (Server.stringArg args "content"); [|eexists]. }
  destruct (decide (name = "create_directory")) as [->|H4].
  { simpl. by destruct (Server.stringArg args "path"); [|eexists]. }
  destruct (decide (name = "delete_item")) as [->|H5].
  { simpl. by destruct (Server.stringArg args "path"); [|eexists]. }
  destruct (decide (name = "get_file_info")) as [->|H6].
  { simpl. by destruct (Server.stringArg args "path"); [|eexists]. }
  assert (Hnone : ∀ path,
    (λ method : string → invocation, method path)
      <$> (snd <$> List.find (λ entry, bool_decide (entry.1 = name))
             [("list_directory", ListDirectory); ("read_file", ReadFile);
              ("create_directory", CreateDirectory);
              ("delete_item", DeleteItem); ("get_file_info", GetFileInfo)]) = None).
  { intros path. unfold List.find. cbn [fst]. by rewrite !bool_decide_eq_false_2. }
  destruct (Server.stringArg args "path") as [path|] eqn:Hp.
  - rewrite Hnone. destruct (Str.isEmpty name); by eexists.
  - destruct (Str.isEmpty name); by eexists.
Qed.

Section rejected.
Context {W : Type} `{!Fs.Api W} (proc : Process.t).

(** A handler whose first step is [validatePath] stops there when the
    path is rejected. *)
Lemma rejected_at_first_step {A} (path : string) (e : Js.error)
    (rest : string → Js.M W A) (w : W) :
  Server.validatePath proc path = Js.Throw e →
  Js.bind (Js.lift (Server.validatePath proc path)) rest w = (w, Js.Throw e).
Proof. intros Hv. unfold Js.bind, Js.lift. by rewrite Hv. Qed.

(** Every method, run for a rejected path, throws and changes nothing. *)
Lemma rejected_invoke (i : invocation) (e : Js.error) (w : W) :
  Server.validatePath proc (pathOf i) = Js.Throw e →
  invoke (Server.methods proc) i w = (w, Js.Throw e).
Proof.
  intros Hv. destruct i; unfold invoke; methods_unfold; cbn [pathOf] in Hv;
    by apply (rejected_at_first_step _ e).
Qed.

(** So does the dispatcher, which turns the error into a response. *)
Lemma rejected_callTool (name : string) (args : option (gmap string Js.value))
    (path : string) (e : Js.error) (w : W) :
  Server.stringArg args "path" = Some path →
  Server.validatePath proc path = Js.Throw e →
  ∃ text, Server.callTool (Server.methods proc) name args w
          = (w, Js.Return (Response.ofText text)).
Proof.
  intros Hpath Hv. unfold Server.callTool, Js.tryCatch.
  pose proof (callToolBody_entitled (Server.methods proc) name args) as Hbody.
  destruct (entitled name args) as [i|].
  - destruct Hbody as [-> Hi]. rewrite Hpath in Hi. injection Hi as ->.
    rewrite (rejected_invoke i e) by done. by eexists.
  - destruct Hbody as [m ->]. by eexists.
Qed.

End rejected.

(** C6.  When [validatePath] rejects the path, each of the six handlers
    throws what [validatePath] threw and hands back the world it was given:
    whatever the implementation of the storage calls is, none of them has run.
    The same holds through the dispatcher, for every tool name and every
    argument bag carrying that path. *)
Theorem rejected_path_reaches_no_storage
    {W : Type} `{!Fs.Api W} (proc : Process.t) (path : string) (e : Js.error) (w : W) :
  Server.validatePath proc path = Js.Throw e →
  Server.listDirectory proc path w = (w, Js.Throw e)
  ∧ Server.readFile proc path w = (w, Js.Throw e)
  ∧ (∀ content, Server.writeFile proc path content w = (w, Js.Throw e))
  ∧ Server.createDirectory proc path w = (w, Js.Throw e)
  ∧ Server.deleteItem proc path w = (w, Js.Throw e)
  ∧ Server.getFileInfo proc path w = (w, Js.Throw e)
  ∧ (∀ name args,
       Server.stringArg args "path" = Some path →
       ∃ text, Server.callTool (Server.methods proc) name args w
               = (w, Js.Return (Response.ofText text))).
Proof.
  intros Hv. repeat split.
  - by apply (rejected_invoke proc (ListDirectory path)).
  - by apply (rejected_invoke proc (ReadFile path)).
  - intros content. by apply (rejected_invoke proc (WriteFile path content)).
  - by apply (rejected_invoke proc (CreateDirectory path)).
  - by apply (rejected_invoke proc (DeleteItem path)).
  - by apply (rejected_invoke proc (GetFileInfo path)).
  - intros name args Hpath. by apply (rejected_callTool proc name args path e).
Qed.

Lemma rejected_path_reaches_no_storage_witness :
  let w := MemFs.emptySandbox in
  let e := Server.accessDenied "../../etc" in
  Server.listDirectory sandbox "../../etc" w = (w, Js.Throw e)
  ∧ Server.readFile sandbox "../../etc" w = (w, Js.Throw e)
  ∧ (∀ content, Server.writeFile sandbox "../../etc" content w = (w, Js.Throw e))
  ∧ Server.createDirectory sandbox "../../etc" w = (w, Js.Throw e)
  ∧ Server.deleteItem sandbox "../../etc" w = (w, Js.Throw e)
  ∧ Server.getFileInfo sandbox "../../etc" w = (w, Js.Throw e)
  ∧ (∀ name args,
       Server.stringArg args "path" = Some "../../etc" →
       ∃ text, Server.callTool (Server.methods sandbox) name args w
               = (w, Js.Return (Response.ofText text))).
Proof.
  exact (rejected_path_reaches_no_storage sandbox "../../etc"
           (Server.accessDenied "../../etc") MemFs.emptySandbox eq_refl).
Defined.

(** In the in-memory file system, whose every call is recorded, a rejected
    request leaves the record of calls as it was. *)
Lemma rejected_path_leaves_no_trace (proc : Process.t) (name : string)
    (args : option (gmap string Js.value)) (path : string) (e : Js.error) (w : MemFs.t) :
  Server.stringArg args "path" = Some path →
  Server.validatePath proc path = Js.Throw e →
  MemFs.trace (Server.callTool (Server.methods proc) name args w).1 = MemFs.trace w.
Proof.
  intros Hpath Hv.
  by destruct (rejected_callTool proc name args path e w Hpath Hv) as [text ->].
Qed.

(** ** Which handler the dispatcher invokes *)

(** C5.  Whatever the six methods do, a call of the dispatcher invokes
    exactly the one method the request is entitled to, with the arguments of
    the request, when the name is known and the required arguments are
    strings; otherwise it invokes none, leaves the world alone and answers
    with an error text.  So no call invokes more than one method. *)
Theorem callTool_invokes_entitled {W : Type} (this : Handlers.t W)
    (name : string) (args : option (gmap string Js.value)) (w : W) (log : list invocation) :
  match entitled name args with
  | Some i =>
      ∃ w' o, Server.callTool (observed this) name args (w, log) = ((w', log ++ [i]), o)
  | None =>
      ∃ e, Server.callTool (observed this) name args (w, log)
           = ((w, log), Js.Return (Response.ofText (Server.errorText name e)))
  end.
Proof.
  unfold entitled, Server.callTool, Js.tryCatch, Server.callToolBody, catalogue.
  destruct (decide (name = "list_directory")) as [->|H1].
  { vm_compute Str.isEmpty. cbv iota. simpl.
    destruct (Server.stringArg args "path") as [path|]; [|by eexists].
    simpl. destruct (Handlers.listDirectory this path w) as [? []]; by repeat eexists. }
  destruct (decide (name = "read_file")) as [->|H2].
  { simpl. destruct (Server.stringArg args "path") as [path|]; [|by eexists].
    simpl. destruct (Handlers.readFile this path w) as [? []]; by repeat eexists. }
  destruct (decide (name = "write_file")) as [->|H3].
  { simpl. destruct (Server.stringArg args "path") as [path|]; [|by eexists].
    destruct (Server.stringArg args "content") as [content|]; [|by eexists].
    simpl. destruct (Handlers.writeFile this path content w) as [? []]; by repeat eexists. }
  destruct (decide (name = "create_directory")) as [->|H4].
  { simpl. destruct (Server.stringArg args "path") as [path|]; [|by eexists].
    simpl. destruct (Handlers.createDirectory this path w) as [? []]; by repeat eexists. }
  destruct (decide (name = "delete_item")) as [->|H5].
  { simpl. destruct (Server.stringArg args "path") as [path|]; [|by eexists].
    simpl. destruct (Handlers.deleteItem this path w) as [? []]; by repeat eexists. }
  destruct (decide (name = "get_file_info")) as [->|H6].
  { simpl. destruct (Server.stringArg args "path") as [path|]; [|by eexists].
    simpl. destruct (Handlers.getFileInfo this path w) as [? []]; by repeat eexists. }
  assert (Hnone : match Server.stringArg args "path" with
                  | Some path =>
                      (λ method : string → invocation, method path)
                        <$> (snd <$> List.find (λ entry, bool_decide (entry.1 = name))
                               [("list_directory", ListDirectory); ("read_file", ReadFile);
                                ("create_directory", CreateDirectory);
                                ("delete_item", DeleteItem); ("get_file_info", GetFileInfo)])
                  | None => None
                  end = None).
  { destruct (Server.stringArg args "path"); [|done].
    unfold List.find. cbn [fst]. by rewrite !bool_decide_eq_false_2. }
  destruct (Server.stringArg args "path") as [path|] eqn:Hp.
  - rewrite Hnone. destruct (Str.isEmpty name); by eexists.
  - destruct (Str.isEmpty name); by eexists.
Qed.

(** A request is entitled to a call exactly when its name is one of the six
    and its required arguments are strings. *)
Lemma entitled_iff (name : string) (args : option (gmap string Js.value)) :
  is_Some (entitled name args)
  ↔ name ∈ toolNames
    ∧ is_Some (Server.stringArg args "path")
    ∧ (name = "write_file" → is_Some (Server.stringArg args "content")).
Proof.
  unfold entitled, catalogue, toolNames.
  destruct (Server.stringArg args "path") as [path|];
    [|split; [by intros [] | by intros (_ & [] & _)]].
  destruct (decide (name = "write_file")) as [->|Hw].
  { destruct (Server.stringArg args "content"); simpl.
    - split; [intros _ | by eexists]. repeat split; [set_solver | by eexists | by eexists].
    - split; [by intros [] | intros (_ & _ & Hc)]. by destruct Hc. }
  unfold List.find. cbn [fst snd].
  repeat (case_bool_decide;
    [ subst name; simpl; split; [intros _ | by eexists];
      repeat split; [set_solver | by eexists | done] | ]).
  simpl. split; [by intros [? ?]|]. intros (Hin & _). exfalso.
  repeat (apply elem_of_cons in Hin as [->|Hin]; [done|]). by apply elem_of_nil in Hin.
Qed.

Example dispatch_examples :
  let quiet : Handlers.t unit :=
    {| Handlers.listDirectory := λ _, Js.ret (Response.ofText "listed");
       Handlers.readFile := λ _, Js.ret (Response.ofText "read");
       Handlers.writeFile := λ _ _, Js.ret (Response.ofText "written");
       Handlers.createDirectory := λ _, Js.ret (Response.ofText "created");
       Handlers.deleteItem := λ _, Js.throw (Js.Error "busy");
       Handlers.getFileInfo := λ _, Js.ret (Response.ofText "info") |} in
  let run name args := Server.callTool (observed quiet) name (Some (list_to_map args)) (tt, []) in
  run "write_file" [("path", Js.VStr "a"); ("content", Js.VStr "b")]
    = ((tt, [WriteFile "a" "b"]), Js.Return (Response.ofText "written"))
  ∧ run "write_file" [("path", Js.VStr "a"); ("content", Js.VNum 1)]
    = ((tt, []), Js.Return (Response.ofText
         "Error processing tool 'write_file': Missing or invalid 'path' or 'content' argument for write_file"))
  ∧ run "delete_item" [("path", Js.VStr "a")]
    = ((tt, [DeleteItem "a"]), Js.Return (Response.ofText "Error processing tool 'delete_item': busy"))
  ∧ run "move_file" [("path", Js.VStr "a")]
    = ((tt, []), Js.Return (Response.ofText "Error processing tool 'move_file': Unknown tool: move_file"))
  ∧ run "read_file" [("path", Js.VNull)]
    = ((tt, []), Js.Return (Response.ofText
         "Error processing tool 'read_file': Missing or invalid 'path' argument for read_file"))
  ∧ Server.callTool (observed quiet) "read_file" None (tt, [])
    = ((tt, []), Js.Return (Response.ofText
         "Error processing tool 'read_file': Missing or invalid 'path' argument for read_file"))
  ∧ run "" [("path", Js.VStr "a")]
    = ((tt, []), Js.Return (Response.ofText
         "Error processing tool 'unknown tool': Tool name is missing or invalid.")).
Proof. repeat split; vm_compute; reflexivity. Qed.

(** ** Listing a directory *)

Section listing.
Context {W : Type} `{!Fs.Api W}.

Lemma listEntry_stat (safePath : string) (item : Dirent.t) (w : W) :
  ∃ entry,
    Server.listEntry safePath item w
    = ((Fs.stat (Path.join [safePath; Dirent.name item]) w).1, Js.Return entry)
    ∧ entryFor item (Fs.stat (Path.join [safePath; Dirent.name item]) w).2 entry.
Proof.
  unfold Server.listEntry, Js.tryCatch, Js.bind, Fs.await, Js.ret.
  destruct (Fs.stat _ w) as [w' [failure|stats]]; eexists; (split; [reflexivity|]);
    by repeat split.
Qed.

Lemma listEntries_stat (safePath : string) (items : list Dirent.t) (w : W) :
  ∃ contents,
    Js.mapM (Server.listEntry safePath) items w
    = ((statEach safePath items w).1, Js.Return contents)
    ∧ Forall3 entryFor items (statEach safePath items w).2 contents.
Proof.
  revert w. induction items as [|item rest IH]; intros w.
  - exists []. split; [done | constructor].
  - destruct (listEntry_stat safePath item w) as (entry & Hentry & Hfor).
    simpl. unfold Js.bind at 1. rewrite Hentry.
    destruct (Fs.stat _ w) as [w1 answer]. simpl in *.
    destruct (IH w1) as (contents & Hrest & Hall).
    unfold Js.bind at 1. rewrite Hrest.
    destruct (statEach safePath rest w1) as [w2 answers]. simpl in *.
    exists (entry :: contents). split; [done | by constructor].
Qed.


(** C10.  When [stat] fails for a child, its entry is made of exactly
    three fields: the name of the child, its kind as the enumeration gave it
    ([directory] or [file]) and the error marker; it has no size and no
    modification time. *)
Theorem degraded_entry_shape
    (safePath : string) (item : Dirent.t) (w w' : W) (failure : Fs.failure) :
  Fs.stat (Path.join [safePath; Dirent.name item]) w = (w', inl failure) →
  ∃ entry,
    Server.listEntry safePath item w = (w', Js.Return entry)
    ∧ entry = Js.JObj
        [("name", Js.JStr (Dirent.name item));
         ("type", Js.JStr (if Dirent.isDirectory item then "directory" else "file"));
         ("error", Js.JStr "Could not retrieve stats for this item.")]
    ∧ Js.field "size" entry = None
    ∧ Js.field "modified" entry = None.
Proof.
  intros Hstat. eexists. split; [|split; [reflexivity | by split]].
  unfold Server.listEntry, Js.tryCatch, Js.bind, Fs.await, Js.ret.
  by rewrite Hstat.
Qed.

End listing.


Lemma degraded_entry_shape_witness :
  let item := {| Dirent.name := "gone"; Dirent.isDirectory := false |} in
  ∃ entry,
    Server.listEntry "/sandbox" item listingWorld
    = (MemFs.logged (MemFs.Stat "/sandbox/gone") listingWorld, Js.Return entry)
    ∧ entry = Js.JObj
        [("name", Js.JStr "gone");
         ("type", Js.JStr "file");
         ("error", Js.JStr "Could not retrieve stats for this item.")]
    ∧ Js.field "size" entry = None
    ∧ Js.field "modified" entry = None.
Proof.
  apply (degraded_entry_shape "/sandbox" {| Dirent.name := "gone"; Dirent.isDirectory := false |}
           listingWorld (MemFs.logged (MemFs.Stat "/sandbox/gone") listingWorld)
           {| Fs.code := "ENOENT";
              Fs.message := "ENOENT: no such file or directory, stat '/sandbox/gone'" |}).
  vm_compute. reflexivity.
Defined.

Example listing_with_dangling_link :
  (call sandbox "list_directory" [("path", Js.VStr ".")] listingWorld).2
  = Js.Return (Response.ofText (Js.JSON_stringify
      (Js.JObj
         [("path", Js.JStr ".");
          ("contents", Js.JArr
             [Js.JObj [("name", Js.JStr "gone"); ("type", Js.JStr "file");
                       ("error", Js.JStr "Could not retrieve stats for this item.")];
              Js.JObj [("name", Js.JStr "a.txt"); ("type", Js.JStr "file");
                       ("size", Js.JNum 5); ("modified", Js.JStr "1970-01-01T00:00:00.000Z")];
              Js.JObj [("name", Js.JStr "docs"); ("type", Js.JStr "directory");
                       ("size", Js.JNum 4096); ("modified", Js.JStr "1970-01-01T00:00:00.000Z")]])]))).
Proof. vm_compute. reflexivity. Qed.

(** ** Writing, then reading *)

Module Utf8Facts.







End Utf8Facts.

Module MemFsFacts.


(** Every failure for a missing node is a failure. *)
Lemma notFound_inl {A} (m : gmap string MemFs.node) (syscall p : string) :
  ∃ failure, @MemFs.notFound A m syscall p = inl failure
             ∧ (Fs.code failure = "ENOENT" ∨ Fs.code failure = "ENOTDIR").
Proof.
  unfold MemFs.notFound.
  destruct (MemFs.nearestAbove _ m p) as [[]|]; eexists; split; try reflexivity; auto.
Qed.






End MemFsFacts.





(** ** Errors at the boundary *)

(** A request entitled to no call is refused with a message made from the
    tool name alone. *)
Lemma callToolBody_refused {W : Type} (this : Handlers.t W)
    (name : string) (args : option (gmap string Js.value)) :
  entitled name args = None →
  Server.callToolBody this name args = Js.throw (Js.Error (refusal name)).
Proof.
  unfold entitled, Server.callToolBody, refusal, Server.missingPath, toolNames, catalogue.
  destruct (decide (name = "list_directory")) as [->|H1].
  { cbn. by destruct (Server.stringArg args "path"). }
  destruct (decide (name = "read_file")) as [->|H2].
  { cbn. by destruct (Server.stringArg args "path"). }
  destruct (decide (name = "write_file")) as [->|H3].
  { cbn. destruct (Server.stringArg args "path"); [|done].
    by destruct (Server.stringArg args "content"). }
  destruct (decide (name = "create_directory")) as [->|H4].
  { cbn. by destruct (Server.stringArg args "path"). }
  destruct (decide (name = "delete_item")) as [->|H5].
  { cbn. by destruct (Server.stringArg args "path"). }
  destruct (decide (name = "get_file_info")) as [->|H6].
  { cbn. by destruct (Server.stringArg args "path"). }
  intros _. destruct (Str.isEmpty name); [done|].
  rewrite bool_decide_eq_false_2; [done|].
  intros Hin. repeat (apply elem_of_cons in Hin as [->|Hin]; [done|]).
  by apply elem_of_nil in Hin.
Qed.

Section own_errors.
Context {W : Type} `{!Fs.Api W} (proc : Process.t).

Lemma accessDenied_names_path (p : string) :
  Str.includes (Js.message (Server.accessDenied p)) p = true.
Proof. apply StrFacts.includes_app. Qed.

(** An error without [code] thrown by a handler was made by the handler
    itself, and its message quotes the path as the caller gave it. *)
Lemma own_error_names_path (i : invocation) (w w' : W) (m : string) :
  invoke (Server.methods proc) i w = (w', Js.Throw (Js.Error m)) →
  Str.includes m (pathOf i) = true.
Proof.
  destruct i as [p|p|p c|p|p|p]; unfold invoke; methods_unfold; cbn [pathOf].
  - unfold Server.listDirectory, Js.bind, Js.lift, Fs.await.
    destruct (Server.validatePath proc p) as [safePath|e] eqn:Hv.
    + destruct (Fs.readdir safePath w) as [w1 [failure|items]]; [done|].
      destruct (listEntries_stat safePath items w1) as (contents & -> & _). done.
    + intros [= <- ->]. apply Containment.validatePath_throws in Hv. injection Hv as ->.
      apply StrFacts.includes_app.
  - unfold Server.readFile, Js.bind, Js.lift, Fs.await.
    destruct (Server.validatePath proc p) as [safePath|e] eqn:Hv.
    + destruct (Fs.stat safePath w) as [w1 [failure|stats]]; [done|].
      destruct (Stats.isDirectory stats).
      * intros [= <- <-]. apply StrFacts.includes_app.
      * by destruct (Fs.readFile safePath w1) as [w2 [failure|content]].
    + intros [= <- ->]. apply Containment.validatePath_throws in Hv. injection Hv as ->.
      apply StrFacts.includes_app.
  - unfold Server.writeFile, Js.bind, Js.lift, Js.tryCatch, Fs.await, Js.throw, Js.ret.
    destruct (Server.validatePath proc p) as [safePath|e] eqn:Hv.
    + destruct (Fs.access (Path.dirname safePath) w) as [w1 [failure|[]]].
      { intros [= <- <-]. apply StrFacts.includes_app. }
      destruct (Fs.stat safePath w1) as [w2 [failure|stats]].
      * cbn [Js.code]. case_bool_decide; [done|].
        by destruct (Fs.writeFile safePath c w2) as [w3 [failure'|[]]].
      * destruct (Stats.isDirectory stats).
        { cbn [Js.code]. rewrite bool_decide_eq_true_2 by done.
          intros [= <- <-]. apply StrFacts.includes_app. }
        by destruct (Fs.writeFile safePath c w2) as [w3 [failure'|[]]].
    + intros [= <- ->]. apply Containment.validatePath_throws in Hv. injection Hv as ->.
      apply StrFacts.includes_app.
  - unfold Server.createDirectory, Js.bind, Js.lift, Fs.await.
    destruct (Server.validatePath proc p) as [safePath|e] eqn:Hv.
    + by destruct (Fs.mkdir safePath w) as [w1 [failure|[]]].
    + intros [= <- ->]. apply Containment.validatePath_throws in Hv. injection Hv as ->.
      apply StrFacts.includes_app.
  - unfold Server.deleteItem, Js.bind, Js.lift, Fs.await.
    destruct (Server.validatePath proc p) as [safePath|e] eqn:Hv.
    + destruct (Fs.stat safePath w) as [w1 [failure|stats]]; [done|].
      destruct (Stats.isDirectory stats).
      * by destruct (Fs.rm safePath w1) as [w2 [failure|[]]].
      * by destruct (Fs.unlink safePath w1) as [w2 [failure|[]]].
    + intros [= <- ->]. apply Containment.validatePath_throws in Hv. injection Hv as ->.
      apply StrFacts.includes_app.
  - unfold Server.getFileInfo, Js.bind, Js.lift, Fs.await.
    destruct (Server.validatePath proc p) as [safePath|e] eqn:Hv.
    + by destruct (Fs.stat safePath w) as [w1 [failure|stats]].
    + intros [= <- ->]. apply Containment.validatePath_throws in Hv. injection Hv as ->.
      apply StrFacts.includes_app.
Qed.

End own_errors.

(** C4, as stated, fails: an error response need not quote the caller's
    path.  A [write_file] request with the path [notes.txt] and a number as
    content is answered by an error text in which [notes.txt] does not
    occur; so is a request for an unknown tool; and a [read_file] request
    for [./missing.txt] is answered with the message of the failed [stat],
    which names the resolved path and in which [./missing.txt] does not
    occur. *)
Lemma error_response_without_path :
  let invalid := [("path", Js.VStr "notes.txt"); ("content", Js.VNum 42)] in
  let text := "Error processing tool 'write_file': Missing or invalid 'path' or 'content' argument for write_file" in
  let storage := "Error processing tool 'read_file': ENOENT: no such file or directory, stat '/sandbox/missing.txt'" in
  Server.stringArg (Some (list_to_map invalid)) "path" = Some "notes.txt"
  ∧ call sandbox "write_file" invalid MemFs.emptySandbox
    = (MemFs.emptySandbox, Js.Return (Response.ofText text))
  ∧ Str.includes text "notes.txt" = false
  ∧ call sandbox "move_file" [("path", Js.VStr "notes.txt")] MemFs.emptySandbox
    = (MemFs.emptySandbox,
       Js.Return (Response.ofText "Error processing tool 'move_file': Unknown tool: move_file"))
  ∧ (call sandbox "read_file" [("path", Js.VStr "./missing.txt")] MemFs.emptySandbox).2
    = Js.Return (Response.ofText storage)
  ∧ Str.includes storage "./missing.txt" = false.
Proof. repeat split; vm_compute; reflexivity. Qed.

(** C4, amended.  A call of the dispatcher always returns a response and
    never throws.  When the [try] block threw, the response is the single
    text [Error processing tool '<name>': <message>], which names the
    operation ([unknown tool] for an empty name) and carries the message of
    the error.  When the error was made by a handler itself (it has no
    [code]: access denied, a directory where a file is wanted, a missing
    parent directory), the text also quotes the path as the caller gave it.
    When the request is entitled to no call (missing name, unknown tool,
    missing or invalid argument), the error is the dispatcher's own, its
    message is made from the tool name alone and the storage is as it was;
    the error of a storage call is reported with the message it came with. *)
Theorem callTool_reports_errors {W : Type} `{!Fs.Api W} (proc : Process.t)
    (name : string) (args : option (gmap string Js.value)) (w : W) :
  match Server.callToolBody (Server.methods proc) name args w with
  | (w', Js.Return response) =>
      Server.callTool (Server.methods proc) name args w = (w', Js.Return response)
  | (w', Js.Throw e) =>
      let text :=
        "Error processing tool '" +:+ Server.shownName name +:+ "': " +:+ Js.message e in
      Server.callTool (Server.methods proc) name args w
        = (w', Js.Return (Response.ofText text))
      ∧ Str.includes text (Server.shownName name) = true
      ∧ Str.includes text (Js.message e) = true
      ∧ (∀ path, Server.stringArg args "path" = Some path →
                 is_Some (entitled name args) → Js.code e = None →
                 Str.includes text path = true)
      ∧ (entitled name args = None → e = Js.Error (refusal name) ∧ w' = w)
  end.
Proof.
  unfold Server.callTool, Js.tryCatch.
  destruct (Server.callToolBody (Server.methods proc) name args w) as [w' [r|e]] eqn:Hbody;
    [done|].
  cbv zeta. split; [done|]. split; [|split; [|split]].
  - apply StrFacts.includes_app.
  - rewrite <- !StrFacts.sapp_assoc. apply StrFacts.includes_app_r.
  - intros path Hpath [i Hi] Hcode.
    pose proof (callToolBody_entitled (Server.methods proc) name args) as Hent.
    rewrite Hi in Hent. destruct Hent as [Hrun Hpi].
    rewrite Hrun in Hbody. rewrite Hpath in Hpi. injection Hpi as ->.
    destruct e as [m|c m]; [|done].
    apply own_error_names_path in Hbody. cbn [Js.message].
    rewrite <- !StrFacts.sapp_assoc.
    destruct (proj1 (StrFacts.includes_spec _ _) Hbody) as (a & b & ->).
    rewrite <- StrFacts.sapp_assoc. apply StrFacts.includes_app.
  - intros Hnone. rewrite (callToolBody_refused _ _ _ Hnone) in Hbody.
    by injection Hbody as <- <-.
Qed.

Example error_responses :
  (call sandbox "read_file" [("path", Js.VStr "sub/../..")] MemFs.emptySandbox).2
  = Js.Return (Response.ofText
      "Error processing tool 'read_file': Access denied: Path 'sub/../..' resolves outside the allowed directory.")
  ∧ (call sandbox "read_file" [("path", Js.VStr ".")] MemFs.emptySandbox).2
  = Js.Return (Response.ofText
      "Error processing tool 'read_file': Path '.' is a directory, not a file.")
  ∧ (call sandbox "write_file" [("path", Js.VStr "a/b.txt"); ("content", Js.VStr "x")]
       MemFs.emptySandbox).2
  = Js.Return (Response.ofText
      "Error processing tool 'write_file': Parent directory for 'a/b.txt' does not exist or is not accessible.")
  ∧ (call sandbox "read_file" [("path", Js.VStr "./missing.txt")] MemFs.emptySandbox).2
  = Js.Return (Response.ofText
      "Error processing tool 'read_file': ENOENT: no such file or directory, stat '/sandbox/missing.txt'").
Proof. repeat split; vm_compute; reflexivity. Qed.

(** ** Paths that resolve to the root *)

(** An input whose resolution is the configured root, character for
    character, is accepted and the root is returned. *)
Lemma validatePath_resolves_to_root (proc : Process.t) (inputPath : string) :
  Path.resolve (Process.cwd proc) [Server.ALLOWED_BASE_PATH proc; inputPath]
    = Server.ALLOWED_BASE_PATH proc →
  Server.validatePath proc inputPath = Js.Return (Server.ALLOWED_BASE_PATH proc).
Proof.
  intros Hres. rewrite Containment.validatePath_unfold. cbv zeta. rewrite Hres.
  rewrite bool_decide_eq_true_2 by done. by rewrite andb_false_r.
Qed.

(** Under an absolute root, a relative input is resolved by normalizing
    the segments of the root followed by those of the input. *)
Lemma resolve_below_root (cwd root inputPath : string) :
  Path.isAbsolute root = true →
  inputPath ≠ EmptyString → Path.isAbsolute inputPath = false →
  Path.resolve cwd [root; inputPath]
  = "/" +:+ Segments.joinSegments
              (Segments.normalizeSegments false (Segments.split root ++ Segments.split inputPath)).
Proof.
  intros Hroot Hne Hrel.
  destruct root as [|c r]; [done|]. destruct inputPath as [|d s]; [done|].
  unfold Path.isAbsolute in *. unfold Path.resolve.
  change (rev [String c r; String d s] ++ [cwd]) with [String d s; String c r; cwd].
  cbn [Path.resolveLoop].
  change (Str.isEmpty (String d s)) with false.
  change (Str.isEmpty (String c r)) with false.
  cbv iota. rewrite Hrel, Hroot. cbv iota. cbv beta iota zeta.
  rewrite PathFacts.normalizeString_segments. cbn [negb].
  rewrite !PathFacts.split_app_sep. cbn [Segments.split].
  by rewrite List.app_assoc, PathFacts.normalizeSegments_empty_r.
Qed.

(** A root written as a normalized absolute path, without trailing
    separator: the empty path and [.] resolve to it and are accepted. *)
Lemma canonical_root_accepts_itself (proc : Process.t) (segs : list string) :
  Forall properSegment segs →
  Server.ALLOWED_BASE_PATH proc = "/" +:+ Segments.joinSegments segs →
  Server.validatePath proc EmptyString = Js.Return (Server.ALLOWED_BASE_PATH proc)
  ∧ Server.validatePath proc "." = Js.Return (Server.ALLOWED_BASE_PATH proc).
Proof.
  intros Hsegs Hroot.
  assert (Hsplit : rootSegments ("/" +:+ Segments.joinSegments segs) = segs).
  { unfold rootSegments.
    rewrite PathFacts.split_abs, PathFacts.normalizeSegments_empty_l.
    destruct segs as [|x r]; [done|].
    rewrite PathFacts.split_join by (by apply PathFacts.proper_slashFree || done).
    by apply PathFacts.normalizeSegments_id. }
  split; apply validatePath_resolves_to_root; rewrite Hroot.
  - change (Path.resolve ?cwd [?root; EmptyString]) with (Path.resolve cwd [root]).
    by rewrite PathFacts.resolve_root, Hsplit.
  - rewrite resolve_below_root by done.
    unfold Segments.normalizeSegments. rewrite fold_left_app.
    change (Segments.split ".") with ["."]. cbn [fold_left].
    change (Segments.normalizeStep false ?st ".") with st.
    by rewrite <- Hsplit at 2.
Qed.

(** The loop of [path.resolve] carries what is appended to its
    accumulator through. *)
Lemma resolveLoop_app (paths : list string) (acc tail : string) :
  Path.resolveLoop paths (acc +:+ tail)
  = ((Path.resolveLoop paths acc).1 +:+ tail, (Path.resolveLoop paths acc).2).
Proof.
  revert acc. induction paths as [|p rest IH]; intros acc; simpl; [done|].
  destruct (Str.isEmpty p); [apply IH|].
  destruct (Str.firstIs _ p).
  - simpl. by rewrite !StrFacts.sapp_assoc.
  - change (String "/" (acc +:+ tail)) with ("/" +:+ acc +:+ tail).
    rewrite <- !StrFacts.sapp_assoc, IH. by rewrite !StrFacts.sapp_assoc.
Qed.

Lemma resolveLoop_cons (p : string) (rest : list string) (acc : string) :
  p ≠ EmptyString →
  Path.resolveLoop (p :: rest) acc
  = if Str.firstIs Path.CHAR_FORWARD_SLASH p then (p +:+ "/" +:+ acc, true)
    else Path.resolveLoop rest (p +:+ "/" +:+ acc).
Proof. by destruct p. Qed.

(** A trailing separator on a non-empty input changes neither the
    resolution nor the verdict. *)
Lemma trailing_separator_ignored (proc : Process.t) (inputPath : string) :
  inputPath ≠ EmptyString →
  Path.resolve (Process.cwd proc) [Server.ALLOWED_BASE_PATH proc; inputPath +:+ "/"]
  = Path.resolve (Process.cwd proc) [Server.ALLOWED_BASE_PATH proc; inputPath]
  ∧ accepts (Server.validatePath proc (inputPath +:+ "/"))
    = accepts (Server.validatePath proc inputPath).
Proof.
  intros Hne.
  assert (Hres : Path.resolve (Process.cwd proc)
                   [Server.ALLOWED_BASE_PATH proc; inputPath +:+ "/"]
                 = Path.resolve (Process.cwd proc)
                     [Server.ALLOWED_BASE_PATH proc; inputPath]).
  { unfold Path.resolve.
    change (rev [?a; ?b] ++ [?d]) with [b; a; d].
    assert (Hne' : inputPath +:+ "/" ≠ EmptyString) by (by destruct inputPath).
    rewrite (resolveLoop_cons inputPath), (resolveLoop_cons (inputPath +:+ "/")) by done.
    assert (Str.firstIs Path.CHAR_FORWARD_SLASH (inputPath +:+ "/")
            = Str.firstIs Path.CHAR_FORWARD_SLASH inputPath) as ->
      by (by destruct inputPath).
    assert (Hacc : (inputPath +:+ "/") +:+ "/" +:+ EmptyString
                   = (inputPath +:+ "/" +:+ EmptyString) +:+ "/")
      by (by rewrite !StrFacts.sapp_assoc).
    rewrite Hacc.
    destruct (Str.firstIs Path.CHAR_FORWARD_SLASH inputPath).
    - rewrite !PathFacts.normalizeString_segments.
      by rewrite PathFacts.split_trailing, PathFacts.normalizeSegments_empty_r.
    - rewrite resolveLoop_app.
      destruct (Path.resolveLoop _ (inputPath +:+ "/" +:+ EmptyString)) as [r b].
      cbn [fst snd]. rewrite !PathFacts.normalizeString_segments.
      by rewrite PathFacts.split_trailing, PathFacts.normalizeSegments_empty_r. }
  split; [done|].
  rewrite !Containment.validatePath_unfold. cbv zeta. rewrite Hres.
  by destruct (_ && _).
Qed.

(** C9 fails on the code when the root is configured with a trailing
    separator: [.] and the empty path resolve to the root directory
    [/sandbox], which is compared with [path.normalize] of the root, where the
    trailing separator is kept, and rejected; what lies below the root is
    still accepted. *)
Theorem root_with_trailing_separator_rejected :
  Path.resolve (Process.cwd sandboxSlash) [Server.ALLOWED_BASE_PATH sandboxSlash; "."]
    = "/sandbox"
  ∧ Path.normalize (Server.ALLOWED_BASE_PATH sandboxSlash) = "/sandbox/"
  ∧ Server.validatePath sandboxSlash "." = Js.Throw (Server.accessDenied ".")
  ∧ Server.validatePath sandboxSlash EmptyString = Js.Throw (Server.accessDenied EmptyString)
  ∧ Server.validatePath sandboxSlash "notes.txt" = Js.Return "/sandbox/notes.txt"
  ∧ (call sandboxSlash "get_file_info" [("path", Js.VStr ".")] MemFs.emptySandbox).2
    = Js.Return (Response.ofText
        "Error processing tool 'get_file_info': Access denied: Path '.' resolves outside the allowed directory.").
Proof. repeat split; vm_compute; reflexivity. Qed.

Example root_info :
  (call sandbox "get_file_info" [("path", Js.VStr ".")] MemFs.emptySandbox).2
  = Js.Return (Response.ofText (Js.JSON_stringify
      (Js.JObj [("path", Js.JStr "."); ("type", Js.JStr "directory");
                ("size", Js.JNum 4096);
                ("created", Js.JStr "1970-01-01T00:00:00.000Z");
                ("modified", Js.JStr "1970-01-01T00:00:00.000Z");
                ("accessed", Js.JStr "1970-01-01T00:00:00.000Z");
                ("permissions", Js.JStr "755")]))).
Proof. vm_compute. reflexivity. Qed.

(** * Further properties of path validation *)

Module ValidationFacts.
Import StrFacts PathFacts.

Local Arguments String.append !_ _ / : simpl nomatch.
Local Arguments Segments.joinSegments : simpl never.

Lemma join_app (a b : list string) :
  a ≠ [] → b ≠ [] →
  Segments.joinSegments (a ++ b)
  = Segments.joinSegments a +:+ "/" +:+ Segments.joinSegments b.
Proof.
  intros Ha Hb. induction a as [|x a IH]; [done|].
  destruct a as [|y a].
  - destruct b; done.
  - change (Segments.joinSegments ((x :: y :: a) ++ b))
      with (x +:+ "/" +:+ Segments.joinSegments ((y :: a) ++ b)).
    rewrite IH by done.
    change (Segments.joinSegments (x :: y :: a))
      with (x +:+ "/" +:+ Segments.joinSegments (y :: a)).
    by rewrite !sapp_assoc.
Qed.

(** A string is not a proper extension of itself. *)
Lemma app_longer (s t : string) : t ≠ EmptyString → s +:+ t ≠ s.
Proof.
  intros Ht Heq. apply (f_equal Path.strlen) in Heq. rewrite strlen_app in Heq.
  assert (Path.strlen t = 0%Z) as Hz by lia. by apply strlen_zero in Hz.
Qed.

Lemma startsWith_longer (s t : string) :
  t ≠ EmptyString → Str.startsWith s (s +:+ t) = false.
Proof.
  intros Ht. destruct (Str.startsWith s (s +:+ t)) eqn:E; [|done].
  apply prefix_spec in E as [r Hr]. rewrite sapp_assoc in Hr.
  symmetry in Hr. apply app_longer in Hr; [done|]. by destruct t.
Qed.

(** What resolves strictly below an absolute root is accepted. *)
Lemma accepted_below (proc : Process.t) (inputPath : string) (below : list string) :
  Path.isAbsolute (Server.ALLOWED_BASE_PATH proc) = true →
  Forall properSegment below → below ≠ [] →
  Path.resolve (Process.cwd proc) [Server.ALLOWED_BASE_PATH proc; inputPath]
  = "/" +:+ Segments.joinSegments (rootSegments (Server.ALLOWED_BASE_PATH proc) ++ below) →
  Server.validatePath proc inputPath
  = Js.Return ("/" +:+ Segments.joinSegments
                 (rootSegments (Server.ALLOWED_BASE_PATH proc) ++ below)).
Proof.
  intros Habs Hbelow Hne Hres.
  rewrite Containment.validatePath_unfold. cbv zeta. rewrite Hres.
  pose proof (rootSegments_proper (Server.ALLOWED_BASE_PATH proc)) as Hroot.
  rewrite normalize_abs_id by (by apply Forall_app).
  rewrite normalize_root_sep by done.
  destruct (rootSegments (Server.ALLOWED_BASE_PATH proc)) as [|x r] eqn:E.
  - assert (Str.startsWith ("/" +:+ Segments.joinSegments ([] ++ below))
              ("/" +:+ Segments.joinSegments [] +:+ EmptyString) = true) as ->
      by apply prefix_app.
    done.
  - rewrite join_app by done.
    assert (Str.startsWith
              ("/" +:+ Segments.joinSegments (x :: r) +:+ "/" +:+ Segments.joinSegments below)
              ("/" +:+ Segments.joinSegments (x :: r) +:+ "/") = true) as ->.
    { unfold Str.startsWith.
      replace ("/" +:+ Segments.joinSegments (x :: r) +:+ "/" +:+ Segments.joinSegments below)
        with (("/" +:+ Segments.joinSegments (x :: r) +:+ "/") +:+ Segments.joinSegments below)
        by (by rewrite !sapp_assoc).
      apply prefix_app. }
    done.
Qed.

(** The resolution of [.] and of the empty path: the root directory. *)
Lemma resolve_dot (cwd root : string) :
  Path.isAbsolute root = true →
  Path.resolve cwd [root; "."] = "/" +:+ Segments.joinSegments (rootSegments root)
  ∧ Path.resolve cwd [root; EmptyString] = "/" +:+ Segments.joinSegments (rootSegments root).
Proof.
  intros Habs. split.
  - rewrite resolve_below_root by done.
    unfold Segments.normalizeSegments. rewrite fold_left_app.
    change (Segments.split ".") with ["."]. cbn [fold_left].
    by change (Segments.normalizeStep false ?st ".") with st.
  - change (Path.resolve ?c [?r; EmptyString]) with (Path.resolve c [r]).
    by apply resolve_root.
Qed.

(** Whether the root directory itself passes the test of [validatePath]. *)
Lemma root_verdict (proc : Process.t) (inputPath : string) :
  Path.isAbsolute (Server.ALLOWED_BASE_PATH proc) = true →
  Path.resolve (Process.cwd proc) [Server.ALLOWED_BASE_PATH proc; inputPath]
  = "/" +:+ Segments.joinSegments (rootSegments (Server.ALLOWED_BASE_PATH proc)) →
  accepts (Server.validatePath proc inputPath)
  = bool_decide (rootSegments (Server.ALLOWED_BASE_PATH proc) = [])
    || negb (Str.lastIs Path.CHAR_FORWARD_SLASH (Server.ALLOWED_BASE_PATH proc)).
Proof.
  intros Habs Hres.
  rewrite Containment.validatePath_unfold. cbv zeta. rewrite Hres.
  pose proof (rootSegments_proper (Server.ALLOWED_BASE_PATH proc)) as Hroot.
  rewrite normalize_abs_id, normalize_root_sep, normalize_root by done.
  destruct (rootSegments (Server.ALLOWED_BASE_PATH proc)) as [|x r] eqn:E.
  - assert (Str.startsWith ("/" +:+ Segments.joinSegments [])
              ("/" +:+ Segments.joinSegments [] +:+ EmptyString) = true) as ->
      by apply prefix_app.
    done.
  - set (R := "/" +:+ Segments.joinSegments (x :: r)).
    change ("/" +:+ Segments.joinSegments (x :: r) +:+ ?t) with (R +:+ t).
    rewrite startsWith_longer by done.
    rewrite (bool_decide_eq_false_2 (x :: r = [])) by done. cbn [negb andb orb].
    destruct (Str.lastIs _ _); cbn [negb].
    + rewrite bool_decide_eq_false_2; [done|].
      intros Heq. symmetry in Heq. by apply app_longer in Heq.
    + by rewrite sapp_nil_r, bool_decide_eq_true_2.
Qed.

(** Segments other than [..] are kept or skipped, never taken back. *)
Lemma fold_normalize_names (segs stack : list string) :
  Forall (λ s, s ≠ "..") segs →
  fold_left (Segments.normalizeStep false) segs stack
  = rev (filter (λ s, s ≠ EmptyString ∧ s ≠ ".") segs) ++ stack.
Proof.
  intros Hsegs. revert stack. induction Hsegs as [|s r Hs Hr IH]; intros stack; [done|].
  cbn [fold_left]. rewrite IH. unfold Segments.normalizeStep.
  destruct (decide (s = EmptyString)) as [->|H1].
  { by rewrite filter_cons_False by (intros [? _]; done). }
  destruct (decide (s = ".")) as [->|H2].
  { by rewrite filter_cons_False by (intros [_ ?]; done). }
  rewrite decide_False by done.
  rewrite filter_cons_True by done. cbn [rev]. by rewrite <- List.app_assoc.
Qed.

End ValidationFacts.

(** What [validatePath] gives, from its verdict. *)
Lemma validatePath_value (proc : Process.t) (inputPath : string) :
  Server.validatePath proc inputPath
  = if accepts (Server.validatePath proc inputPath)
    then Js.Return (Path.resolve (Process.cwd proc)
                      [Server.ALLOWED_BASE_PATH proc; inputPath])
    else Js.Throw (Server.accessDenied inputPath).
Proof.
  rewrite Containment.validatePath_unfold. cbv zeta. by destruct (_ && _).
Qed.

(** X1 (the containment test is complete below the root).  Under an
    absolute root, whether or not it is written with a trailing separator,
    every input whose resolution lies strictly below the root directory is
    accepted, and the resolved path is returned: the test rejects nothing
    that is inside. *)
Theorem validatePath_accepts_below (proc : Process.t) (inputPath : string) :
  Path.isAbsolute (Process.cwd proc) = true →
  Path.isAbsolute (Server.ALLOWED_BASE_PATH proc) = true →
  (∃ below, below ≠ []
     ∧ Segments.components
         (Path.resolve (Process.cwd proc) [Server.ALLOWED_BASE_PATH proc; inputPath])
       = Segments.components (rootDirectory proc) ++ below) →
  Server.validatePath proc inputPath
  = Js.Return (Path.resolve (Process.cwd proc) [Server.ALLOWED_BASE_PATH proc; inputPath]).
Proof.
  intros Hcwd Habs (below & Hne & Hbelow).
  destruct (PathFacts.resolve_form (Process.cwd proc)
              [Server.ALLOWED_BASE_PATH proc; inputPath] Hcwd) as (segs & Hsegs & Hres).
  unfold rootDirectory in Hbelow.
  rewrite Hres, PathFacts.resolve_root in Hbelow by done.
  rewrite !PathFacts.components_abs_join in Hbelow
    by (done || apply PathFacts.rootSegments_proper).
  subst segs. apply Forall_app in Hsegs as [_ Hproper].
  rewrite Hres. by apply ValidationFacts.accepted_below.
Qed.

Lemma validatePath_accepts_below_witness :
  Server.validatePath sandboxSlash "docs/../a//b.txt"
  = Js.Return (Path.resolve (Process.cwd sandboxSlash)
                 [Server.ALLOWED_BASE_PATH sandboxSlash; "docs/../a//b.txt"]).
Proof.
  apply (validatePath_accepts_below sandboxSlash "docs/../a//b.txt" eq_refl eq_refl).
  exists ["a"; "b.txt"]. split; [done|]. vm_compute. reflexivity.
Defined.

(** X2 (inputs without [..] stay inside).  Under an absolute root, a
    relative input none of whose segments is [..] resolves to the segments of
    the root followed by the names of the input (its segments other than the
    empty one and [.]), and it is accepted as soon as it names something. *)
Theorem dotdot_free_input_accepted (proc : Process.t) (inputPath : string) :
  Path.isAbsolute (Server.ALLOWED_BASE_PATH proc) = true →
  Path.isAbsolute inputPath = false →
  Forall (λ s, s ≠ "..") (Segments.split inputPath) →
  Path.resolve (Process.cwd proc) [Server.ALLOWED_BASE_PATH proc; inputPath]
  = "/" +:+ Segments.joinSegments
              (rootSegments (Server.ALLOWED_BASE_PATH proc)
               ++ filter (λ s, s ≠ EmptyString ∧ s ≠ ".") (Segments.split inputPath))
  ∧ (filter (λ s, s ≠ EmptyString ∧ s ≠ ".") (Segments.split inputPath) ≠ [] →
     Server.validatePath proc inputPath
     = Js.Return ("/" +:+ Segments.joinSegments
                    (rootSegments (Server.ALLOWED_BASE_PATH proc)
                     ++ filter (λ s, s ≠ EmptyString ∧ s ≠ ".") (Segments.split inputPath)))).
Proof.
  intros Habs Hrel Hfree.
  set (names := filter (λ s, s ≠ EmptyString ∧ s ≠ ".") (Segments.split inputPath)).
  assert (Hres : Path.resolve (Process.cwd proc) [Server.ALLOWED_BASE_PATH proc; inputPath]
                 = "/" +:+ Segments.joinSegments
                             (rootSegments (Server.ALLOWED_BASE_PATH proc) ++ names)).
  { destruct (decide (inputPath = EmptyString)) as [->|Hne].
    - destruct (ValidationFacts.resolve_dot (Process.cwd proc) _ Habs) as [_ ->].
      subst names. change (Segments.split EmptyString) with [EmptyString].
      rewrite filter_cons_False by (intros [? _]; done).
      by rewrite filter_nil, List.app_nil_r.
    - rewrite resolve_below_root by done.
      unfold Segments.normalizeSegments. rewrite fold_left_app.
      rewrite ValidationFacts.fold_normalize_names by done.
      rewrite rev_app_distr, rev_involutive. unfold rootSegments, Segments.normalizeSegments.
      done. }
  split; [done|]. intros Hnames.
  apply ValidationFacts.accepted_below; [done| |done..].
  subst names. apply Forall_forall. intros s [[H1 H2] Hin]%list_elem_of_filter.
  rewrite Forall_forall in Hfree.
  pose proof (PathFacts.split_slashFree inputPath) as Hsl. rewrite Forall_forall in Hsl.
  repeat split; [done..| by apply Hfree | by apply Hsl].
Qed.

Lemma dotdot_free_input_accepted_witness :
  Path.resolve (Process.cwd sandbox) [Server.ALLOWED_BASE_PATH sandbox; "./docs//notes.txt"]
  = "/" +:+ Segments.joinSegments
              (rootSegments (Server.ALLOWED_BASE_PATH sandbox)
               ++ filter (λ s, s ≠ EmptyString ∧ s ≠ ".") (Segments.split "./docs//notes.txt"))
  ∧ (filter (λ s, s ≠ EmptyString ∧ s ≠ ".") (Segments.split "./docs//notes.txt") ≠ [] →
     Server.validatePath sandbox "./docs//notes.txt"
     = Js.Return ("/" +:+ Segments.joinSegments
                    (rootSegments (Server.ALLOWED_BASE_PATH sandbox)
                     ++ filter (λ s, s ≠ EmptyString ∧ s ≠ ".")
                          (Segments.split "./docs//notes.txt")))).
Proof.
  apply (dotdot_free_input_accepted sandbox "./docs//notes.txt" eq_refl eq_refl).
  vm_compute. repeat constructor; discriminate.
Defined.

(** X3 (when the root itself is reachable).  Under an absolute root, [.]
    and the empty path resolve to the root directory, and they are accepted
    exactly when the root directory is [/] or the root is written without a
    trailing separator; otherwise both are denied. *)
Theorem root_accessible_iff (proc : Process.t) (inputPath : string) :
  Path.isAbsolute (Server.ALLOWED_BASE_PATH proc) = true →
  inputPath = "." ∨ inputPath = EmptyString →
  Path.resolve (Process.cwd proc) [Server.ALLOWED_BASE_PATH proc; inputPath]
  = rootDirectory proc
  ∧ Server.validatePath proc inputPath
    = if bool_decide (rootDirectory proc = "/")
         || negb (Str.lastIs Path.CHAR_FORWARD_SLASH (Server.ALLOWED_BASE_PATH proc))
      then Js.Return (rootDirectory proc)
      else Js.Throw (Server.accessDenied inputPath).
Proof.
  intros Habs Hinput.
  assert (Hres : Path.resolve (Process.cwd proc) [Server.ALLOWED_BASE_PATH proc; inputPath]
                 = "/" +:+ Segments.joinSegments (rootSegments (Server.ALLOWED_BASE_PATH proc))).
  { destruct (ValidationFacts.resolve_dot (Process.cwd proc) _ Habs) as [Hdot Hempty].
    by destruct Hinput as [-> | ->]. }
  assert (Hdir : rootDirectory proc
                 = "/" +:+ Segments.joinSegments (rootSegments (Server.ALLOWED_BASE_PATH proc)))
    by (by apply PathFacts.resolve_root).
  split; [by rewrite Hdir|].
  rewrite validatePath_value, (ValidationFacts.root_verdict proc inputPath Habs Hres).
  rewrite Hres, Hdir.
  assert (Hnil : bool_decide (rootSegments (Server.ALLOWED_BASE_PATH proc) = [])
                 = bool_decide ("/" +:+ Segments.joinSegments
                                          (rootSegments (Server.ALLOWED_BASE_PATH proc)) = "/")).
  { apply bool_decide_ext. split; [by intros ->|]. intros [= Hj].
    pose proof (PathFacts.rootSegments_proper (Server.ALLOWED_BASE_PATH proc)) as Hp.
    destruct (rootSegments _) as [|x r] eqn:E; [done|].
    by destruct (PathFacts.join_proper_nonempty (x :: r) Hp). }
  by rewrite Hnil.
Qed.

Lemma root_accessible_iff_witness :
  Path.resolve (Process.cwd sandboxSlash) [Server.ALLOWED_BASE_PATH sandboxSlash; "."]
  = rootDirectory sandboxSlash
  ∧ Server.validatePath sandboxSlash "."
    = if bool_decide (rootDirectory sandboxSlash = "/")
         || negb (Str.lastIs Path.CHAR_FORWARD_SLASH (Server.ALLOWED_BASE_PATH sandboxSlash))
      then Js.Return (rootDirectory sandboxSlash)
      else Js.Throw (Server.accessDenied ".").
Proof. exact (root_accessible_iff sandboxSlash "." eq_refl (or_introl eq_refl)). Defined.

(** X4 (a relative root shuts everything out).  When the configured root
    is a relative path, [validatePath] denies every input: the resolved path
    is absolute and the normalized root it is compared with is not. *)
Theorem relative_root_rejects_everything (proc : Process.t) (inputPath : string) :
  Path.isAbsolute (Process.cwd proc) = true →
  Path.isAbsolute (Server.ALLOWED_BASE_PATH proc) = false →
  Server.validatePath proc inputPath = Js.Throw (Server.accessDenied inputPath).
Proof.
  intros Hcwd Hrel. rewrite Containment.validatePath_unfold. cbv zeta.
  destruct (PathFacts.resolve_form (Process.cwd proc)
              [Server.ALLOWED_BASE_PATH proc; inputPath] Hcwd) as (segs & Hsegs & ->).
  rewrite PathFacts.normalize_abs_id by done.
  assert (Hne : Server.ALLOWED_BASE_PATH proc ≠ EmptyString).
  { apply Containment.ALLOWED_BASE_PATH_nonempty. by destruct (Process.cwd proc). }
  destruct (Containment.relative_root_rejects _ ("/" +:+ Segments.joinSegments segs)
              Hne Hrel eq_refl) as [-> Hneq].
  by rewrite bool_decide_eq_false_2.
Qed.

Lemma relative_root_rejects_everything_witness :
  Server.validatePath
    {| Process.env_MCP_FILE_BASE_PATH := Some "sandbox"; Process.cwd := "/home/user" |}
    "notes.txt"
  = Js.Throw (Server.accessDenied "notes.txt").
Proof.
  exact (relative_root_rejects_everything
           {| Process.env_MCP_FILE_BASE_PATH := Some "sandbox"; Process.cwd := "/home/user" |}
           "notes.txt" eq_refl eq_refl).
Defined.

(** X5 (trailing separators).  Any number of separators after a non-empty
    input changes neither the path it resolves to nor the verdict of
    [validatePath]; an accepted input returns the same path with and without
    them. *)
Theorem trailing_separators_ignored (proc : Process.t) (inputPath : string) (n : nat) :
  inputPath ≠ EmptyString →
  Path.resolve (Process.cwd proc)
    [Server.ALLOWED_BASE_PATH proc; inputPath +:+ repeated n "/"]
  = Path.resolve (Process.cwd proc) [Server.ALLOWED_BASE_PATH proc; inputPath]
  ∧ accepts (Server.validatePath proc (inputPath +:+ repeated n "/"))
    = accepts (Server.validatePath proc inputPath)
  ∧ ∀ safePath,
      Server.validatePath proc inputPath = Js.Return safePath →
      Server.validatePath proc (inputPath +:+ repeated n "/") = Js.Return safePath.
Proof.
  intros Hne.
  assert (Hboth :
    Path.resolve (Process.cwd proc)
      [Server.ALLOWED_BASE_PATH proc; inputPath +:+ repeated n "/"]
    = Path.resolve (Process.cwd proc) [Server.ALLOWED_BASE_PATH proc; inputPath]
    ∧ accepts (Server.validatePath proc (inputPath +:+ repeated n "/"))
      = accepts (Server.validatePath proc inputPath)).
  { revert inputPath Hne. induction n as [|n IH]; intros inputPath Hne.
    - cbn [repeated]. by rewrite StrFacts.sapp_nil_r.
    - cbn [repeated].
      replace (inputPath +:+ "/" +:+ repeated n "/")
        with ((inputPath +:+ "/") +:+ repeated n "/") by apply StrFacts.sapp_assoc.
      destruct (IH (inputPath +:+ "/")) as [-> ->]; [by destruct inputPath|].
      by apply trailing_separator_ignored. }
  destruct Hboth as [Hres Hacc]. repeat split; [done..|].
  intros safePath Hv.
  rewrite validatePath_value, Hacc, Hres.
  rewrite validatePath_value in Hv.
  by destruct (accepts (Server.validatePath proc inputPath)).
Qed.

Lemma trailing_separators_ignored_witness :
  Path.resolve (Process.cwd sandbox)
    [Server.ALLOWED_BASE_PATH sandbox; "docs" +:+ repeated 3 "/"]
  = Path.resolve (Process.cwd sandbox) [Server.ALLOWED_BASE_PATH sandbox; "docs"]
  ∧ accepts (Server.validatePath sandbox ("docs" +:+ repeated 3 "/"))
    = accepts (Server.validatePath sandbox "docs")
  ∧ ∀ safePath,
      Server.validatePath sandbox "docs" = Js.Return safePath →
      Server.validatePath sandbox ("docs" +:+ repeated 3 "/") = Js.Return safePath.
Proof. apply (trailing_separators_ignored sandbox "docs" 3). discriminate. Defined.

(** * Further properties of the handlers *)

Section known_tools.
Context {W : Type} (this : Handlers.t W).

(** The [case] of each tool, for a bag whose [path] is a string. *)
Lemma callToolBody_path (args : option (gmap string Js.value)) (path : string) :
  Server.stringArg args "path" = Some path →
  Server.callToolBody this "list_directory" args = Handlers.listDirectory this path
  ∧ Server.callToolBody this "read_file" args = Handlers.readFile this path
  ∧ Server.callToolBody this "create_directory" args = Handlers.createDirectory this path
  ∧ Server.callToolBody this "delete_item" args = Handlers.deleteItem this path
  ∧ Server.callToolBody this "get_file_info" args = Handlers.getFileInfo this path
  ∧ ∀ content, Server.stringArg args "content" = Some content →
      Server.callToolBody this "write_file" args = Handlers.writeFile this path content.
Proof.
  intros Hpath. unfold Server.callToolBody. rewrite Hpath.
  repeat split; try (intros content ->); reflexivity.
Qed.

End known_tools.

Section guards.
Context {W : Type} `{!Fs.Api W} (proc : Process.t).

(** X6 (type guard of [readFile]).  For every implementation of the
    storage calls: when [stat] reports the validated path as a directory, a
    [read_file] call is answered by the error text that quotes the caller's
    path, in the world [stat] left: [fs.readFile] is not called. *)
Theorem readFile_type_guard (args : option (gmap string Js.value))
    (filePath safePath : string) (w w1 : W) (stats : Stats.t) :
  Server.stringArg args "path" = Some filePath →
  Server.validatePath proc filePath = Js.Return safePath →
  Fs.stat safePath w = (w1, inr stats) →
  Stats.isDirectory stats = true →
  Server.readFile proc filePath w
  = (w1, Js.Throw (Js.Error ("Path '" +:+ filePath +:+ "' is a directory, not a file.")))
  ∧ Server.callTool (Server.methods proc) "read_file" args w
    = (w1, Js.Return (Response.ofText
         ("Error processing tool 'read_file': Path '" +:+ filePath
          +:+ "' is a directory, not a file."))).
Proof.
  intros Hpath Hv Hstat Hdir.
  assert (Hread : Server.readFile proc filePath w
    = (w1, Js.Throw (Js.Error ("Path '" +:+ filePath +:+ "' is a directory, not a file.")))).
  { unfold Server.readFile, Js.bind, Js.lift, Fs.await, Js.throw.
    by rewrite Hv, Hstat, Hdir. }
  split; [done|].
  destruct (callToolBody_path (Server.methods proc) args filePath Hpath)
    as (_ & Hbody & _).
  unfold Server.callTool, Js.tryCatch. rewrite Hbody. methods_unfold. by rewrite Hread.
Qed.

(** X7 (parent check of [writeFile]).  For every implementation of the
    storage calls: when [access] to the parent directory of the validated
    path fails, for whatever reason, a [write_file] call is answered by the
    error text about the parent directory, which quotes the caller's path and
    drops the error of [access]; the world is the one [access] left: neither
    [stat] nor [fs.writeFile] is called. *)
Theorem writeFile_parent_inaccessible (args : option (gmap string Js.value))
    (filePath content safePath : string) (w w1 : W) (failure : Fs.failure) :
  Server.stringArg args "path" = Some filePath →
  Server.stringArg args "content" = Some content →
  Server.validatePath proc filePath = Js.Return safePath →
  Fs.access (Path.dirname safePath) w = (w1, inl failure) →
  Server.writeFile proc filePath content w
  = (w1, Js.Throw (Js.Error ("Parent directory for '" +:+ filePath
                             +:+ "' does not exist or is not accessible.")))
  ∧ Server.callTool (Server.methods proc) "write_file" args w
    = (w1, Js.Return (Response.ofText
         ("Error processing tool 'write_file': Parent directory for '" +:+ filePath
          +:+ "' does not exist or is not accessible."))).
Proof.
  intros Hpath Hcontent Hv Haccess.
  assert (Hwrite : Server.writeFile proc filePath content w
    = (w1, Js.Throw (Js.Error ("Parent directory for '" +:+ filePath
                               +:+ "' does not exist or is not accessible.")))).
  { unfold Server.writeFile, Js.bind, Js.lift, Js.tryCatch, Fs.await, Js.throw.
    by rewrite Hv, Haccess. }
  split; [done|].
  destruct (callToolBody_path (Server.methods proc) args filePath Hpath)
    as (_ & _ & _ & _ & _ & Hbody).
  unfold Server.callTool, Js.tryCatch. rewrite (Hbody content Hcontent).
  methods_unfold. by rewrite Hwrite.
Qed.

(** X8 (type guard of [writeFile]).  For every implementation of the
    storage calls: when the parent directory is accessible and [stat] reports
    the validated path as a directory, a [write_file] call is answered by the
    error text about the existing directory.  The error is thrown inside the
    [try] block, caught by its own [catch] and thrown again there, since it
    has no [code]; the world is the one [stat] left: [fs.writeFile] is not
    called. *)
Theorem writeFile_existing_directory (args : option (gmap string Js.value))
    (filePath content safePath : string) (w w1 w2 : W) (stats : Stats.t) :
  Server.stringArg args "path" = Some filePath →
  Server.stringArg args "content" = Some content →
  Server.validatePath proc filePath = Js.Return safePath →
  Fs.access (Path.dirname safePath) w = (w1, inr tt) →
  Fs.stat safePath w1 = (w2, inr stats) →
  Stats.isDirectory stats = true →
  Server.writeFile proc filePath content w
  = (w2, Js.Throw (Js.Error
       ("Path '" +:+ filePath
        +:+ "' is an existing directory. Cannot overwrite a directory with a file.")))
  ∧ Server.callTool (Server.methods proc) "write_file" args w
    = (w2, Js.Return (Response.ofText
         ("Error processing tool 'write_file': Path '" +:+ filePath
          +:+ "' is an existing directory. Cannot overwrite a directory with a file."))).
Proof.
  intros Hpath Hcontent Hv Haccess Hstat Hdir.
  assert (Hwrite : Server.writeFile proc filePath content w
    = (w2, Js.Throw (Js.Error
         ("Path '" +:+ filePath
          +:+ "' is an existing directory. Cannot overwrite a directory with a file.")))).
  { unfold Server.writeFile, Js.bind, Js.lift, Js.tryCatch, Fs.await, Js.throw.
    rewrite Hv, Haccess, Hstat, Hdir. cbn [Js.code].
    by rewrite bool_decide_eq_true_2. }
  split; [done|].
  destruct (callToolBody_path (Server.methods proc) args filePath Hpath)
    as (_ & _ & _ & _ & _ & Hbody).
  unfold Server.callTool, Js.tryCatch. rewrite (Hbody content Hcontent).
  methods_unfold. by rewrite Hwrite.
Qed.

(** X9 (errors of [stat] in [writeFile]).  For every implementation of
    the storage calls: when the parent directory is accessible and [stat] on
    the validated path fails with a code other than [ENOENT], [writeFile]
    throws that very error, code and message, and a [write_file] call is
    answered by the error text with its message; the world is the one [stat]
    left: nothing is written. *)
Theorem writeFile_stat_error_rethrown (args : option (gmap string Js.value))
    (filePath content safePath : string) (w w1 w2 : W) (failure : Fs.failure) :
  Server.stringArg args "path" = Some filePath →
  Server.stringArg args "content" = Some content →
  Server.validatePath proc filePath = Js.Return safePath →
  Fs.access (Path.dirname safePath) w = (w1, inr tt) →
  Fs.stat safePath w1 = (w2, inl failure) →
  Fs.code failure ≠ "ENOENT" →
  Server.writeFile proc filePath content w
  = (w2, Js.Throw (Js.ErrnoException (Fs.code failure) (Fs.message failure)))
  ∧ Server.callTool (Server.methods proc) "write_file" args w
    = (w2, Js.Return (Response.ofText
         ("Error processing tool 'write_file': " +:+ Fs.message failure))).
Proof.
  intros Hpath Hcontent Hv Haccess Hstat Hcode.
  assert (Hwrite : Server.writeFile proc filePath content w
    = (w2, Js.Throw (Js.ErrnoException (Fs.code failure) (Fs.message failure)))).
  { unfold Server.writeFile, Js.bind, Js.lift, Js.tryCatch, Fs.await, Js.throw.
    rewrite Hv, Haccess, Hstat. cbn [Js.code].
    rewrite bool_decide_eq_true_2; [done|]. by intros [= ?]. }
  split; [done|].
  destruct (callToolBody_path (Server.methods proc) args filePath Hpath)
    as (_ & _ & _ & _ & _ & Hbody).
  unfold Server.callTool, Js.tryCatch. rewrite (Hbody content Hcontent).
  methods_unfold. by rewrite Hwrite.
Qed.

(** X10 (a missing target is written).  For every implementation of the
    storage calls: when the parent directory is accessible and [stat] on the
    validated path fails with [ENOENT], the failure is swallowed and
    [fs.writeFile] is called once on the validated path with the content; its
    outcome decides the answer: the confirmation that quotes the caller's
    path, or the error of the write. *)
Theorem writeFile_missing_target (args : option (gmap string Js.value))
    (filePath content safePath : string) (w w1 w2 w3 : W)
    (failure : Fs.failure) (written : Fs.result unit) :
  Server.stringArg args "path" = Some filePath →
  Server.stringArg args "content" = Some content →
  Server.validatePath proc filePath = Js.Return safePath →
  Fs.access (Path.dirname safePath) w = (w1, inr tt) →
  Fs.stat safePath w1 = (w2, inl failure) →
  Fs.code failure = "ENOENT" →
  Fs.writeFile safePath content w2 = (w3, written) →
  Server.callTool (Server.methods proc) "write_file" args w
  = (w3, Js.Return (Response.ofText
       match written with
       | inr _ => "File written successfully: " +:+ filePath
       | inl refused => "Error processing tool 'write_file': " +:+ Fs.message refused
       end)).
Proof.
  intros Hpath Hcontent Hv Haccess Hstat Hcode Hwritten.
  destruct (callToolBody_path (Server.methods proc) args filePath Hpath)
    as (_ & _ & _ & _ & _ & Hbody).
  unfold Server.callTool, Js.tryCatch. rewrite (Hbody content Hcontent).
  methods_unfold.
  unfold Server.writeFile, Js.bind, Js.lift, Js.tryCatch, Fs.await, Js.throw, Js.ret.
  rewrite Hv, Haccess, Hstat. cbn [Js.code]. rewrite Hcode.
  rewrite bool_decide_eq_false_2 by (intros Hne; by apply Hne).
  rewrite Hwritten. by destruct written as [refused|[]].
Qed.

End guards.

Lemma readFile_type_guard_witness :
  Server.readFile sandbox "." MemFs.emptySandbox
  = (MemFs.logged (MemFs.Stat "/sandbox") MemFs.emptySandbox,
     Js.Throw (Js.Error ("Path '" +:+ "." +:+ "' is a directory, not a file.")))
  ∧ Server.callTool (Server.methods sandbox) "read_file"
      (Some {[ "path" := Js.VStr "." ]}) MemFs.emptySandbox
    = (MemFs.logged (MemFs.Stat "/sandbox") MemFs.emptySandbox,
       Js.Return (Response.ofText
         ("Error processing tool 'read_file': Path '" +:+ "."
          +:+ "' is a directory, not a file."))).
Proof.
  apply (readFile_type_guard sandbox (Some {[ "path" := Js.VStr "." ]}) "." "/sandbox"
           MemFs.emptySandbox (MemFs.logged (MemFs.Stat "/sandbox") MemFs.emptySandbox)
           {| Stats.isDirectory := true; Stats.size := 4096;
              Stats.mode := Z.lor 16384 493; Stats.birthtime := MemFs.epoch;
              Stats.mtime := MemFs.epoch; Stats.atime := MemFs.epoch |}).
  - vm_compute. reflexivity.
  - vm_compute. reflexivity.
  - vm_compute. reflexivity.
  - reflexivity.
Defined.

Lemma writeFile_parent_inaccessible_witness :
  Server.writeFile sandbox "a/b.txt" "x" MemFs.emptySandbox
  = (MemFs.logged (MemFs.Access "/sandbox/a") MemFs.emptySandbox,
     Js.Throw (Js.Error ("Parent directory for '" +:+ "a/b.txt"
                         +:+ "' does not exist or is not accessible.")))
  ∧ Server.callTool (Server.methods sandbox) "write_file"
      (Some (list_to_map [("path", Js.VStr "a/b.txt"); ("content", Js.VStr "x")]))
      MemFs.emptySandbox
    = (MemFs.logged (MemFs.Access "/sandbox/a") MemFs.emptySandbox,
       Js.Return (Response.ofText
         ("Error processing tool 'write_file': Parent directory for '" +:+ "a/b.txt"
          +:+ "' does not exist or is not accessible."))).
Proof.
  apply (writeFile_parent_inaccessible sandbox
           (Some (list_to_map [("path", Js.VStr "a/b.txt"); ("content", Js.VStr "x")]))
           "a/b.txt" "x" "/sandbox/a/b.txt" MemFs.emptySandbox
           (MemFs.logged (MemFs.Access "/sandbox/a") MemFs.emptySandbox)
           {| Fs.code := "ENOENT";
              Fs.message := "ENOENT: no such file or directory, access '/sandbox/a'" |}).
  - vm_compute. reflexivity.
  - vm_compute. reflexivity.
  - vm_compute. reflexivity.
  - vm_compute. reflexivity.
Defined.

Lemma writeFile_existing_directory_witness :
  Server.writeFile sandbox "." "x" MemFs.emptySandbox
  = (MemFs.logged (MemFs.Stat "/sandbox")
       (MemFs.logged (MemFs.Access "/") MemFs.emptySandbox),
     Js.Throw (Js.Error
       ("Path '" +:+ "."
        +:+ "' is an existing directory. Cannot overwrite a directory with a file.")))
  ∧ Server.callTool (Server.methods sandbox) "write_file"
      (Some (list_to_map [("path", Js.VStr "."); ("content", Js.VStr "x")]))
      MemFs.emptySandbox
    = (MemFs.logged (MemFs.Stat "/sandbox")
         (MemFs.logged (MemFs.Access "/") MemFs.emptySandbox),
       Js.Return (Response.ofText
         ("Error processing tool 'write_file': Path '" +:+ "."
          +:+ "' is an existing directory. Cannot overwrite a directory with a file."))).
Proof.
  apply (writeFile_existing_directory sandbox
           (Some (list_to_map [("path", Js.VStr "."); ("content", Js.VStr "x")]))
           "." "x" "/sandbox" MemFs.emptySandbox
           (MemFs.logged (MemFs.Access "/") MemFs.emptySandbox)
           (MemFs.logged (MemFs.Stat "/sandbox")
              (MemFs.logged (MemFs.Access "/") MemFs.emptySandbox))
           {| Stats.isDirectory := true; Stats.size := 4096;
              Stats.mode := Z.lor 16384 493; Stats.birthtime := MemFs.epoch;
              Stats.mtime := MemFs.epoch; Stats.atime := MemFs.epoch |}).
  - vm_compute. reflexivity.
  - vm_compute. reflexivity.
  - vm_compute. reflexivity.
  - vm_compute. reflexivity.
  - vm_compute. reflexivity.
  - reflexivity.
Defined.

Lemma writeFile_stat_error_rethrown_witness :
  @Server.writeFile DeniedFs.t _ sandbox "notes.txt" "x" []
  = ([MemFs.Access "/sandbox"; MemFs.Stat "/sandbox/notes.txt"],
     Js.Throw (Js.ErrnoException "EACCES"
                 "EACCES: permission denied, stat '/sandbox/notes.txt'"))
  ∧ @Server.callTool DeniedFs.t (Server.methods sandbox) "write_file"
      (Some (list_to_map [("path", Js.VStr "notes.txt"); ("content", Js.VStr "x")])) []
    = ([MemFs.Access "/sandbox"; MemFs.Stat "/sandbox/notes.txt"],
       Js.Return (Response.ofText
         ("Error processing tool 'write_file': "
          +:+ "EACCES: permission denied, stat '/sandbox/notes.txt'"))).
Proof.
  apply (@writeFile_stat_error_rethrown DeniedFs.t _ sandbox
           (Some (list_to_map [("path", Js.VStr "notes.txt"); ("content", Js.VStr "x")]))
           "notes.txt" "x" "/sandbox/notes.txt" [] [MemFs.Access "/sandbox"]
           [MemFs.Access "/sandbox"; MemFs.Stat "/sandbox/notes.txt"]
           {| Fs.code := "EACCES";
              Fs.message := "EACCES: permission denied, stat '/sandbox/notes.txt'" |}).
  - vm_compute. reflexivity.
  - vm_compute. reflexivity.
  - vm_compute. reflexivity.
  - vm_compute. reflexivity.
  - vm_compute. reflexivity.
  - discriminate.
Defined.

Lemma writeFile_missing_target_witness :
  Server.callTool (Server.methods sandbox) "write_file"
    (Some (list_to_map [("path", Js.VStr "notes.txt"); ("content", Js.VStr "hello")]))
    MemFs.emptySandbox
  = ((MemFs.writeFile "/sandbox/notes.txt" "hello"
        (MemFs.logged (MemFs.Stat "/sandbox/notes.txt")
           (MemFs.logged (MemFs.Access "/sandbox") MemFs.emptySandbox))).1,
     Js.Return (Response.ofText
       match @inr Fs.failure unit tt with
       | inr _ => "File written successfully: " +:+ "notes.txt"
       | inl refused => "Error processing tool 'write_file': " +:+ Fs.message refused
       end)).
Proof.
  apply (writeFile_missing_target sandbox
           (Some (list_to_map [("path", Js.VStr "notes.txt"); ("content", Js.VStr "hello")]))
           "notes.txt" "hello" "/sandbox/notes.txt" MemFs.emptySandbox
           (MemFs.logged (MemFs.Access "/sandbox") MemFs.emptySandbox)
           (MemFs.logged (MemFs.Stat "/sandbox/notes.txt")
              (MemFs.logged (MemFs.Access "/sandbox") MemFs.emptySandbox))
           _
           {| Fs.code := "ENOENT";
              Fs.message := "ENOENT: no such file or directory, stat '/sandbox/notes.txt'" |}
           (inr tt)).
  - vm_compute. reflexivity.
  - vm_compute. reflexivity.
  - vm_compute. reflexivity.
  - vm_compute. reflexivity.
  - vm_compute. reflexivity.
  - reflexivity.
  - vm_compute. reflexivity.
Defined.

(** * Further properties in the in-memory file system *)

Module MemFsOps.

(** [mkdir -p] keeps every node that is there. *)
Lemma mkdirAll_preserves (fresh_ : MemFs.meta) (dirs : list string)
    (m m' : gmap string MemFs.node) :
  MemFs.mkdirAll fresh_ dirs m = inr m' →
  ∀ k n, m !! k = Some n → m' !! k = Some n.
Proof.
  revert m. induction dirs as [|d r IH]; intros m Hall k n Hk; simpl in Hall.
  - by injection Hall as <-.
  - destruct (m !! d) as [[]|] eqn:Hd; try done.
    + by apply (IH m).
    + apply (IH _ Hall). rewrite lookup_insert_ne; [done|]. congruence.
Qed.

(** After it, the directories asked for are there. *)
Lemma mkdirAll_directories (fresh_ : MemFs.meta) (dirs : list string)
    (m m' : gmap string MemFs.node) :
  MemFs.mkdirAll fresh_ dirs m = inr m' →
  Forall (λ d, MemFs.isDirectoryNode (m' !! d) = true) dirs.
Proof.
  revert m. induction dirs as [|d r IH]; intros m Hall; [done|]. simpl in Hall.
  destruct (m !! d) as [[]|] eqn:Hd; try done.
  - constructor; [|by apply (IH m)].
    by rewrite (mkdirAll_preserves _ _ _ _ Hall d _ Hd).
  - constructor; [|by apply (IH _ Hall)].
    by rewrite (mkdirAll_preserves _ _ _ _ Hall d (MemFs.Directory fresh_))
      by apply lookup_insert_eq.
Qed.

(** Where they are there already, it changes nothing. *)
Lemma mkdirAll_present (fresh_ : MemFs.meta) (dirs : list string)
    (m : gmap string MemFs.node) :
  Forall (λ d, MemFs.isDirectoryNode (m !! d) = true) dirs →
  MemFs.mkdirAll fresh_ dirs m = inr m.
Proof.
  induction 1 as [|d r Hd Hr IH]; [done|]. simpl.
  by destruct (m !! d) as [[]|].
Qed.



End MemFsOps.

(** X11 (idempotent directory creation), in the in-memory file system.
    When [createDirectory] has succeeded, calling it again with the same path
    right after succeeds with the same answer and leaves the nodes as they
    are. *)
Theorem createDirectory_idempotent (proc : Process.t) (w w1 : MemFs.t)
    (dirPath : string) (response : Response.t) :
  Server.createDirectory proc dirPath w = (w1, Js.Return response) →
  ∃ w2, Server.createDirectory proc dirPath w1 = (w2, Js.Return response)
        ∧ MemFs.nodes w2 = MemFs.nodes w1.
Proof.
  unfold Server.createDirectory, Js.bind, Js.lift, Fs.await, Js.ret.
  destruct (Server.validatePath proc dirPath) as [safePath|e]; [|done].
  cbn [Fs.mkdir MemFs.api]. unfold MemFs.mkdir.
  destruct (MemFs.mkdirAll _ _ (MemFs.nodes w)) as [errno|m] eqn:Hall.
  { by repeat case_decide. }
  intros [= <- <-]. cbn [MemFs.nodes MemFs.fresh MemFs.withNodes MemFs.logged].
  rewrite MemFsOps.mkdirAll_present by (by eapply MemFsOps.mkdirAll_directories).
  by eexists.
Qed.

Lemma createDirectory_idempotent_witness :
  ∃ w2,
    Server.createDirectory sandbox "a/b"
      (Server.createDirectory sandbox "a/b" MemFs.emptySandbox).1
    = (w2, Js.Return (Response.ofText "Directory created: a/b"))
    ∧ MemFs.nodes w2
      = MemFs.nodes (Server.createDirectory sandbox "a/b" MemFs.emptySandbox).1.
Proof.
  apply (createDirectory_idempotent sandbox MemFs.emptySandbox
           (Server.createDirectory sandbox "a/b" MemFs.emptySandbox).1 "a/b").
  vm_compute. reflexivity.
Defined.



(** X14 (deleting a file), in the in-memory file system.  For an accepted
    path that is a file, [deleteItem] succeeds with the confirmation that
    quotes the caller's path and removes that node only: the nodes are those
    there were, less the path. *)
Theorem deleteItem_removes_file_only (proc : Process.t) (w : MemFs.t)
    (itemPath safePath content : string) (m : MemFs.meta) :
  Server.validatePath proc itemPath = Js.Return safePath →
  MemFs.nodes w !! safePath = Some (MemFs.File content m) →
  ∃ w1,
    Server.deleteItem proc itemPath w
    = (w1, Js.Return (Response.ofText ("Deleted: " +:+ itemPath)))
    ∧ MemFs.nodes w1 = delete safePath (MemFs.nodes w)
    ∧ MemFs.trace w1 = MemFs.trace w ++ [MemFs.Stat safePath; MemFs.Unlink safePath].
Proof.
  intros Hv Hfile.
  unfold Server.deleteItem, Js.bind, Js.lift, Fs.await, Js.ret.
  rewrite Hv. cbn [Fs.stat Fs.unlink MemFs.api]. unfold MemFs.stat. rewrite Hfile.
  cbn [mbind option_bind MemFs.statsOf Stats.isDirectory]. unfold MemFs.unlink.
  cbn [MemFs.nodes MemFs.logged]. rewrite Hfile.
  eexists. split; [done|].
  cbn [MemFs.nodes MemFs.trace MemFs.withNodes MemFs.logged].
  by rewrite <- List.app_assoc.
Qed.

Lemma deleteItem_removes_file_only_witness :
  ∃ w1,
    Server.deleteItem sandbox "a.txt" listingWorld
    = (w1, Js.Return (Response.ofText ("Deleted: " +:+ "a.txt")))
    ∧ MemFs.nodes w1 = delete "/sandbox/a.txt" (MemFs.nodes listingWorld)
    ∧ MemFs.trace w1
      = MemFs.trace listingWorld ++ [MemFs.Stat "/sandbox/a.txt"; MemFs.Unlink "/sandbox/a.txt"].
Proof.
  apply (deleteItem_removes_file_only sandbox listingWorld "a.txt" "/sandbox/a.txt" "hello"
           (MemFs.plain 420)).
  - vm_compute. reflexivity.
  - vm_compute. reflexivity.
Defined.



(** The two failures, at work: below a regular file and at a dead link. *)
Example missing_targets :
  throughFile (MemFs.nodes listingWorld) "/sandbox/a.txt/x" = true
  ∧ (call sandbox "get_file_info" [("path", Js.VStr "a.txt/x")] listingWorld).2
    = Js.Return (Response.ofText
        "Error processing tool 'get_file_info': ENOTDIR: not a directory, stat '/sandbox/a.txt/x'")
  ∧ (call sandbox "list_directory" [("path", Js.VStr "gone")] listingWorld).2
    = Js.Return (Response.ofText
        "Error processing tool 'list_directory': ENOENT: no such file or directory, scandir '/sandbox/gone'")
  ∧ (call sandbox "create_directory" [("path", Js.VStr "a.txt/x")] listingWorld).2
    = Js.Return (Response.ofText
        "Error processing tool 'create_directory': ENOTDIR: not a directory, mkdir '/sandbox/a.txt/x'")
  ∧ (call sandbox "create_directory" [("path", Js.VStr "a.txt")] listingWorld).2
    = Js.Return (Response.ofText
        "Error processing tool 'create_directory': EEXIST: file already exists, mkdir '/sandbox/a.txt'").
Proof. repeat split; vm_compute; reflexivity. Qed.

Module MemFsCalls.

(** What each call leaves behind: the record grows by the call, and the
    calls that only look leave the nodes as they are. *)
Lemma stat_world (p : string) (w : MemFs.t) :
  ∃ answer, MemFs.stat p w = (MemFs.logged (MemFs.Stat p) w, answer).
Proof. by eexists. Qed.

Lemma access_world (p : string) (w : MemFs.t) :
  ∃ answer, MemFs.access_ p w = (MemFs.logged (MemFs.Access p) w, answer).
Proof. by eexists. Qed.

Lemma readdir_world (p : string) (w : MemFs.t) :
  ∃ answer, MemFs.readdir p w = (MemFs.logged (MemFs.Readdir p) w, answer).
Proof. by eexists. Qed.

Lemma readFile_world (p : string) (w : MemFs.t) :
  ∃ answer, MemFs.readFile p w = (MemFs.logged (MemFs.ReadFile p) w, answer).
Proof. by eexists. Qed.

Lemma writeFile_trace (p content : string) (w : MemFs.t) :
  MemFs.trace (MemFs.writeFile p content w).1
  = MemFs.trace w ++ [MemFs.WriteFile p content].
Proof. unfold MemFs.writeFile. by repeat case_match. Qed.

Lemma mkdir_trace (p : string) (w : MemFs.t) :
  MemFs.trace (MemFs.mkdir p w).1 = MemFs.trace w ++ [MemFs.Mkdir p].
Proof. unfold MemFs.mkdir. by repeat case_match. Qed.

Lemma rm_trace (p : string) (w : MemFs.t) :
  MemFs.trace (MemFs.rm p w).1 = MemFs.trace w ++ [MemFs.Rm p].
Proof. unfold MemFs.rm. by repeat case_match. Qed.

Lemma unlink_trace (p : string) (w : MemFs.t) :
  MemFs.trace (MemFs.unlink p w).1 = MemFs.trace w ++ [MemFs.Unlink p].
Proof. unfold MemFs.unlink. by repeat case_match. Qed.

Lemma calls_none (allowed : MemFs.access → Prop) (w : MemFs.t) :
  callsBetween allowed w w.
Proof. exists []. by rewrite List.app_nil_r. Qed.

Lemma calls_one (allowed : MemFs.access → Prop) (a : MemFs.access) (w w1 : MemFs.t) :
  allowed a → MemFs.trace w1 = MemFs.trace w ++ [a] → callsBetween allowed w w1.
Proof. intros Ha Ht. exists [a]. split; [done|]. by constructor. Qed.

Lemma calls_more (allowed : MemFs.access → Prop) (w w1 w2 : MemFs.t) :
  callsBetween allowed w w1 → callsBetween allowed w1 w2 → callsBetween allowed w w2.
Proof.
  intros (l1 & H1 & Hl1) (l2 & H2 & Hl2). exists (l1 ++ l2).
  split; [by rewrite H2, H1, List.app_assoc | by apply Forall_app].
Qed.

(** The entries of a listing are made with one [stat] each, in order, and
    always come out. *)
Lemma listEntries_calls (safePath : string) (items : list Dirent.t) (w : MemFs.t) :
  ∃ w1 contents,
    Js.mapM (Server.listEntry safePath) items w = (w1, Js.Return contents)
    ∧ length contents = length items
    ∧ MemFs.nodes w1 = MemFs.nodes w
    ∧ MemFs.trace w1
      = MemFs.trace w
        ++ map (λ item, MemFs.Stat (Path.join [safePath; Dirent.name item])) items.
Proof.
  revert w. induction items as [|item rest IH]; intros w.
  - exists w, []. by rewrite List.app_nil_r.
  - cbn [Js.mapM]. unfold Js.bind at 1.
    assert (Hentry : ∃ entry,
      Server.listEntry safePath item w
      = (MemFs.logged (MemFs.Stat (Path.join [safePath; Dirent.name item])) w,
         Js.Return entry)).
    { unfold Server.listEntry, Js.tryCatch, Js.bind, Fs.await, Js.ret.
      cbn [Fs.stat MemFs.api].
      destruct (stat_world (Path.join [safePath; Dirent.name item]) w) as [[failure|stats] ->];
        by eexists. }
    destruct Hentry as [entry ->].
    destruct (IH (MemFs.logged (MemFs.Stat (Path.join [safePath; Dirent.name item])) w))
      as (w1 & contents & Hrest & Hlen & Hnodes & Htrace).
    unfold Js.bind, Js.ret. rewrite Hrest.
    exists w1, (entry :: contents). repeat split; [by cbn [length]; rewrite Hlen|done|].
    rewrite Htrace. cbn [MemFs.trace MemFs.logged map]. by rewrite <- List.app_assoc.
Qed.

(** The calls of a listing, as a whole. *)
Lemma listEntries_between (allowed : MemFs.access → Prop) (safePath : string)
    (items : list Dirent.t) (w : MemFs.t) :
  (∀ item, item ∈ items → allowed (MemFs.Stat (Path.join [safePath; Dirent.name item]))) →
  ∃ w1 contents,
    Js.mapM (Server.listEntry safePath) items w = (w1, Js.Return contents)
    ∧ MemFs.nodes w1 = MemFs.nodes w
    ∧ callsBetween allowed w w1.
Proof.
  intros Hall.
  destruct (listEntries_calls safePath items w) as (w1 & contents & Hrun & _ & Hnodes & Htrace).
  exists w1, contents. repeat split; [done..|].
  eexists. split; [done|]. apply Forall_forall.
  intros a (item & -> & Hitem)%list_elem_of_fmap. by apply Hall.
Qed.

End MemFsCalls.

(** The calls of [writeFile]: [access] on the parent directory first, then
    calls on the validated path only. *)
Lemma writeFile_calls (proc : Process.t) (w : MemFs.t) (p c safePath : string) :
  Server.validatePath proc p = Js.Return safePath →
  ∃ later,
    MemFs.trace (Server.writeFile proc p c w).1
    = MemFs.trace w ++ MemFs.Access (Path.dirname safePath) :: later
    ∧ Forall (λ a, accessPath a = safePath) later.
Proof.
  intros Hv.
  set (wa := MemFs.logged (MemFs.Access (Path.dirname safePath)) w).
  assert (Hrest : callsBetween (λ a, accessPath a = safePath) wa
                    (Server.writeFile proc p c w).1).
  { unfold Server.writeFile, Js.bind, Js.lift, Js.tryCatch, Fs.await, Js.throw, Js.ret.
    rewrite Hv. cbn [Fs.stat Fs.access Fs.writeFile MemFs.api].
    set (allowed := λ a, accessPath a = safePath).
    destruct (MemFsCalls.access_world (Path.dirname safePath) w) as [[refused|[]] ->];
      [apply MemFsCalls.calls_none|]. fold wa.
    assert (Hsecond : callsBetween allowed wa (MemFs.logged (MemFs.Stat safePath) wa))
      by (by apply (MemFsCalls.calls_one _ (MemFs.Stat safePath))).
    destruct (MemFsCalls.stat_world safePath wa) as [answer ->].
    assert (Hwrite : ∀ w3 : MemFs.t, ∀ o3 : Js.outcome Response.t,
      (let (w', o) :=
         let (w', r) := MemFs.writeFile safePath c (MemFs.logged (MemFs.Stat safePath) wa) in
         match r with
         | inl f => (w', Js.Throw (Js.ErrnoException (Fs.code f) (Fs.message f)))
         | inr a => (w', Js.Return a)
         end in
       match o with
       | Js.Return _ =>
           (w', Js.Return (Response.ofText ("File written successfully: " +:+ p)))
       | Js.Throw e => (w', Js.Throw e)
       end) = (w3, o3) →
      callsBetween allowed wa w3).
    { intros w3 o3.
      pose proof (MemFsCalls.writeFile_trace safePath c
                    (MemFs.logged (MemFs.Stat safePath) wa)) as Ht.
      destruct (MemFs.writeFile safePath c _) as [w' [f|[]]]; cbn [fst] in Ht;
        intros [= <- _];
        (eapply MemFsCalls.calls_more; [exact Hsecond|];
         by apply (MemFsCalls.calls_one _ (MemFs.WriteFile safePath c))). }
    destruct answer as [failure|stats].
    - cbn [Js.code]. case_bool_decide; [done|].
      by eapply Hwrite, surjective_pairing.
    - destruct (Stats.isDirectory stats).
      { cbn [Js.code]. by rewrite bool_decide_eq_true_2. }
      by eapply Hwrite, surjective_pairing. }
  destruct Hrest as (later & Htrace & Hlater). exists later. split; [|done].
  rewrite Htrace. cbn [MemFs.trace MemFs.logged wa]. by rewrite <- List.app_assoc.
Qed.

(** X16 ([writeFile] touches its target only), in the in-memory file
    system, whose nodes are directories, regular files and dead links.  For
    an accepted path, whatever the state of the file system: [writeFile]
    leaves every node other than the validated path as it was; when it
    succeeds the validated path is a file that holds the UTF-8 bytes of the
    content given, and when it throws no node has changed. *)
Theorem writeFile_touches_only_target (proc : Process.t) (w w1 : MemFs.t)
    (filePath content safePath : string) (o : Js.outcome Response.t) :
  Server.validatePath proc filePath = Js.Return safePath →
  Server.writeFile proc filePath content w = (w1, o) →
  (∀ k, k ≠ safePath → MemFs.nodes w1 !! k = MemFs.nodes w !! k)
  ∧ match o with
    | Js.Return _ =>
        ∃ m, MemFs.nodes w1 !! safePath = Some (MemFs.File (Utf8.encode content) m)
    | Js.Throw _ => MemFs.nodes w1 = MemFs.nodes w
    end.
Proof.
  intros Hv.
  unfold Server.writeFile, Js.bind, Js.lift, Js.tryCatch, Fs.await, Js.throw, Js.ret.
  rewrite Hv. cbn [Fs.stat Fs.access Fs.writeFile MemFs.api].
  unfold MemFs.access_.
  assert (Hparent : ∃ answer : Fs.result unit,
    match MemFs.nodes w !! Path.dirname safePath with
    | Some n => match MemFs.statsOf n with
                | Some _ => inr ()
                | None => MemFs.enoent "access" (Path.dirname safePath)
                end
    | None => MemFs.notFound (MemFs.nodes w) "access" (Path.dirname safePath)
    end = answer) by (by eexists).
  destruct Hparent as [[refused|[]] ->]; [by intros [= <- <-]|].
  unfold MemFs.stat, MemFs.writeFile. cbn [MemFs.nodes MemFs.logged].
  destruct (MemFs.nodes w !! safePath) as [[c0 m0|m0|]|] eqn:Htarget;
    cbn [MemFs.statsOf Stats.isDirectory Js.code Fs.code];
    cbn [MemFs.nodes MemFs.logged]; rewrite ?Htarget.
  - intros [= <- <-]. cbn [MemFs.nodes MemFs.withNodes MemFs.logged].
    split; [intros k Hk; by rewrite lookup_insert_ne | eexists; apply lookup_insert_eq].
  - rewrite bool_decide_eq_true_2 by done. by intros [= <- <-].
  - unfold MemFs.enoent, MemFs.fail. cbn [Fs.code Js.code].
    rewrite bool_decide_eq_false_2 by (intros Hne; by apply Hne).
    cbn [MemFs.nodes MemFs.logged]. rewrite Htarget. by intros [= <- <-].
  - destruct (MemFsFacts.notFound_inl (A:=Stats.t) (MemFs.nodes w) "stat" safePath)
      as (failure & -> & Hcode).
    cbn [Js.code]. case_bool_decide as Hc; [by intros [= <- <-]|].
    cbn [MemFs.nodes MemFs.logged]. rewrite Htarget.
    destruct (MemFs.nodes w !! Path.dirname safePath) as [[]|];
      try (destruct (MemFsFacts.notFound_inl (A:=unit) (MemFs.nodes w) "open" safePath)
             as (refused & -> & _));
      intros [= <- <-]; cbn [MemFs.nodes MemFs.withNodes MemFs.logged]; try done.
    split; [intros k Hk; by rewrite lookup_insert_ne | eexists; apply lookup_insert_eq].
Qed.

Lemma writeFile_touches_only_target_witness :
  (∀ k, k ≠ "/sandbox/a.txt" →
        MemFs.nodes (Server.writeFile sandbox "a.txt" "new" listingWorld).1 !! k
        = MemFs.nodes listingWorld !! k)
  ∧ match (Server.writeFile sandbox "a.txt" "new" listingWorld).2 with
    | Js.Return _ =>
        ∃ m, MemFs.nodes (Server.writeFile sandbox "a.txt" "new" listingWorld).1
               !! "/sandbox/a.txt" = Some (MemFs.File (Utf8.encode "new") m)
    | Js.Throw _ =>
        MemFs.nodes (Server.writeFile sandbox "a.txt" "new" listingWorld).1
        = MemFs.nodes listingWorld
    end.
Proof.
  apply (writeFile_touches_only_target sandbox listingWorld _ "a.txt" "new" "/sandbox/a.txt").
  - vm_compute. reflexivity.
  - apply surjective_pairing.
Defined.

(** X17 (looking changes nothing), in the in-memory file system.  For
    every path and every state of the file system, [listDirectory], [readFile]
    and [getFileInfo] leave the nodes as they are, and none of the storage
    calls they make is one that writes, creates or removes. *)
Theorem reading_handlers_change_nothing (proc : Process.t) (w : MemFs.t) (path : string)
    (i : invocation) :
  i ∈ [ListDirectory path; ReadFile path; GetFileInfo path] →
  MemFs.nodes (invoke (Server.methods proc) i w).1 = MemFs.nodes w
  ∧ callsBetween (λ a, mutating a = false) w (invoke (Server.methods proc) i w).1.
Proof.
  intros Hi.
  repeat (apply elem_of_cons in Hi as [->|Hi]); [..|by apply elem_of_nil in Hi];
    unfold invoke; methods_unfold.
  - unfold Server.listDirectory, Js.bind, Js.lift, Fs.await.
    destruct (Server.validatePath proc path) as [safePath|e];
      [|split; [done|apply MemFsCalls.calls_none]].
    cbn [Fs.readdir MemFs.api].
    destruct (MemFsCalls.readdir_world safePath w) as [[failure|items] ->].
    { split; [done|]. by apply (MemFsCalls.calls_one _ (MemFs.Readdir safePath)). }
    destruct (MemFsCalls.listEntries_between (λ a, mutating a = false) safePath items
                (MemFs.logged (MemFs.Readdir safePath) w))
      as (w1 & contents & -> & Hnodes & Hcalls); [done|].
    cbn [fst Js.ret]. split; [done|].
    eapply MemFsCalls.calls_more; [|exact Hcalls].
    by apply (MemFsCalls.calls_one _ (MemFs.Readdir safePath)).
  - unfold Server.readFile, Js.bind, Js.lift, Fs.await, Js.throw, Js.ret.
    destruct (Server.validatePath proc path) as [safePath|e];
      [|split; [done|apply MemFsCalls.calls_none]].
    cbn [Fs.stat Fs.readFile MemFs.api].
    destruct (MemFsCalls.stat_world safePath w) as [[failure|stats] ->].
    { split; [done|]. by apply (MemFsCalls.calls_one _ (MemFs.Stat safePath)). }
    destruct (Stats.isDirectory stats).
    { split; [done|]. by apply (MemFsCalls.calls_one _ (MemFs.Stat safePath)). }
    destruct (MemFsCalls.readFile_world safePath (MemFs.logged (MemFs.Stat safePath) w))
      as [answer ->].
    assert (Hboth : ∀ o : Js.outcome Response.t,
      MemFs.nodes (MemFs.logged (MemFs.ReadFile safePath)
                     (MemFs.logged (MemFs.Stat safePath) w), o).1 = MemFs.nodes w
      ∧ callsBetween (λ a, mutating a = false) w
          (MemFs.logged (MemFs.ReadFile safePath)
             (MemFs.logged (MemFs.Stat safePath) w), o).1).
    { intros o. split; [done|].
      apply (MemFsCalls.calls_more _ w (MemFs.logged (MemFs.Stat safePath) w));
        [by apply (MemFsCalls.calls_one _ (MemFs.Stat safePath))
        |by apply (MemFsCalls.calls_one _ (MemFs.ReadFile safePath))]. }
    destruct answer; apply Hboth.
  - unfold Server.getFileInfo, Js.bind, Js.lift, Fs.await, Js.ret.
    destruct (Server.validatePath proc path) as [safePath|e];
      [|split; [done|apply MemFsCalls.calls_none]].
    cbn [Fs.stat MemFs.api].
    destruct (MemFsCalls.stat_world safePath w) as [[failure|stats] ->];
      (split; [done|]; by apply (MemFsCalls.calls_one _ (MemFs.Stat safePath))).
Qed.

Lemma reading_handlers_change_nothing_witness :
  MemFs.nodes (invoke (Server.methods sandbox) (ListDirectory ".") listingWorld).1
  = MemFs.nodes listingWorld
  ∧ callsBetween (λ a, mutating a = false) listingWorld
      (invoke (Server.methods sandbox) (ListDirectory ".") listingWorld).1.
Proof.
  apply (reading_handlers_change_nothing sandbox listingWorld "." (ListDirectory ".")).
  apply list_elem_of_here.
Defined.

(** X18 (storage calls stay on the validated path), in the in-memory
    file system.  For an accepted path and every state of the file system,
    every storage call a handler makes is made on the validated path, except
    that [writeFile] also looks at its parent directory and [listDirectory]
    also looks at the entries [readdir] gave, each joined to the validated
    path. *)
Theorem storage_calls_on_validated_path (proc : Process.t) (w : MemFs.t)
    (i : invocation) (safePath : string) :
  Server.validatePath proc (pathOf i) = Js.Return safePath →
  callsBetween (λ a, reachable i safePath w (accessPath a)) w
    (invoke (Server.methods proc) i w).1.
Proof.
  intros Hv. destruct i as [p|p|p c|p|p|p]; cbn [pathOf] in Hv;
    unfold invoke; methods_unfold.
  - unfold Server.listDirectory, Js.bind, Js.lift, Fs.await. rewrite Hv.
    cbn [Fs.readdir MemFs.api].
    assert (Hfirst : callsBetween
              (λ a, reachable (ListDirectory p) safePath w (accessPath a)) w
              (MemFs.logged (MemFs.Readdir safePath) w)).
    { apply (MemFsCalls.calls_one _ (MemFs.Readdir safePath)); [by left|done]. }
    unfold MemFs.readdir.
    destruct (MemFs.nodes w !! safePath) as [[]|] eqn:Hnode;
      try (destruct (MemFsFacts.notFound_inl (A:=list Dirent.t) (MemFs.nodes w)
                       "scandir" safePath) as (failure & -> & _));
      try exact Hfirst.
    destruct (MemFsCalls.listEntries_between
                (λ a, reachable (ListDirectory p) safePath w (accessPath a)) safePath
                (MemFs.children safePath (MemFs.nodes w))
                (MemFs.logged (MemFs.Readdir safePath) w))
      as (w1 & contents & -> & Hnodes & Hcalls).
    { intros item Hitem. right; right. split; [done|]. by exists item. }
    cbn [fst Js.ret]. by eapply MemFsCalls.calls_more.
  - unfold Server.readFile, Js.bind, Js.lift, Fs.await, Js.throw, Js.ret. rewrite Hv.
    cbn [Fs.stat Fs.readFile MemFs.api].
    assert (Hfirst : callsBetween
              (λ a, reachable (ReadFile p) safePath w (accessPath a)) w
              (MemFs.logged (MemFs.Stat safePath) w)).
    { apply (MemFsCalls.calls_one _ (MemFs.Stat safePath)); [by left|done]. }
    destruct (MemFsCalls.stat_world safePath w) as [[failure|stats] ->]; [done|].
    destruct (Stats.isDirectory stats); [done|].
    destruct (MemFsCalls.readFile_world safePath (MemFs.logged (MemFs.Stat safePath) w))
      as [answer ->].
    assert (Hboth : ∀ o : Js.outcome Response.t,
      callsBetween (λ a, reachable (ReadFile p) safePath w (accessPath a)) w
        (MemFs.logged (MemFs.ReadFile safePath)
           (MemFs.logged (MemFs.Stat safePath) w), o).1).
    { intros o. eapply MemFsCalls.calls_more; [exact Hfirst|].
      apply (MemFsCalls.calls_one _ (MemFs.ReadFile safePath)); [by left|done]. }
    destruct answer; apply Hboth.
  - destruct (writeFile_calls proc w p c safePath Hv) as (later & Htrace & Hlater).
    exists (MemFs.Access (Path.dirname safePath) :: later). split; [done|].
    constructor; [right; left; by split|].
    eapply Forall_impl; [exact Hlater|]. intros a Ha. by left.
  - unfold Server.createDirectory, Js.bind, Js.lift, Fs.await, Js.ret. rewrite Hv.
    cbn [Fs.mkdir MemFs.api].
    pose proof (MemFsCalls.mkdir_trace safePath w) as Ht.
    destruct (MemFs.mkdir safePath w) as [w1 [failure|[]]]; cbn [fst] in *;
      (apply (MemFsCalls.calls_one _ (MemFs.Mkdir safePath)); [by left|done]).
  - unfold Server.deleteItem, Js.bind, Js.lift, Fs.await, Js.ret. rewrite Hv.
    cbn [Fs.stat Fs.rm Fs.unlink MemFs.api].
    assert (Hfirst : callsBetween
              (λ a, reachable (DeleteItem p) safePath w (accessPath a)) w
              (MemFs.logged (MemFs.Stat safePath) w)).
    { apply (MemFsCalls.calls_one _ (MemFs.Stat safePath)); [by left|done]. }
    destruct (MemFsCalls.stat_world safePath w) as [[failure|stats] ->]; [done|].
    destruct (Stats.isDirectory stats).
    + pose proof (MemFsCalls.rm_trace safePath (MemFs.logged (MemFs.Stat safePath) w)) as Ht.
      destruct (MemFs.rm safePath _) as [w2 [failure|[]]]; cbn [fst] in *;
        (eapply MemFsCalls.calls_more; [exact Hfirst|];
         apply (MemFsCalls.calls_one _ (MemFs.Rm safePath)); [by left|done]).
    + pose proof (MemFsCalls.unlink_trace safePath (MemFs.logged (MemFs.Stat safePath) w))
        as Ht.
      destruct (MemFs.unlink safePath _) as [w2 [failure|[]]]; cbn [fst] in *;
        (eapply MemFsCalls.calls_more; [exact Hfirst|];
         apply (MemFsCalls.calls_one _ (MemFs.Unlink safePath)); [by left|done]).
  - unfold Server.getFileInfo, Js.bind, Js.lift, Fs.await, Js.ret. rewrite Hv.
    cbn [Fs.stat MemFs.api].
    destruct (MemFsCalls.stat_world safePath w) as [[failure|stats] ->];
      (apply (MemFsCalls.calls_one _ (MemFs.Stat safePath)); [by left|done]).
Qed.

Lemma storage_calls_on_validated_path_witness :
  callsBetween (λ a, reachable (WriteFile "notes.txt" "hello") "/sandbox/notes.txt"
                       MemFs.emptySandbox (accessPath a))
    MemFs.emptySandbox
    (invoke (Server.methods sandbox) (WriteFile "notes.txt" "hello") MemFs.emptySandbox).1.
Proof.
  apply (storage_calls_on_validated_path sandbox MemFs.emptySandbox
           (WriteFile "notes.txt" "hello") "/sandbox/notes.txt").
  vm_compute. reflexivity.
Defined.



(** * The permission bits *)





(** * The advertised tools and the dispatcher *)

(** What conformance to the advertised schemas comes to: the required
    arguments are strings. *)
Lemma conforms_path (description : string) (args : option (gmap string Js.value)) :
  conforms {| InputSchema.type := "object";
              InputSchema.properties :=
                [("path", {| SchemaProperty.type := "string";
                             SchemaProperty.description := description |})];
              InputSchema.required := ["path"] |} args
  = bool_decide (is_Some (Server.stringArg args "path")).
Proof.
  destruct args as [bag|]; [|done].
  unfold conforms, Server.stringArg. cbn [forallb fst snd InputSchema.required
    InputSchema.properties SchemaProperty.type].
  destruct (bag !! "path") as [[]|]; done.
Qed.

Lemma conforms_path_content (description1 description2 : string)
    (args : option (gmap string Js.value)) :
  conforms {| InputSchema.type := "object";
              InputSchema.properties :=
                [("path", {| SchemaProperty.type := "string";
                             SchemaProperty.description := description1 |});
                 ("content", {| SchemaProperty.type := "string";
                                SchemaProperty.description := description2 |})];
              InputSchema.required := ["path"; "content"] |} args
  = bool_decide (is_Some (Server.stringArg args "path"))
    && bool_decide (is_Some (Server.stringArg args "content")).
Proof.
  destruct args as [bag|]; [|done].
  unfold conforms, Server.stringArg. cbn [forallb fst snd InputSchema.required
    InputSchema.properties SchemaProperty.type].
  destruct (bag !! "path") as [[]|]; destruct (bag !! "content") as [[]|]; done.
Qed.

(** X21 (the advertised tools are the dispatched ones).  The names the
    server advertises are the six names the dispatcher knows.  For an
    advertised name, a request whose arguments conform to the advertised
    input schema is dispatched to the method of that tool, with the [path] of
    the request, and one whose arguments do not conform is refused with a
    [Missing or invalid] error; for any other name the dispatcher throws the
    unknown-tool error, or the missing-name error when the name is empty. *)
Theorem advertised_tools_dispatched {W : Type} (this : Handlers.t W)
    (name : string) (args : option (gmap string Js.value)) :
  map Tool.name listTools = toolNames
  ∧ match List.find (λ tool, bool_decide (Tool.name tool = name)) listTools with
    | Some tool =>
        if conforms (Tool.inputSchema tool) args
        then ∃ i, toolName i = name
                  ∧ Server.stringArg args "path" = Some (pathOf i)
                  ∧ Server.callToolBody this name args = invoke this i
        else ∃ m, Server.callToolBody this name args = Js.throw (Js.Error m)
                  ∧ Str.startsWith m "Missing or invalid" = true
    | None =>
        Server.callToolBody this name args
        = Js.throw (Js.Error (if Str.isEmpty name then "Tool name is missing or invalid."
                              else "Unknown tool: " +:+ name))
    end.
Proof.
  split; [reflexivity|].
  unfold listTools.
  destruct (decide (name = "list_directory")) as [->|H1].
  { cbn [List.find Tool.name Tool.inputSchema]. rewrite bool_decide_eq_true_2 by done.
    cbn [Tool.inputSchema]. rewrite conforms_path.
    unfold Server.callToolBody. cbn [Str.isEmpty].
    destruct (Server.stringArg args "path") as [path|] eqn:Hp.
    - rewrite bool_decide_eq_true_2 by done. by exists (ListDirectory path).
    - rewrite bool_decide_eq_false_2 by (by intros [? ?]). by eexists. }
  destruct (decide (name = "read_file")) as [->|H2].
  { cbn [List.find Tool.name Tool.inputSchema]. rewrite bool_decide_eq_false_2 by done.
    rewrite bool_decide_eq_true_2 by done.
    cbn [Tool.inputSchema]. rewrite conforms_path.
    unfold Server.callToolBody. cbn [Str.isEmpty].
    destruct (Server.stringArg args "path") as [path|] eqn:Hp.
    - rewrite bool_decide_eq_true_2 by done. by exists (ReadFile path).
    - rewrite bool_decide_eq_false_2 by (by intros [? ?]). by eexists. }
  destruct (decide (name = "write_file")) as [->|H3].
  { cbn [List.find Tool.name Tool.inputSchema]. rewrite !bool_decide_eq_false_2 by done.
    rewrite bool_decide_eq_true_2 by done.
    cbn [Tool.inputSchema]. rewrite conforms_path_content.
    unfold Server.callToolBody. cbn [Str.isEmpty].
    destruct (Server.stringArg args "path") as [path|] eqn:Hp.
    - rewrite bool_decide_eq_true_2 by done.
      destruct (Server.stringArg args "content") as [content|] eqn:Hc.
      + rewrite bool_decide_eq_true_2 by done. by exists (WriteFile path content).
      + rewrite bool_decide_eq_false_2 by (by intros [? ?]). by eexists.
    - rewrite bool_decide_eq_false_2 by (by intros [? ?]). by eexists. }
  destruct (decide (name = "create_directory")) as [->|H4].
  { cbn [List.find Tool.name Tool.inputSchema]. rewrite !bool_decide_eq_false_2 by done.
    rewrite bool_decide_eq_true_2 by done.
    cbn [Tool.inputSchema]. rewrite conforms_path.
    unfold Server.callToolBody. cbn [Str.isEmpty].
    destruct (Server.stringArg args "path") as [path|] eqn:Hp.
    - rewrite bool_decide_eq_true_2 by done. by exists (CreateDirectory path).
    - rewrite bool_decide_eq_false_2 by (by intros [? ?]). by eexists. }
  destruct (decide (name = "delete_item")) as [->|H5].
  { cbn [List.find Tool.name Tool.inputSchema]. rewrite !bool_decide_eq_false_2 by done.
    rewrite bool_decide_eq_true_2 by done.
    cbn [Tool.inputSchema]. rewrite conforms_path.
    unfold Server.callToolBody. cbn [Str.isEmpty].
    destruct (Server.stringArg args "path") as [path|] eqn:Hp.
    - rewrite bool_decide_eq_true_2 by done. by exists (DeleteItem path).
    - rewrite bool_decide_eq_false_2 by (by intros [? ?]). by eexists. }
  destruct (decide (name = "get_file_info")) as [->|H6].
  { cbn [List.find Tool.name Tool.inputSchema]. rewrite !bool_decide_eq_false_2 by done.
    rewrite bool_decide_eq_true_2 by done.
    cbn [Tool.inputSchema]. rewrite conforms_path.
    unfold Server.callToolBody. cbn [Str.isEmpty].
    destruct (Server.stringArg args "path") as [path|] eqn:Hp.
    - rewrite bool_decide_eq_true_2 by done. by exists (GetFileInfo path).
    - rewrite bool_decide_eq_false_2 by (by intros [? ?]). by eexists. }
  cbn [List.find Tool.name]. rewrite !bool_decide_eq_false_2 by congruence.
  unfold Server.callToolBody.
  destruct (Str.isEmpty name); [done|].
  by rewrite !decide_False by done.
Qed.

(** * Children and parents of an accepted path *)

Module PathMore.
Import StrFacts PathFacts.

Local Arguments String.append !_ _ / : simpl nomatch.
Local Arguments Segments.joinSegments : simpl never.

(** The segments of a normalized absolute path are its own. *)
Lemma rootSegments_canonical (segs : list string) :
  Forall properSegment segs → rootSegments ("/" +:+ Segments.joinSegments segs) = segs.
Proof.
  intros Hsegs. unfold rootSegments.
  rewrite split_abs, normalizeSegments_empty_l.
  destruct segs as [|x r]; [done|].
  rewrite split_join by (by apply proper_slashFree || done).
  by apply normalizeSegments_id.
Qed.

(** [path.join] of a normalized absolute path and a name. *)
Lemma join_child (segs : list string) (name : string) :
  Forall properSegment segs → properSegment name →
  Path.join ["/" +:+ Segments.joinSegments segs; name]
  = "/" +:+ Segments.joinSegments (segs ++ [name]).
Proof.
  intros Hsegs Hname. pose proof Hname as (Hne & Hdot & Hdots & Hfree).
  unfold Path.join. cbn [Path.joinLoop].
  change (Str.isEmpty ("/" +:+ Segments.joinSegments segs)) with false.
  destruct name as [|c name'] eqn:En; [done|]. rewrite <- En in *.
  assert (Str.isEmpty name = false) as -> by (by rewrite En).
  cbv iota.
  set (joined := ("/" +:+ Segments.joinSegments segs) +:+ "/" +:+ name).
  assert (Hsegments : rootSegments joined = segs ++ [name]).
  { unfold rootSegments, joined. rewrite split_app_sep.
    rewrite (split_slashFree_id name) by done.
    unfold Segments.normalizeSegments. rewrite fold_left_app.
    pose proof (rootSegments_canonical segs Hsegs) as Hroot.
    unfold rootSegments, Segments.normalizeSegments in Hroot.
    apply (f_equal (@rev string)) in Hroot. rewrite rev_involutive in Hroot.
    rewrite Hroot. cbn [fold_left]. unfold Segments.normalizeStep.
    rewrite !decide_False by done. cbn [rev]. by rewrite rev_involutive. }
  assert (Hlast : Str.lastIs Path.CHAR_FORWARD_SLASH joined = false).
  { unfold joined. rewrite <- sapp_assoc, lastIs_app by done. by apply slashFree_last. }
  rewrite normalize_root by done. rewrite Hsegments, Hlast.
  destruct (segs ++ [name]); by rewrite sapp_nil_r.
Qed.

Lemma list_ascii_app (a b : string) :
  String.list_ascii_of_string (a +:+ b)
  = String.list_ascii_of_string a ++ String.list_ascii_of_string b.
Proof. induction a as [|c a IH]; [done|]. simpl. by rewrite IH. Qed.

Lemma slashFree_chars (s : string) :
  slashFree s →
  Forall (λ c, Path.isPosixPathSeparator c = false) (String.list_ascii_of_string s).
Proof.
  unfold slashFree. induction s as [|c s IH]; [constructor|].
  simpl. intros [Hc Hs]%orb_false_iff. constructor; [done|by apply IH].
Qed.

(** The scan of [path.dirname] over the last segment and the separator
    before it. *)
Lemma dirnameScan_segment (l before : list ascii) (matched : bool) :
  Forall (λ c, Path.isPosixPathSeparator c = false) l →
  (matched = true → l ≠ []) →
  Path.dirnameScan (l ++ Path.CHAR_FORWARD_SLASH :: before) matched
  = if decide (before = []) then None else Some before.
Proof.
  intros Hl. revert matched. induction Hl as [|c l Hc Hl IH]; intros matched Hm.
  - destruct matched; [by destruct Hm|].
    cbn [app Path.dirnameScan]. destruct before as [|b before]; [done|].
    by rewrite decide_False.
  - cbn [app Path.dirnameScan]. rewrite Hc.
    destruct (l ++ Path.CHAR_FORWARD_SLASH :: before) as [|x rest] eqn:E.
    { by destruct l. }
    by apply IH.
Qed.

(** [path.dirname] of a normalized absolute path with a last name. *)
Lemma dirname_child (segs : list string) (name : string) :
  Forall properSegment segs → properSegment name →
  Path.dirname ("/" +:+ Segments.joinSegments (segs ++ [name]))
  = "/" +:+ Segments.joinSegments segs.
Proof.
  intros Hsegs Hname. pose proof Hname as (Hne & Hdot & Hdots & Hfree).
  set (above := if decide (segs = []) then EmptyString
                else "/" +:+ Segments.joinSegments segs).
  assert (Hpath : "/" +:+ Segments.joinSegments (segs ++ [name])
                  = above +:+ "/" +:+ name).
  { unfold above. destruct segs as [|x r]; [done|].
    rewrite decide_False by done.
    rewrite ValidationFacts.join_app by done. by rewrite !sapp_assoc. }
  unfold Path.dirname.
  change (Str.isEmpty ("/" +:+ ?s)) with false.
  change (Str.firstIs Path.CHAR_FORWARD_SLASH ("/" +:+ ?s)) with true.
  cbv iota zeta. rewrite Hpath, list_ascii_app.
  change (String.list_ascii_of_string ("/" +:+ name))
    with (Path.CHAR_FORWARD_SLASH :: String.list_ascii_of_string name).
  rewrite rev_app_distr. cbn [rev]. rewrite <- List.app_assoc. cbn [app].
  rewrite dirnameScan_segment.
  - unfold above. destruct segs as [|x r].
    + by rewrite decide_True.
    + rewrite (decide_False (P := x :: r = [])) by done.
      assert (Hj := join_proper_nonempty (x :: r) Hsegs ltac:(done)).
      destruct (Segments.joinSegments (x :: r)) as [|c j] eqn:Ej; [done|].
      rewrite decide_False.
      2:{ intros Hnil. apply (f_equal (@length ascii)) in Hnil.
          rewrite length_rev in Hnil. done. }
      rewrite andb_true_l, bool_decide_eq_false_2.
      2:{ rewrite length_rev. cbn [String.list_ascii_of_string length String.append].
          destruct j; cbn; lia. }
      by rewrite rev_involutive, String.string_of_list_ascii_of_string.
  - apply Forall_rev. by apply slashFree_chars.
  - intros _ Hnil. apply (f_equal (@rev ascii)) in Hnil. rewrite rev_involutive in Hnil.
    by destruct name.
Qed.

End PathMore.

(** X22 (the children of a listed directory).  For an accepted path and a
    name such as [readdir] gives (not empty, not [.] or [..], without
    separator), the path [listDirectory] passes to [stat],
    [path.join(safePath, name)], is the validated path continued by that name,
    and it lies within the root directory. *)
Theorem child_paths_contained (proc : Process.t) (dirPath safePath name : string) :
  Path.isAbsolute (Process.cwd proc) = true →
  Server.validatePath proc dirPath = Js.Return safePath →
  properSegment name →
  Segments.components (Path.join [safePath; name]) = Segments.components safePath ++ [name]
  ∧ within (rootDirectory proc) (Path.join [safePath; name]).
Proof.
  intros Hcwd Hv Hname.
  destruct (Containment.accepted_segments _ _ _ Hcwd Hv)
    as (segs & below & Hsegs & Hsafe & _ & Habs & Hbelow).
  rewrite Hsafe, PathMore.join_child by done.
  assert (Hall : Forall properSegment (segs ++ [name])).
  { apply Forall_app. split; [done|]. by constructor. }
  rewrite !PathFacts.components_abs_join by done.
  split; [done|]. unfold within, rootDirectory.
  rewrite PathFacts.resolve_root by done.
  rewrite !PathFacts.components_abs_join by (done || apply PathFacts.rootSegments_proper).
  repeat split; [done..|]. right. exists (below ++ [name]).
  split; [by destruct below|]. by rewrite Hbelow, List.app_assoc.
Qed.

Lemma child_paths_contained_witness :
  Segments.components (Path.join ["/sandbox/docs"; "a.txt"])
  = Segments.components "/sandbox/docs" ++ ["a.txt"]
  ∧ within (rootDirectory sandbox) (Path.join ["/sandbox/docs"; "a.txt"]).
Proof.
  apply (child_paths_contained sandbox "docs" "/sandbox/docs" "a.txt").
  - reflexivity.
  - vm_compute. reflexivity.
  - repeat split; discriminate.
Defined.

(** X23 (the parent [writeFile] looks at).  For an accepted path other
    than the root directory, the directory [writeFile] passes to [access],
    [path.dirname(safePath)], is the validated path less its last name, and it
    lies within the root directory. *)
Theorem parent_check_contained (proc : Process.t) (filePath safePath : string) :
  Path.isAbsolute (Process.cwd proc) = true →
  Server.validatePath proc filePath = Js.Return safePath →
  safePath ≠ rootDirectory proc →
  (∃ name, Segments.components safePath
           = Segments.components (Path.dirname safePath) ++ [name])
  ∧ within (rootDirectory proc) (Path.dirname safePath).
Proof.
  intros Hcwd Hv Hnotroot.
  destruct (Containment.accepted_segments _ _ _ Hcwd Hv)
    as (segs & below & Hsegs & Hsafe & _ & Habs & Hbelow).
  unfold rootDirectory in *. rewrite PathFacts.resolve_root in * by done.
  destruct (decide (below = [])) as [->|Hne].
  { rewrite List.app_nil_r in Hbelow. by subst. }
  destruct (exists_last Hne) as (above & name & ->).
  subst segs. rewrite List.app_assoc in Hsafe, Hsegs.
  apply Forall_app in Hsegs as [Habove Hname]. apply Forall_inv in Hname.
  rewrite Hsafe, PathMore.dirname_child by done.
  rewrite !PathFacts.components_abs_join
    by (done || (apply Forall_app; split; [done|by constructor])).
  split; [by exists name|].
  unfold within. rewrite !PathFacts.components_abs_join
    by (done || apply PathFacts.rootSegments_proper).
  repeat split; [done..|].
  destruct above as [|a above]; [left; by rewrite List.app_nil_r|].
  right. by exists (a :: above).
Qed.

Lemma parent_check_contained_witness :
  (∃ name, Segments.components "/sandbox/docs/notes.txt"
           = Segments.components (Path.dirname "/sandbox/docs/notes.txt") ++ [name])
  ∧ within (rootDirectory sandbox) (Path.dirname "/sandbox/docs/notes.txt").
Proof.
  apply (parent_check_contained sandbox "docs/notes.txt" "/sandbox/docs/notes.txt").
  - reflexivity.
  - vm_compute. reflexivity.
  - vm_compute. discriminate.
Defined.

(** X24 (writing to the root looks outside of it), in the in-memory file
    system.  When the path given to [writeFile] is accepted as the root
    directory itself, and the root directory is not [/], the parent directory
    [writeFile] passes to [access] lies outside the root directory, and that
    call is made before anything else is looked at. *)
Theorem writeFile_on_root_looks_outside (proc : Process.t) (w : MemFs.t)
    (filePath content : string) :
  Path.isAbsolute (Process.cwd proc) = true →
  Server.validatePath proc filePath = Js.Return (rootDirectory proc) →
  rootDirectory proc ≠ "/" →
  ¬ within (rootDirectory proc) (Path.dirname (rootDirectory proc))
  ∧ ∃ later,
      MemFs.trace (Server.writeFile proc filePath content w).1
      = MemFs.trace w ++ MemFs.Access (Path.dirname (rootDirectory proc)) :: later.
Proof.
  intros Hcwd Hv Hnotslash. split.
  - destruct (Containment.accepted_segments _ _ _ Hcwd Hv)
      as (segs & below & Hsegs & Hsafe & _ & Habs & Hbelow).
    rewrite Hsafe. clear Hv Hbelow below.
    destruct (decide (segs = [])) as [->|Hne]; [by rewrite Hsafe in Hnotslash|].
    destruct (exists_last Hne) as (above & name & ->).
    apply Forall_app in Hsegs as [Habove Hname]. apply Forall_inv in Hname.
    rewrite PathMore.dirname_child by done.
    assert (Hall : Forall properSegment (above ++ [name]))
      by (apply Forall_app; split; [done|by constructor]).
    intros (_ & _ & [Heq | (below & _ & Heq)]).
    + apply (f_equal Segments.components) in Heq.
      rewrite !PathFacts.components_abs_join in Heq by done.
      apply (f_equal (@length string)) in Heq. rewrite length_app in Heq. cbn in Heq. lia.
    + rewrite !PathFacts.components_abs_join in Heq by done.
      apply (f_equal (@length string)) in Heq. rewrite !length_app in Heq. cbn in Heq. lia.
  - destruct (writeFile_calls proc w filePath content _ Hv) as (later & Htrace & _).
    by exists later.
Qed.

Lemma writeFile_on_root_looks_outside_witness :
  ¬ within (rootDirectory sandbox) (Path.dirname (rootDirectory sandbox))
  ∧ ∃ later,
      MemFs.trace (Server.writeFile sandbox "." "x" MemFs.emptySandbox).1
      = MemFs.trace MemFs.emptySandbox
        ++ MemFs.Access (Path.dirname (rootDirectory sandbox)) :: later.
Proof.
  apply (writeFile_on_root_looks_outside sandbox MemFs.emptySandbox "." "x").
  - reflexivity.
  - vm_compute. reflexivity.
  - vm_compute. discriminate.
Defined.

(** X25 (the default root).  When [MCP_FILE_BASE_PATH] is unset or empty,
    the root is the working directory of the process: for a working directory
    given as a normalized absolute path, as [process.cwd()] gives it, the root
    directory is that path, and [.] and the empty path are accepted and
    resolve to it. *)
Theorem default_root_is_working_directory (proc : Process.t) (segs : list string) :
  Process.env_MCP_FILE_BASE_PATH proc = None
  ∨ Process.env_MCP_FILE_BASE_PATH proc = Some EmptyString →
  Forall properSegment segs →
  Process.cwd proc = "/" +:+ Segments.joinSegments segs →
  Server.ALLOWED_BASE_PATH proc = Process.cwd proc
  ∧ rootDirectory proc = Process.cwd proc
  ∧ Server.validatePath proc "." = Js.Return (Process.cwd proc)
  ∧ Server.validatePath proc EmptyString = Js.Return (Process.cwd proc).
Proof.
  intros Henv Hsegs Hcwd.
  assert (Hroot : Server.ALLOWED_BASE_PATH proc = Process.cwd proc).
  { unfold Server.ALLOWED_BASE_PATH. by destruct Henv as [-> | ->]. }
  split; [done|]. split.
  - unfold rootDirectory. rewrite Hroot, Hcwd.
    by rewrite PathFacts.resolve_root, PathMore.rootSegments_canonical.
  - destruct (canonical_root_accepts_itself proc segs Hsegs) as [Hempty Hdot];
      [by rewrite Hroot|].
    rewrite <- Hroot. by split.
Qed.

Lemma default_root_is_working_directory_witness :
  Server.ALLOWED_BASE_PATH unconfigured = Process.cwd unconfigured
  ∧ rootDirectory unconfigured = Process.cwd unconfigured
  ∧ Server.validatePath unconfigured "." = Js.Return (Process.cwd unconfigured)
  ∧ Server.validatePath unconfigured EmptyString = Js.Return (Process.cwd unconfigured).
Proof.
  apply (default_root_is_working_directory unconfigured ["home"; "user"]).
  - by left.
  - repeat constructor; discriminate.
  - reflexivity.
Defined.

(** * The response envelope *)

Section envelope.
Context {W : Type} `{!Fs.Api W} (proc : Process.t).

(** What a handler returns is one item of text. *)
Lemma handler_returns_text (i : invocation) (w w' : W) (response : Response.t) :
  invoke (Server.methods proc) i w = (w', Js.Return response) →
  ∃ text, response = Response.ofText text.
Proof.
  destruct i as [p|p|p c|p|p|p]; unfold invoke; methods_unfold.
  - unfold Server.listDirectory, Js.bind, Js.lift, Fs.await, Js.ret.
    destruct (Server.validatePath proc p) as [safePath|e]; [|done].
    destruct (Fs.readdir safePath w) as [w1 [failure|items]]; [done|].
    destruct (listEntries_stat safePath items w1) as (contents & -> & _).
    intros [= _ <-]. by eexists.
  - unfold Server.readFile, Js.bind, Js.lift, Fs.await, Js.throw, Js.ret.
    destruct (Server.validatePath proc p) as [safePath|e]; [|done].
    destruct (Fs.stat safePath w) as [w1 [failure|stats]]; [done|].
    destruct (Stats.isDirectory stats); [done|].
    destruct (Fs.readFile safePath w1) as [w2 [failure|content]]; [done|].
    intros [= _ <-]. by eexists.
  - unfold Server.writeFile, Js.bind, Js.lift, Js.tryCatch, Fs.await, Js.throw, Js.ret.
    destruct (Server.validatePath proc p) as [safePath|e]; [|done].
    destruct (Fs.access (Path.dirname safePath) w) as [w1 [failure|[]]]; [done|].
    destruct (Fs.stat safePath w1) as [w2 [failure|stats]].
    + cbn [Js.code]. case_bool_decide; [done|].
      destruct (Fs.writeFile safePath c w2) as [w3 [failure'|[]]]; [done|].
      intros [= _ <-]. by eexists.
    + destruct (Stats.isDirectory stats).
      { cbn [Js.code]. by rewrite bool_decide_eq_true_2. }
      destruct (Fs.writeFile safePath c w2) as [w3 [failure'|[]]]; [done|].
      intros [= _ <-]. by eexists.
  - unfold Server.createDirectory, Js.bind, Js.lift, Fs.await, Js.ret.
    destruct (Server.validatePath proc p) as [safePath|e]; [|done].
    destruct (Fs.mkdir safePath w) as [w1 [failure|[]]]; [done|].
    intros [= _ <-]. by eexists.
  - unfold Server.deleteItem, Js.bind, Js.lift, Fs.await, Js.ret.
    destruct (Server.validatePath proc p) as [safePath|e]; [|done].
    destruct (Fs.stat safePath w) as [w1 [failure|stats]]; [done|].
    destruct (Stats.isDirectory stats).
    + destruct (Fs.rm safePath w1) as [w2 [failure|[]]]; [done|].
      intros [= _ <-]. by eexists.
    + destruct (Fs.unlink safePath w1) as [w2 [failure|[]]]; [done|].
      intros [= _ <-]. by eexists.
  - unfold Server.getFileInfo, Js.bind, Js.lift, Fs.await, Js.ret.
    destruct (Server.validatePath proc p) as [safePath|e]; [|done].
    destruct (Fs.stat safePath w) as [w1 [failure|stats]]; [done|].
    intros [= _ <-]. by eexists.
Qed.

(** X26 (one envelope for every answer).  For every implementation of the
    storage calls, every tool name, every argument bag and every state of the
    storage: a tool call returns, and what it returns is a response with
    exactly one content item, of type [text], whether the call succeeded or
    failed. *)
Theorem callTool_answers_one_text (name : string)
    (args : option (gmap string Js.value)) (w : W) :
  ∃ w' text,
    Server.callTool (Server.methods proc) name args w
    = (w', Js.Return {| Response.content :=
                          [ {| Response.type := "text"; Response.text := text |} ] |}).
Proof.
  unfold Server.callTool, Js.tryCatch.
  destruct (Server.callToolBody (Server.methods proc) name args w) as [w' [response|e]] eqn:Hbody;
    [|by eexists _, _].
  pose proof (callToolBody_entitled (Server.methods proc) name args) as Hent.
  destruct (entitled name args) as [i|].
  - destruct Hent as [Hrun _]. rewrite Hrun in Hbody.
    destruct (handler_returns_text i w w' response Hbody) as [text ->].
    by exists w', text.
  - destruct Hent as [m Hm]. by rewrite Hm in Hbody.
Qed.

End envelope.

(** * Deleting a directory *)

Module DeleteFacts.
Import StrFacts PathFacts.

Local Arguments String.append !_ _ / : simpl nomatch.
Local Arguments Segments.joinSegments : simpl never.




End DeleteFacts.



(** Deleting the root [/]: every node goes. *)
Example delete_everything :
  let proc := {| Process.env_MCP_FILE_BASE_PATH := Some "/"; Process.cwd := "/home/user" |} in
  Server.validatePath proc "." = Js.Return "/"
  ∧ (Server.deleteItem proc "." docsWorld).2 = Js.Return (Response.ofText "Deleted: .")
  ∧ MemFs.nodes (Server.deleteItem proc "." docsWorld).1 = ∅.
Proof. vm_compute. repeat split; reflexivity. Qed.
